(** * PtsWaiter: gap detection and reordering of pts-tagged updates

    A shallow embedding of [PtsWaiter] from
    [Telegram/SourceFiles/data/data_peer.cpp] (lines 1005-1150) and the
    properties of its sequencing logic, with the other state-keeping
    functions of the file beside it: the colour index, the full update and
    the userpic of [PeerData], the letters of [EmptyUserpic], the online
    time and the bot information of [UserData], and the lists of a
    megagroup in [ChannelData].

    The waiter is a record of its member variables; every member function
    is a computation in a small state-and-log monad: the state is the
    waiter, the log records the calls made to the two outside services
    (the timer of [App::main()] and the update applier of [Auth().api()]),
    in the order they are made.

    The applier is an outside service.  Its calls are logged with their
    payload; what the applier does with a payload, calls back into the
    waiter included, is not part of the model.  What such a call meets is
    the guard at the head of [updated], which is stated for every state
    with a flush or a request under way. *)

From Stdlib Require Import ZArith List Bool Lia Sorted.
Import ListNotations.
Open Scope Z_scope.

(** ** Machine integers

    [int32], [uint32] and [uint64] values are integers of [Z]; the
    conversions below are the C++ conversions to the named type.
    Overflow of a signed addition is undefined in C++; the model takes the
    two's complement result. *)

Definition uint32 (z : Z) : Z := z mod 2 ^ 32.

Definition int32 (z : Z) : Z := (z + 2 ^ 31) mod 2 ^ 32 - 2 ^ 31.

Definition uint64 (z : Z) : Z := z mod 2 ^ 64.

Definition INT32_MIN : Z := - 2 ^ 31.
Definition INT32_MAX : Z := 2 ^ 31 - 1.

Definition in_int32 (z : Z) : Prop := INT32_MIN <= z <= INT32_MAX.

(** ** QMap

    [QMap<uint64, V>] is an ordered map: iteration from [cbegin()] to
    [cend()] visits the entries by ascending key, and [insert] replaces the
    value of a key that is already there.  It is modelled as an association
    list kept sorted by key. *)

Module QMap.
Section Ops.
Context {V : Type}.

Definition t := list (Z * V).

Definition empty : t := [].

Definition isEmpty (m : t) : bool :=
  match m with [] => true | _ :: _ => false end.

Fixpoint insert (k : Z) (v : V) (m : t) : t :=
  match m with
  | [] => [(k, v)]
  | (k', v') :: m' =>
      if k <? k' then (k, v) :: m
      else if k =? k' then (k, v) :: m'
      else (k', v') :: insert k v m'
  end.

Fixpoint find (k : Z) (m : t) : option V :=
  match m with
  | [] => None
  | (k', v') :: m' => if k =? k' then Some v' else find k m'
  end.

(** [value(key)] gives a default-constructed value for an absent key. *)
Definition value (dflt : V) (k : Z) (m : t) : V :=
  match find k m with Some v => v | None => dflt end.

Definition keys (m : t) : list Z := map fst m.

Definition sorted (m : t) : Prop := StronglySorted Z.lt (keys m).
End Ops.
Arguments t : clear implicits.
End QMap.

(** ** PeerData: the colour index, the full update and the userpic

    [peerColorIndex] and [peerUserpicColor] (data_peer.cpp, lines 41-48
    and 62-74), [updateFull], [updateFullForced] and [fullUpdated] (lines
    742-759), and the painting of the userpic (lines 98-131, 210-223 and
    344-366). *)

Definition int64 (z : Z) : Z := (z + 2 ^ 63) mod 2 ^ 64 - 2 ^ 63.

Definition in_int64 (z : Z) : Prop := - 2 ^ 63 <= z <= 2 ^ 63 - 1.

Module PeerData.

(** *** The colour of the empty userpic *)

(** The eight entries of the table [peerColors]. *)
Inductive color : Type :=
| historyPeer1UserpicBg | historyPeer2UserpicBg | historyPeer3UserpicBg
| historyPeer4UserpicBg | historyPeer5UserpicBg | historyPeer6UserpicBg
| historyPeer7UserpicBg | historyPeer8UserpicBg.

Definition peerColors : list color :=
  [historyPeer1UserpicBg; historyPeer2UserpicBg; historyPeer3UserpicBg;
   historyPeer4UserpicBg; historyPeer5UserpicBg; historyPeer6UserpicBg;
   historyPeer7UserpicBg; historyPeer8UserpicBg].

(** [peerColors[index]]; [None] stands for a read outside the table. *)
Definition peerUserpicColor (index : Z) : option color :=
  if index <? 0 then None else nth_error peerColors (Z.to_nat index).

(** [number] is [QByteArray::number] and [hashMd5] the digest, both from
    other files; the digest is the array [uchar md5[16]], given by its
    entries.  [peerId] and [isUser] are [peerToBareInt(peer)] and
    [peerIsUser(peer)], [myId] is [Auth().userId()]. *)
Definition md5_index (peerId : Z) : Z := Z.land peerId 15.

Definition peerColorIndex (number : Z -> list Z) (hashMd5 : list Z -> Z -> Z)
    (myId peerId : Z) (isUser : bool) : Z :=
  let both := firstn 15 (number peerId ++ number myId) in
  let md5 := hashMd5 both in
  Z.land (md5 (md5_index peerId)) (if isUser then 7 else 3).

(** *** Asking for the full peer *)

Inductive Request : Type :=
| RequestFullPeer            (* Auth().api().requestFullPeer(this) *)
| RequestSelfParticipant.    (* Auth().api().requestSelfParticipant(channel) *)

(** What [updateFullForced] reads of a channel. *)
Record Channel : Type := mkChannel {
  amCreator : bool;
  inviter : Z
}.

Record Peer : Type := mkPeer {
  _lastFullUpdate : Z;       (* TimeMs, an int64 *)
  asChannel : option Channel
}.

Definition kUpdateFullPeerTimeout : Z := 5000.

Definition updateFullForced (p : Peer) : list Request :=
  RequestFullPeer ::
  match asChannel p with
  | Some channel =>
      if negb (amCreator channel) && (inviter channel =? 0)
      then [RequestSelfParticipant] else []
  | None => []
  end.

(** [now] is the value of [getms(true)] at the call. *)
Definition updateFull (now : Z) (p : Peer) : list Request :=
  if (_lastFullUpdate p =? 0)
     || (int64 (_lastFullUpdate p + kUpdateFullPeerTimeout) <? now)
  then updateFullForced p else [].

Definition fullUpdated (now : Z) (p : Peer) : Peer :=
  mkPeer now (asChannel p).

(** *** Painting the userpic *)

Section Paint.

(** The text of the empty userpic and a loaded userpic are not looked
    into. *)
Variable QString Pixmap : Type.

Inductive Shape : Type := Circled | Rounded | Square.

(** The calls made on the painter, in order. *)
Inductive Paint : Type :=
| HighQualityOn | HighQualityOff       (* PainterHighQualityEnabler *)
| SetBrushColor | SetPenNone
| DrawEllipse (x y w h : Z)
| DrawRoundedRect (x y w h : Z)        (* radius st::buttonRadius *)
| FillRect (x y w h : Z)
| SetFontPixelSize (size : Z)
| SetBrushNone | SetPenUserpicFg
| DrawTextCentered (x y w h : Z) (text : QString)
| DrawPixmap (x y : Z) (shape : Shape) (size : Z) (pix : Pixmap).

Definition background (shape : Shape) (x y size : Z) : Paint :=
  match shape with
  | Circled => DrawEllipse x y size size
  | Rounded => DrawRoundedRect x y size size
  | Square => FillRect x y size size
  end.

(** [EmptyUserpic::Impl::paint] with its three backgrounds. *)
Definition Impl_paint (shape : Shape) (text : QString) (x y size : Z) : list Paint :=
  let fontsize := Z.quot (int32 (size * 13)) 33 in
  [HighQualityOn; SetBrushColor; SetPenNone; background shape x y size;
   SetFontPixelSize fontsize; SetBrushNone; SetPenUserpicFg;
   DrawTextCentered x y size size text; HighQualityOff].

(** [EmptyUserpic::paint], [paintRounded] and [paintSquare]: [_impl] is
    the text of the implementation object, [None] if there is none, in
    which case [Expects] stops the program. *)
Definition EmptyUserpic_paint (rtl : bool) (_impl : option QString) (shape : Shape)
    (x y outerWidth size : Z) : option (list Paint) :=
  match _impl with
  | None => None
  | Some text =>
      Some (Impl_paint shape text
              (if rtl then int32 (int32 (outerWidth - x) - size) else x) y size)
  end.

(** [PeerData::paintUserpic], [paintUserpicRounded] and
    [paintUserpicSquare]; [userpic] is what [currentUserpic()] returns. *)
Definition paintUserpic (rtl : bool) (userpic : option Pixmap) (_userpicEmpty : option QString)
    (shape : Shape) (x y size : Z) : option (list Paint) :=
  match userpic with
  | Some pix => Some [DrawPixmap x y shape size pix]
  | None =>
      EmptyUserpic_paint rtl _userpicEmpty shape x y (int32 (int32 (x + size) + x)) size
  end.

End Paint.
End PeerData.

(** ** EmptyUserpic: the letters of the empty userpic

    [EmptyUserpic::Impl::fillString] (data_peer.cpp, lines 140-195).  A
    [QString] is the list of its UTF-16 units. *)

Module EmptyUserpic.
Section FillString.

(** [Emoji_Find] is [Ui::Emoji::Find(ch, end, &emojiLength)] on the rest
    of the text: [Some emojiLength] when it finds an emoji.  The tests of
    a unit are those of [QChar] and [chIsDiac]; [toUpper] is
    [QString::toUpper]. *)
Variable Emoji_Find : list Z -> option Z.
Variable isHighSurrogate isLowSurrogate isLetterOrNumber chIsDiac : Z -> bool.
Variable toUpper : list Z -> list Z.

(** The local variables of the first loop. *)
Record Scan : Type := mkScan {
  letters : list (list Z);
  levels : list Z;
  level : Z;
  letterFound : bool
}.

Definition push_letter (letter : list Z) (st : Scan) : Scan :=
  mkScan (letters st ++ [letter]) (levels st ++ [level st]) (level st) true.

Definition space : Z := 32.
Definition hyphen : Z := 45.

(** The last branch of the loop body. *)
Definition separator (ch : Z) (st : Scan) : Scan :=
  if ch =? space then mkScan (letters st) (levels st) 0 false
  else if letterFound st && (ch =? hyphen)
       then mkScan (letters st) (levels st) 1 true
       else st.

(** The loop [while (ch != end)] on the rest [s] of the name.  It has no
    result when an emoji is found with a length that does not move [ch]
    forward inside the name, or when [fuel] does not cover the rounds of
    the loop. *)
Fixpoint scan (fuel : nat) (s : list Z) (st : Scan) : option Scan :=
  match s with
  | [] => Some st
  | ch :: rest =>
      match fuel with
      | O => None
      | S fuel' =>
          match Emoji_Find s with
          | Some emojiLength =>
              if (1 <=? emojiLength) && (emojiLength <=? Z.of_nat (length s))
              then scan fuel' (skipn (Z.to_nat emojiLength) s) st
              else None
          | None =>
              if isHighSurrogate ch then
                match rest with
                | ch' :: rest' =>
                    if isLowSurrogate ch' then scan fuel' rest' st
                    else scan fuel' rest st
                | [] => scan fuel' rest st
                end
              else if negb (letterFound st) && isLetterOrNumber ch then
                match rest with
                | ch' :: rest' =>
                    if chIsDiac ch' then scan fuel' rest' (push_letter [ch; ch'] st)
                    else scan fuel' rest (push_letter [ch] st)
                | [] => scan fuel' rest (push_letter [ch] st)
                end
              else scan fuel' rest (separator ch st)
          end
      end
  end.

(** The loop [for (auto i = letters.size(); i != 1;)], from [i] on; its
    result is [bestIndex].  It starts from a size that is not 0. *)
Fixpoint best (levels : list Z) (i : nat) (bestIndex : nat) (bestLevel : Z) : nat :=
  match i with
  | O => bestIndex
  | S i' =>
      match i' with
      | O => bestIndex
      | S _ =>
          if nth i' levels 0 <? bestLevel
          then best levels i' i' (nth i' levels 0)
          else best levels i' bestIndex bestLevel
      end
  end.

(** [_string] before [toUpper()] *)
Definition chosen (st : Scan) : list Z :=
  match letters st with
  | [] => []
  | front :: _ =>
      let bestIndex := best (levels st) (length (letters st)) 0 2 in
      if (0 <? bestIndex)%nat then front ++ nth bestIndex (letters st) []
      else front
  end.

(** The value of [_string] after [fillString(name)]. *)
Definition fillString (name : list Z) : option (list Z) :=
  match scan (length name) name (mkScan [] [] 0 false) with
  | Some st => Some (toUpper (chosen st))
  | None => None
  end.

(** *** What the loops keep

    Every emoji that is found in the name has a length that moves forward
    inside the name. *)
Definition emoji_inside (name : list Z) : Prop :=
  forall n emojiLength,
    Emoji_Find (skipn n name) = Some emojiLength ->
    1 <= emojiLength <= Z.of_nat (length (skipn n name)).

(** A letter is recorded at level 0, and only while no letter of the
    word has been found. *)
Definition level_ok (st : Scan) : Prop :=
  Forall (eq 0) (levels st) /\
  length (levels st) = length (letters st) /\
  (letterFound st = false -> level st = 0).

(** The first and the last of the recorded letters. *)
Definition first_and_last (letters : list (list Z)) : list Z :=
  match letters with
  | [] => []
  | [front] => front
  | front :: others => front ++ last others []
  end.

(** *** Names of plain letters

    The words of a name are separated by spaces; the initial of a word is
    its first letter or number.  A name is plain when it has no emoji, no
    surrogates and no diacritics. *)
Fixpoint words (s : list Z) : list (list Z) :=
  match s with
  | [] => [[]]
  | ch :: rest =>
      if ch =? space then [] :: words rest
      else match words rest with
           | word :: others => (ch :: word) :: others
           | [] => [[ch]]
           end
  end.

Definition initial (word : list Z) : list (list Z) :=
  match find isLetterOrNumber word with
  | Some ch => [[ch]]
  | None => []
  end.

Definition initials (name : list Z) : list (list Z) :=
  flat_map initial (words name).

Definition plain (name : list Z) : Prop :=
  (forall n, Emoji_Find (skipn n name) = None) /\
  Forall (fun ch => isHighSurrogate ch = false /\ chIsDiac ch = false) name.

End FillString.

(** *** Scenarios

    An alphabet of ASCII letters and digits, in which the only emoji is a
    pair of units that starts with the unit 55357. *)
Definition pair_emoji (s : list Z) : option Z :=
  match s with
  | ch :: _ :: _ => if ch =? 55357 then Some 2 else None
  | _ => None
  end.

Definition no_emoji (s : list Z) : option Z := None.

Definition never (ch : Z) : bool := false.

Definition ascii_letterOrNumber (ch : Z) : bool :=
  ((48 <=? ch) && (ch <=? 57)) || ((65 <=? ch) && (ch <=? 90))
  || ((97 <=? ch) && (ch <=? 122)).

Definition ascii_toUpper (s : list Z) : list Z :=
  map (fun ch => if (97 <=? ch) && (ch <=? 122) then ch - 32 else ch) s.

(** The name [ann-marie], an emoji, [lee]. *)
Definition ann_marie_lee : list Z :=
  [97; 110; 110; 45; 109; 97; 114; 105; 101; 32; 55357; 56832; 32; 108; 101; 101].

(** The name [jean-paul sartre]. *)
Definition jean_paul_sartre : list Z :=
  [106; 101; 97; 110; 45; 112; 97; 117; 108; 32; 115; 97; 114; 116; 114; 101].

End EmptyUserpic.

(** ** UserData: online time and bot information

    The members of [UserData] that [madeAction] and [setBotInfoVersion]
    (data_peer.cpp, lines 521-544 and 601-611) read and write, and the
    notifications they send. *)

Module UserData.

Inductive Notification : Type :=
| UserOnlineChanged    (* Notify::peerUpdatedDelayed(this, UserOnlineChanged) *)
| BotCommandsChanged   (* Notify::botCommandsChanged(this) *)
| UserIsBotChanged.    (* Notify::userIsBotChanged(this) *)

Section Data.

(** The commands of a bot and the other members of [BotInfo] are not
    looked into here. *)
Variable BotCommand BotInfoRest : Type.

Record BotInfo : Type := mkBotInfo {
  version : Z;
  commands : list BotCommand;
  description : list Z;       (* a QString, as its UTF-16 units *)
  inited : bool;
  rest : BotInfoRest
}.

(** [botInfo] is a [std::unique_ptr<BotInfo>]; [isServiceUser(id)] depends
    on the id alone and is kept as a member here. *)
Record User : Type := mkUser {
  botInfo : option BotInfo;
  onlineTill : Z;             (* TimeId, an int32 *)
  serviceUser : bool
}.

Definition set_onlineTill (t : Z) (u : User) : User :=
  mkUser (botInfo u) t (serviceUser u).

Definition set_botInfo (b : option BotInfo) (u : User) : User :=
  mkUser b (onlineTill u) (serviceUser u).

Definition isBot (u : User) : bool :=
  match botInfo u with Some _ => true | None => false end.

(** [SetOnlineAfterActivity] is a constant of the configuration header. *)
Definition madeAction (SetOnlineAfterActivity : Z) (when : Z) (u : User)
  : User * list Notification :=
  if isBot u || serviceUser u || (when <=? 0) then (u, [])
  else if (onlineTill u <=? 0) && (int32 (- onlineTill u) <? when) then
    (set_onlineTill (int32 (int32 (- when) - SetOnlineAfterActivity)) u,
     [UserOnlineChanged])
  else if (0 <? onlineTill u) && (onlineTill u <? int32 (when + 1)) then
    (set_onlineTill (int32 (when + SetOnlineAfterActivity)) u,
     [UserOnlineChanged])
  else (u, []).

Definition commandsCleared (b : BotInfo) : list Notification :=
  match commands b with [] => [] | _ :: _ => [BotCommandsChanged] end.

(** [BotInfo_new] is the value of [std::make_unique<BotInfo>()]; the
    constructor is in the class header. *)
Definition setBotInfoVersion (BotInfo_new : BotInfo) (v : Z) (u : User)
  : User * list Notification :=
  if v <? 0 then
    match botInfo u with
    | Some b => (set_botInfo None u, commandsCleared b ++ [UserIsBotChanged])
    | None => (u, [])
    end
  else
    match botInfo u with
    | None =>
        (set_botInfo
           (Some (mkBotInfo v (commands BotInfo_new) (description BotInfo_new)
                    (inited BotInfo_new) (rest BotInfo_new))) u,
         [UserIsBotChanged])
    | Some b =>
        if version b <? v then
          (set_botInfo (Some (mkBotInfo v [] [] false (rest b))) u,
           commandsCleared b)
        else (u, [])
    end.

(** The magnitude of [onlineTill]: the time itself, whatever its sign. *)
Definition onlineTime (u : User) : Z := Z.abs (onlineTill u).

End Data.
End UserData.

(** ** ChannelData: the counts and the lists of a megagroup

    The setters of the four counts (data_peer.cpp, lines 777-807),
    [applyEditAdmin] and [applyEditBanned] (lines 815-922), and
    [setAdminRights] and [setRestrictedRights] (lines 964-1003).

    A user ([UserData*]) is the integer that identifies it.  The rights of
    an admin ([MTPChannelAdminRights]) are their flags; the rights of a
    banned user ([MTPChannelBannedRights]) are their flags and the date
    until which they hold.  The constructor of [ChannelData] (lines
    694-707) keeps [mgInfo] non-null exactly for a megagroup; the model
    keeps the two apart, and a member function that reads [mgInfo] through
    a null pointer has no result. *)

Module ChannelData.

(** The flags of [Notify::PeerUpdate] that these functions raise. *)
Inductive Flag : Type :=
| MembersChanged | AdminsChanged | BannedUsersChanged | ChannelRightsChanged.

(** The calls made to the outside, in order. *)
Inductive Effect : Type :=
| peerUpdatedDelayed (flags : list Flag)   (* Notify::peerUpdatedDelayed(this, flags) *)
| Api (request : PeerData.Request)         (* Auth().api() *)
| removeMegagroupParticipant (user : Z).   (* Auth().data() *)

(** [MegagroupInfo::Admin] *)
Record Admin : Type := mkAdmin {
  rights : Z;                 (* vflags.v *)
  canEdit : bool
}.

(** [MTPChannelBannedRights], the value of [MegagroupInfo::Restricted] *)
Record BannedRights : Type := mkBannedRights {
  vflags : Z;
  vuntil_date : Z
}.

(** The members of [MegagroupInfo] that these functions use; [bots] is an
    ordered set, kept as a map to [unit]. *)
Record MegagroupInfo : Type := mkMegagroupInfo {
  lastParticipants : list Z;
  lastAdmins : QMap.t Admin;
  lastRestricted : QMap.t BannedRights;
  bots : QMap.t unit;
  botStatus : Z;
  lastParticipantsStatus : Z;
  lastParticipantsCount : Z
}.

(** The members of [ChannelData] that these functions use.  [isMegagroup]
    and [amCreator] are flags of the channel. *)
Record Channel : Type := mkChannel {
  isMegagroup : bool;
  amCreator : bool;
  inviter : Z;
  mgInfo : option MegagroupInfo;
  _membersCount : Z;
  _adminsCount : Z;
  _restrictedCount : Z;
  _kickedCount : Z;
  _adminRights : Z;
  _restrictions : Z;
  _restrictedUntill : Z;
  _lastFullUpdate : Z
}.

Definition set_lastParticipants (l : list Z) (i : MegagroupInfo) : MegagroupInfo :=
  mkMegagroupInfo l (lastAdmins i) (lastRestricted i) (bots i) (botStatus i)
    (lastParticipantsStatus i) (lastParticipantsCount i).

Definition set_lastAdmins (m : QMap.t Admin) (i : MegagroupInfo) : MegagroupInfo :=
  mkMegagroupInfo (lastParticipants i) m (lastRestricted i) (bots i) (botStatus i)
    (lastParticipantsStatus i) (lastParticipantsCount i).

Definition set_lastRestricted (m : QMap.t BannedRights) (i : MegagroupInfo)
  : MegagroupInfo :=
  mkMegagroupInfo (lastParticipants i) (lastAdmins i) m (bots i) (botStatus i)
    (lastParticipantsStatus i) (lastParticipantsCount i).

Definition set_bots (m : QMap.t unit) (i : MegagroupInfo) : MegagroupInfo :=
  mkMegagroupInfo (lastParticipants i) (lastAdmins i) (lastRestricted i) m (botStatus i)
    (lastParticipantsStatus i) (lastParticipantsCount i).

Definition set_botStatus (s : Z) (i : MegagroupInfo) : MegagroupInfo :=
  mkMegagroupInfo (lastParticipants i) (lastAdmins i) (lastRestricted i) (bots i) s
    (lastParticipantsStatus i) (lastParticipantsCount i).

Definition set_lastParticipantsCount (status count : Z) (i : MegagroupInfo)
  : MegagroupInfo :=
  mkMegagroupInfo (lastParticipants i) (lastAdmins i) (lastRestricted i) (bots i)
    (botStatus i) status count.

Definition set_mgInfo (i : option MegagroupInfo) (c : Channel) : Channel :=
  mkChannel (isMegagroup c) (amCreator c) (inviter c) i (_membersCount c)
    (_adminsCount c) (_restrictedCount c) (_kickedCount c) (_adminRights c)
    (_restrictions c) (_restrictedUntill c) (_lastFullUpdate c).

Definition set_membersCount (n : Z) (c : Channel) : Channel :=
  mkChannel (isMegagroup c) (amCreator c) (inviter c) (mgInfo c) n
    (_adminsCount c) (_restrictedCount c) (_kickedCount c) (_adminRights c)
    (_restrictions c) (_restrictedUntill c) (_lastFullUpdate c).

Definition set_adminsCount (n : Z) (c : Channel) : Channel :=
  mkChannel (isMegagroup c) (amCreator c) (inviter c) (mgInfo c) (_membersCount c)
    n (_restrictedCount c) (_kickedCount c) (_adminRights c)
    (_restrictions c) (_restrictedUntill c) (_lastFullUpdate c).

Definition set_restrictedCount (n : Z) (c : Channel) : Channel :=
  mkChannel (isMegagroup c) (amCreator c) (inviter c) (mgInfo c) (_membersCount c)
    (_adminsCount c) n (_kickedCount c) (_adminRights c)
    (_restrictions c) (_restrictedUntill c) (_lastFullUpdate c).

Definition set_kickedCount (n : Z) (c : Channel) : Channel :=
  mkChannel (isMegagroup c) (amCreator c) (inviter c) (mgInfo c) (_membersCount c)
    (_adminsCount c) (_restrictedCount c) n (_adminRights c)
    (_restrictions c) (_restrictedUntill c) (_lastFullUpdate c).

Definition set_adminRights (v : Z) (c : Channel) : Channel :=
  mkChannel (isMegagroup c) (amCreator c) (inviter c) (mgInfo c) (_membersCount c)
    (_adminsCount c) (_restrictedCount c) (_kickedCount c) v
    (_restrictions c) (_restrictedUntill c) (_lastFullUpdate c).

Definition set_restrictions (v : Z) (c : Channel) : Channel :=
  mkChannel (isMegagroup c) (amCreator c) (inviter c) (mgInfo c) (_membersCount c)
    (_adminsCount c) (_restrictedCount c) (_kickedCount c) (_adminRights c)
    v (_restrictedUntill c) (_lastFullUpdate c).

Definition set_restrictedUntill (v : Z) (c : Channel) : Channel :=
  mkChannel (isMegagroup c) (amCreator c) (inviter c) (mgInfo c) (_membersCount c)
    (_adminsCount c) (_restrictedCount c) (_kickedCount c) (_adminRights c)
    (_restrictions c) v (_lastFullUpdate c).

(** *** Containers *)

(** [QMap::contains] *)
Definition contains {V} (k : Z) (m : QMap.t V) : bool :=
  match QMap.find k m with Some _ => true | None => false end.

(** [QMap::remove(key)], and [erase] at the entry found for the key: the
    map holds one entry per key. *)
Definition remove {V} (k : Z) (m : QMap.t V) : QMap.t V :=
  filter (fun e => negb (k =? fst e)) m.

(** [QList::contains], [indexOf] (-1 for an absent value) and [removeAt] *)
Definition list_contains (user : Z) (l : list Z) : bool :=
  existsb (Z.eqb user) l.

Fixpoint indexOf (user : Z) (l : list Z) : Z :=
  match l with
  | [] => -1
  | x :: l' =>
      if x =? user then 0
      else let i := indexOf user l' in if i <? 0 then -1 else i + 1
  end.

Fixpoint removeAt (i : nat) (l : list Z) : list Z :=
  match l, i with
  | [], _ => []
  | _ :: l', O => l'
  | x :: l', S i' => x :: removeAt i' l'
  end.

(** *** The monad of member functions

    A member function takes the channel to a result, the channel
    afterwards and the calls it made, or to nothing when it reads
    [mgInfo] through a null pointer. *)

Definition M (A : Type) : Type := Channel -> option (A * Channel * list Effect).

Definition ret {A} (a : A) : M A := fun c => Some (a, c, []).

Definition bind {A B} (m : M A) (k : A -> M B) : M B :=
  fun c =>
    match m c with
    | None => None
    | Some (a, c1, l1) =>
        match k a c1 with
        | None => None
        | Some (b, c2, l2) => Some (b, c2, l1 ++ l2)
        end
    end.

Local Notation "x <- m ;; k" := (bind m (fun x => k))
  (at level 61, m at next level, right associativity).
Local Notation "m ;; k" := (bind m (fun _ => k))
  (at level 61, right associativity).

Definition get : M Channel := fun c => Some (c, c, []).

Definition modify (f : Channel -> Channel) : M unit := fun c => Some (tt, f c, []).

Definition emit (e : Effect) : M unit := fun c => Some (tt, c, [e]).

Definition when (b : bool) (m : M unit) : M unit := if b then m else ret tt.

(** [mgInfo->] *)
Definition info : M MegagroupInfo :=
  fun c => match mgInfo c with Some i => Some (i, c, []) | None => None end.

Definition modify_info (f : MegagroupInfo -> MegagroupInfo) : M unit :=
  i <- info ;; modify (set_mgInfo (Some (f i))).

(** The accessors of the class header read the members. *)
Definition membersCount : M Z := c <- get ;; ret (_membersCount c).
Definition adminsCount : M Z := c <- get ;; ret (_adminsCount c).
Definition restrictedCount : M Z := c <- get ;; ret (_restrictedCount c).
Definition kickedCount : M Z := c <- get ;; ret (_kickedCount c).

(** [PeerData::updateFullForced] on this channel *)
Definition asPeer (c : Channel) : PeerData.Peer :=
  PeerData.mkPeer (_lastFullUpdate c)
    (Some (PeerData.mkChannel (amCreator c) (inviter c))).

Definition updateFullForced : M unit :=
  fun c => Some (tt, c, map Api (PeerData.updateFullForced (asPeer c))).

Section Members.

(** [MegagroupInfo::LastParticipantsCountOutdated] and the flag
    [f_view_messages] of the banned rights are constants of other files;
    [self] is [App::self()]; [hasAdminRights] and [hasRestrictions] are
    members of the class header. *)
Variable LastParticipantsCountOutdated : Z.
Variable f_view_messages : Z.
Variable self : Z.
Variable hasAdminRights hasRestrictions : Channel -> bool.

Definition setMembersCount (newMembersCount : Z) : M unit :=
  c <- get ;;
  when (negb (_membersCount c =? newMembersCount)) (
    (if isMegagroup c then
       i <- info ;;
       when (negb (match lastParticipants i with [] => true | _ :: _ => false end)) (
         n <- membersCount ;;
         modify_info (fun i =>
           set_lastParticipantsCount
             (Z.lor (lastParticipantsStatus i) LastParticipantsCountOutdated) n i))
     else ret tt) ;;
    modify (set_membersCount newMembersCount) ;;
    emit (peerUpdatedDelayed [MembersChanged])).

Definition setAdminsCount (newAdminsCount : Z) : M unit :=
  c <- get ;;
  when (negb (_adminsCount c =? newAdminsCount)) (
    modify (set_adminsCount newAdminsCount) ;;
    emit (peerUpdatedDelayed [AdminsChanged])).

Definition setRestrictedCount (newRestrictedCount : Z) : M unit :=
  c <- get ;;
  when (negb (_restrictedCount c =? newRestrictedCount)) (
    modify (set_restrictedCount newRestrictedCount) ;;
    emit (peerUpdatedDelayed [BannedUsersChanged])).

Definition setKickedCount (newKickedCount : Z) : M unit :=
  c <- get ;;
  when (negb (_kickedCount c =? newKickedCount)) (
    modify (set_kickedCount newKickedCount) ;;
    emit (peerUpdatedDelayed [BannedUsersChanged])).

(** [user_botInfo] tells whether [user->botInfo] is set; [oldRights] and
    [newRights] are the flags of the rights. *)
Definition applyEditAdmin (user : Z) (user_botInfo : bool) (oldRights newRights : Z)
  : M unit :=
  c <- get ;;
  match mgInfo c with
  | Some _ =>
      i <- info ;;
      when (negb (list_contains user (lastParticipants i))) (
        modify_info (fun i => set_lastParticipants (user :: lastParticipants i) i) ;;
        n <- membersCount ;;
        setMembersCount (int32 (n + 1)) ;;
        i <- info ;;
        when (user_botInfo && negb (contains user (bots i))) (
          modify_info (fun i => set_bots (QMap.insert user tt (bots i)) i) ;;
          i <- info ;;
          when (negb (botStatus i =? 0) && (botStatus i <? 2)) (
            modify_info (set_botStatus 2)))) ;;
      i <- info ;;
      when (contains user (lastRestricted i)) (
        modify_info (fun i => set_lastRestricted (remove user (lastRestricted i)) i) ;;
        n <- restrictedCount ;;
        when (0 <? n) (setRestrictedCount (int32 (n - 1)))) ;;
      i <- info ;;
      let it := QMap.find user (lastAdmins i) in
      if negb (newRights =? 0) then
        let lastAdmin := mkAdmin newRights true in
        match it with
        | None =>
            modify_info (fun i =>
              set_lastAdmins (QMap.insert user lastAdmin (lastAdmins i)) i) ;;
            n <- adminsCount ;;
            setAdminsCount (int32 (n + 1))
        | Some _ =>
            modify_info (fun i =>
              set_lastAdmins (QMap.insert user lastAdmin (lastAdmins i)) i)
        end
      else
        match it with
        | Some _ =>
            modify_info (fun i => set_lastAdmins (remove user (lastAdmins i)) i) ;;
            n <- adminsCount ;;
            when (0 <? n) (setAdminsCount (int32 (n - 1)))
        | None => ret tt
        end
  | None => ret tt
  end ;;
  (if negb (oldRights =? 0) && (newRights =? 0) then
     (* We removed an admin. *)
     n <- adminsCount ;;
     when (1 <? n) (setAdminsCount (int32 (n - 1))) ;;
     c <- get ;;
     n <- membersCount ;;
     when (negb (isMegagroup c) && user_botInfo && (1 <? n)) (
       (* Removing bot admin removes it from channel. *)
       setMembersCount (int32 (n - 1)))
   else if (oldRights =? 0) && negb (newRights =? 0) then
     (* We added an admin. *)
     n <- adminsCount ;;
     setAdminsCount (int32 (n + 1)) ;;
     updateFullForced
   else ret tt) ;;
  emit (peerUpdatedDelayed [AdminsChanged]).

Definition isKicked (newRights : BannedRights) : bool :=
  negb (Z.land (vflags newRights) f_view_messages =? 0).

Definition isRestricted (newRights : BannedRights) : bool :=
  negb (isKicked newRights) && negb (vflags newRights =? 0).

(** The body of [if (mgInfo)] in [applyEditBanned]; its result is the
    flags of the closing notification. *)
Definition applyEditBanned_mgInfo (user : Z) (newRights : BannedRights)
  : M (list Flag) :=
  i <- info ;;
  flags <- (if contains user (lastAdmins i) then
              modify_info (fun i => set_lastAdmins (remove user (lastAdmins i)) i) ;;
              n <- adminsCount ;;
              if 1 <? n then
                setAdminsCount (int32 (n - 1)) ;; ret [BannedUsersChanged]
              else ret [BannedUsersChanged; AdminsChanged]
            else ret [BannedUsersChanged]) ;;
  i <- info ;;
  let it := QMap.find user (lastRestricted i) in
  if isRestricted newRights then
    match it with
    | None =>
        modify_info (fun i =>
          set_lastRestricted (QMap.insert user newRights (lastRestricted i)) i) ;;
        n <- restrictedCount ;;
        setRestrictedCount (int32 (n + 1)) ;;
        ret flags
    | Some _ =>
        modify_info (fun i =>
          set_lastRestricted (QMap.insert user newRights (lastRestricted i)) i) ;;
        ret flags
    end
  else
    match it with
    | Some _ =>
        modify_info (fun i =>
          set_lastRestricted (remove user (lastRestricted i)) i) ;;
        n <- restrictedCount ;;
        when (0 <? n) (setRestrictedCount (int32 (n - 1)))
    | None => ret tt
    end ;;
    if isKicked newRights then
      i <- info ;;
      let index := indexOf user (lastParticipants i) in
      when (0 <=? index) (
        modify_info (fun i =>
          set_lastParticipants (removeAt (Z.to_nat index) (lastParticipants i)) i)) ;;
      n <- membersCount ;;
      (if 1 <? n then setMembersCount (int32 (n - 1))
       else
         modify_info (fun i =>
           set_lastParticipantsCount
             (Z.lor (lastParticipantsStatus i) LastParticipantsCountOutdated) 0 i)) ;;
      n <- kickedCount ;;
      setKickedCount (int32 (n + 1)) ;;
      i <- info ;;
      when (contains user (bots i)) (
        modify_info (fun i => set_bots (remove user (bots i)) i) ;;
        i <- info ;;
        when (QMap.isEmpty (bots i) && (0 <? botStatus i)) (
          modify_info (set_botStatus (-1)))) ;;
      emit (removeMegagroupParticipant user) ;;
      ret (flags ++ [MembersChanged])
    else ret flags.

Definition applyEditBanned (user : Z) (oldRights newRights : BannedRights) : M unit :=
  c <- get ;;
  flags <- match mgInfo c with
           | Some _ => applyEditBanned_mgInfo user newRights
           | None => ret [BannedUsersChanged]
           end ;;
  emit (peerUpdatedDelayed flags).

Definition setAdminRights (rights : Z) : M unit :=
  c <- get ;;
  if rights =? _adminRights c then ret tt
  else
    modify (set_adminRights rights) ;;
    c <- get ;;
    when (isMegagroup c) (
      if hasAdminRights c then
        when (negb (amCreator c)) (
          modify_info (fun i =>
            set_lastAdmins (QMap.insert self (mkAdmin rights false) (lastAdmins i)) i)) ;;
        modify_info (fun i => set_lastRestricted (remove self (lastRestricted i)) i)
      else
        modify_info (fun i => set_lastAdmins (remove self (lastAdmins i)) i)) ;;
    emit (peerUpdatedDelayed [ChannelRightsChanged; AdminsChanged; BannedUsersChanged]).

Definition setRestrictedRights (rights : BannedRights) : M unit :=
  c <- get ;;
  if (vflags rights =? _restrictions c) && (vuntil_date rights =? _restrictedUntill c)
  then ret tt
  else
    modify (set_restrictedUntill (vuntil_date rights)) ;;
    modify (set_restrictions (vflags rights)) ;;
    c <- get ;;
    when (isMegagroup c) (
      if hasRestrictions c then
        when (negb (amCreator c)) (
          modify_info (fun i =>
            set_lastRestricted (QMap.insert self rights (lastRestricted i)) i)) ;;
        modify_info (fun i => set_lastAdmins (remove self (lastAdmins i)) i)
      else
        modify_info (fun i => set_lastRestricted (remove self (lastRestricted i)) i)) ;;
    emit (peerUpdatedDelayed [ChannelRightsChanged; AdminsChanged; BannedUsersChanged]).

(** *** Sequences of the four operations *)

Inductive Op : Type :=
| EditAdmin (user : Z) (user_botInfo : bool) (oldRights newRights : Z)
| EditBanned (user : Z) (oldRights newRights : BannedRights)
| AdminRights (rights : Z)
| RestrictedRights (rights : BannedRights).

Definition perform (op : Op) : M unit :=
  match op with
  | EditAdmin user bot oldRights newRights => applyEditAdmin user bot oldRights newRights
  | EditBanned user oldRights newRights => applyEditBanned user oldRights newRights
  | AdminRights rights => setAdminRights rights
  | RestrictedRights rights => setRestrictedRights rights
  end.

Fixpoint run (ops : list Op) : M unit :=
  match ops with
  | [] => ret tt
  | op :: ops' => perform op ;; run ops'
  end.

(** *** The lists of a megagroup

    The four lists of [MegagroupInfo], and what [applyEditAdmin] and
    [applyEditBanned] make of them. *)

Record Lists : Type := mkLists {
  participants : list Z;
  admins : QMap.t Admin;
  restricted : QMap.t BannedRights;
  botset : QMap.t unit
}.

Definition lists_of (i : MegagroupInfo) : Lists :=
  mkLists (lastParticipants i) (lastAdmins i) (lastRestricted i) (bots i).

(** Whether the channel is a megagroup, and the lists of its [mgInfo]. *)
Definition shape (c : Channel) : bool * option Lists :=
  (isMegagroup c, option_map lists_of (mgInfo c)).

Definition listed {V} (user : Z) (m : QMap.t V) : Prop := QMap.find user m <> None.

(** No user is listed twice among the last participants, nobody is both
    a last admin and restricted, and every listed bot is a last
    participant. *)
Record consistent (v : Lists) : Prop := mkConsistent {
  participants_once : NoDup (participants v);
  admins_sorted : QMap.sorted (admins v);
  restricted_sorted : QMap.sorted (restricted v);
  bots_sorted : QMap.sorted (botset v);
  admin_not_restricted :
    forall user, listed user (admins v) -> ~ listed user (restricted v);
  bots_participate :
    forall user, listed user (botset v) -> In user (participants v)
}.

(** The state that the constructor of [ChannelData] keeps, a megagroup
    has its [mgInfo], with consistent lists. *)
Definition well_formed (c : Channel) : Prop :=
  (isMegagroup c = true -> mgInfo c <> None) /\
  forall i, mgInfo c = Some i -> consistent (lists_of i).

(** What [applyEditAdmin] makes of the lists of a megagroup. *)
Definition admin_lists (user : Z) (user_botInfo : bool) (newRights : Z) (v : Lists)
  : Lists :=
  let added := negb (list_contains user (participants v)) in
  mkLists
    (if added then user :: participants v else participants v)
    (if newRights =? 0 then remove user (admins v)
     else QMap.insert user (mkAdmin newRights true) (admins v))
    (remove user (restricted v))
    (if added && user_botInfo && negb (contains user (botset v))
     then QMap.insert user tt (botset v) else botset v).

(** What [applyEditBanned] makes of them. *)
Definition banned_lists (user : Z) (newRights : BannedRights) (v : Lists) : Lists :=
  mkLists
    (if isKicked newRights && (0 <=? indexOf user (participants v))
     then removeAt (Z.to_nat (indexOf user (participants v))) (participants v)
     else participants v)
    (remove user (admins v))
    (if isRestricted newRights then QMap.insert user newRights (restricted v)
     else remove user (restricted v))
    (if isKicked newRights then remove user (botset v) else botset v).

(** What [setAdminRights] and [setRestrictedRights] make of them in a
    megagroup, when the rights change; [has] is the value of
    [hasAdminRights()] or [hasRestrictions()] and [creator] that of
    [amCreator()]. *)
Definition admin_rights_lists (rights : Z) (has creator : bool) (v : Lists) : Lists :=
  if has then
    mkLists (participants v)
      (if creator then admins v
       else QMap.insert self (mkAdmin rights false) (admins v))
      (remove self (restricted v)) (botset v)
  else mkLists (participants v) (remove self (admins v)) (restricted v) (botset v).

Definition restricted_rights_lists (rights : BannedRights) (has creator : bool)
    (v : Lists) : Lists :=
  if has then
    mkLists (participants v) (remove self (admins v))
      (if creator then restricted v else QMap.insert self rights (restricted v))
      (botset v)
  else mkLists (participants v) (admins v) (remove self (restricted v)) (botset v).

End Members.

(** *** Member functions, step by step

    [step s m R s'] says that from every channel of shape [s] the
    computation [m] has a result, which satisfies [R], and leaves a
    channel of shape [s']. *)

Definition step {A} (s : bool * option Lists) (m : M A) (R : A -> Prop)
    (s' : bool * option Lists) : Prop :=
  forall c, shape c = s ->
    exists a c' l, m c = Some (a, c', l) /\ R a /\ shape c' = s'.

Definition any {A} : A -> Prop := fun _ => True.

Definition has_info (s : bool * option Lists) : Prop :=
  fst s = true -> snd s <> None.

(** *** Scenarios

    A megagroup with the last participants 1 and 7, of which 7 is
    restricted. *)
Definition small_group : Channel :=
  mkChannel true false 0
    (Some (mkMegagroupInfo [1; 7] [] [(7, mkBannedRights 2 0)] [] 0 0 0))
    2 1 1 0 0 0 0 0.

Definition has_rights (c : Channel) : bool := negb (_adminRights c =? 0).

Definition has_restrictions (c : Channel) : bool := negb (_restrictions c =? 0).

End ChannelData.

(** ** The waiter and its environment *)

Inductive PtsSkippedQueue : Type := SkippedUpdate | SkippedUpdates.

Section Waiter.

(** The two payload types are opaque here. *)
Variable MTPUpdate MTPUpdates : Type.
Variable MTPUpdate_default : MTPUpdate.
Variable MTPUpdates_default : MTPUpdates.

(** [App::main()] is a pointer the code tests before each use. *)
Variable main : bool.

(** [WaitForSkippedTimeout] is a constant of the application's
    configuration header; the standard gap timeout, in milliseconds. *)
Variable WaitForSkippedTimeout : Z.
Hypothesis WaitForSkippedTimeout_nonneg : 0 <= WaitForSkippedTimeout.

(** The member variables of the class.  Their declarations are in the
    class header; the types used here are the ones the member functions
    impose: [_good], [_last], [_count] are compared with and assigned from
    [int32] values, [_applySkippedLevel] is a counter tested for being
    non-zero, the three flags are tested as booleans, and [_skippedKey] is
    the counter that fills the low 32 bits of a queue key.  The counter is
    taken to be a [uint32]; the properties that depend on it are stated for
    runs in which it stays below 2^32 - 1, where every unsigned type of 32
    bits or more gives the same keys.

    Modelled from the spec: the field [initialized].  The class header,
    with the bodies of [inited()] and [init()], is not part of this
    translation unit; the data model of the specification has
    [initialized : Boolean], "whether the state has seen its first update
    and established a baseline". *)
Record PtsWaiter : Type := mkPtsWaiter {
  _queue : QMap.t PtsSkippedQueue;
  _updateQueue : QMap.t MTPUpdate;
  _updatesQueue : QMap.t MTPUpdates;
  _good : Z;
  _last : Z;
  _count : Z;
  _applySkippedLevel : Z;
  _requesting : bool;
  _waitingForSkipped : bool;
  _waitingForShortPoll : bool;
  _skippedKey : Z;
  initialized : bool
}.

Definition set_queue q (w : PtsWaiter) : PtsWaiter :=
  mkPtsWaiter q (_updateQueue w) (_updatesQueue w) (_good w) (_last w)
    (_count w) (_applySkippedLevel w) (_requesting w) (_waitingForSkipped w)
    (_waitingForShortPoll w) (_skippedKey w) (initialized w).

Definition set_updateQueue q (w : PtsWaiter) : PtsWaiter :=
  mkPtsWaiter (_queue w) q (_updatesQueue w) (_good w) (_last w)
    (_count w) (_applySkippedLevel w) (_requesting w) (_waitingForSkipped w)
    (_waitingForShortPoll w) (_skippedKey w) (initialized w).

Definition set_updatesQueue q (w : PtsWaiter) : PtsWaiter :=
  mkPtsWaiter (_queue w) (_updateQueue w) q (_good w) (_last w)
    (_count w) (_applySkippedLevel w) (_requesting w) (_waitingForSkipped w)
    (_waitingForShortPoll w) (_skippedKey w) (initialized w).

Definition set_good z (w : PtsWaiter) : PtsWaiter :=
  mkPtsWaiter (_queue w) (_updateQueue w) (_updatesQueue w) z (_last w)
    (_count w) (_applySkippedLevel w) (_requesting w) (_waitingForSkipped w)
    (_waitingForShortPoll w) (_skippedKey w) (initialized w).

Definition set_last z (w : PtsWaiter) : PtsWaiter :=
  mkPtsWaiter (_queue w) (_updateQueue w) (_updatesQueue w) (_good w) z
    (_count w) (_applySkippedLevel w) (_requesting w) (_waitingForSkipped w)
    (_waitingForShortPoll w) (_skippedKey w) (initialized w).

Definition set_count z (w : PtsWaiter) : PtsWaiter :=
  mkPtsWaiter (_queue w) (_updateQueue w) (_updatesQueue w) (_good w) (_last w)
    z (_applySkippedLevel w) (_requesting w) (_waitingForSkipped w)
    (_waitingForShortPoll w) (_skippedKey w) (initialized w).

Definition set_applySkippedLevel z (w : PtsWaiter) : PtsWaiter :=
  mkPtsWaiter (_queue w) (_updateQueue w) (_updatesQueue w) (_good w) (_last w)
    (_count w) z (_requesting w) (_waitingForSkipped w)
    (_waitingForShortPoll w) (_skippedKey w) (initialized w).

Definition set_waitingForSkipped b (w : PtsWaiter) : PtsWaiter :=
  mkPtsWaiter (_queue w) (_updateQueue w) (_updatesQueue w) (_good w) (_last w)
    (_count w) (_applySkippedLevel w) (_requesting w) b
    (_waitingForShortPoll w) (_skippedKey w) (initialized w).

Definition set_waitingForShortPoll b (w : PtsWaiter) : PtsWaiter :=
  mkPtsWaiter (_queue w) (_updateQueue w) (_updatesQueue w) (_good w) (_last w)
    (_count w) (_applySkippedLevel w) (_requesting w) (_waitingForSkipped w)
    b (_skippedKey w) (initialized w).

Definition set_skippedKey z (w : PtsWaiter) : PtsWaiter :=
  mkPtsWaiter (_queue w) (_updateQueue w) (_updatesQueue w) (_good w) (_last w)
    (_count w) (_applySkippedLevel w) (_requesting w) (_waitingForSkipped w)
    (_waitingForShortPoll w) z (initialized w).

Definition set_initialized b (w : PtsWaiter) : PtsWaiter :=
  mkPtsWaiter (_queue w) (_updateQueue w) (_updatesQueue w) (_good w) (_last w)
    (_count w) (_applySkippedLevel w) (_requesting w) (_waitingForSkipped w)
    (_waitingForShortPoll w) (_skippedKey w) b.

(** Calls to the outside services, as they appear in the log. *)
Inductive Event : Type :=
| StartTimer (ms : Z)                   (* ptsWaiterStartTimerFor(channel, ms) *)
| ApplyUpdate (update : MTPUpdate)      (* applyUpdateNoPtsCheck(update) *)
| ApplyUpdates (updates : MTPUpdates).  (* applyUpdatesNoPtsCheck(updates) *)

(** ** The monad of member functions *)

Definition M (A : Type) : Type := PtsWaiter -> A * PtsWaiter * list Event.

Definition ret {A} (a : A) : M A := fun w => (a, w, []).

Definition bind {A B} (m : M A) (k : A -> M B) : M B :=
  fun w =>
    let '(a, w1, l1) := m w in
    let '(b, w2, l2) := k a w1 in
    (b, w2, l1 ++ l2).

Definition get : M PtsWaiter := fun w => (w, w, []).

Definition modify (f : PtsWaiter -> PtsWaiter) : M unit :=
  fun w => (tt, f w, []).

Definition emit (e : Event) : M unit := fun w => (tt, w, [e]).

Definition when (b : bool) (m : M unit) : M unit := if b then m else ret tt.

Notation "x <- m ;; k" := (bind m (fun x => k))
  (at level 61, m at next level, right associativity).
Notation "m ;; k" := (bind m (fun _ => k))
  (at level 61, right associativity).

Definition result {A} (r : A * PtsWaiter * list Event) : A := fst (fst r).
Definition state {A} (r : A * PtsWaiter * list Event) : PtsWaiter := snd (fst r).
Definition events {A} (r : A * PtsWaiter * list Event) : list Event := snd r.

(** ** Outside services *)

Definition ptsWaiterStartTimerFor (ms : Z) : M unit := emit (StartTimer ms).

Definition applyUpdateNoPtsCheck (update : MTPUpdate) : M unit :=
  emit (ApplyUpdate update).

Definition applyUpdatesNoPtsCheck (updates : MTPUpdates) : M unit :=
  emit (ApplyUpdates updates).

(** ** Member functions declared in the class header *)

(** Modelled from the spec: [inited()], whose body is in the class header.
    "[initialized] - whether the state has seen its first update and
    established a baseline." *)
Definition inited (w : PtsWaiter) : bool := initialized w.

(** Modelled from the spec: [init(pts)], whose body is in the class header.
    The gap check of the specification has, for a state that is not
    initialized, "confirmed = lastSeen = pts; initialized = true"; its
    testable properties ("after baseline at pts=100, ingestSingle(pts=105,
    count=5) with countAccumulated reaching exactly lastSeen") have the
    accumulated count start from the baseline too. *)
Definition init (pts : Z) : M unit :=
  modify (fun w => set_initialized true (set_good pts (set_last pts (set_count pts w)))).

(** ** Member functions of data_peer.cpp *)

(** [uint64(uint32(pts)) << 32 | (++_skippedKey)] *)
Definition packKey (pts : Z) (skippedKey : Z) : Z :=
  Z.lor (uint64 (Z.shiftl (uint64 (uint32 pts)) 32)) skippedKey.

Definition ptsKey (queue : PtsSkippedQueue) (pts : Z) : M Z :=
  modify (fun w => set_skippedKey (uint32 (_skippedKey w + 1)) w) ;;
  w <- get ;;
  let key := packKey pts (_skippedKey w) in
  modify (fun w => set_queue (QMap.insert key queue (_queue w)) w) ;;
  ret key.

Definition checkForWaiting : M unit :=
  w <- get ;;
  when (negb (_waitingForSkipped w) && negb (_waitingForShortPoll w) && main)
    (ptsWaiterStartTimerFor (-1)).

Definition setWaitingForSkipped (ms : Z) : M unit :=
  if 0 <=? ms then
    when main (ptsWaiterStartTimerFor ms) ;;
    modify (set_waitingForSkipped true)
  else
    modify (set_waitingForSkipped false) ;;
    checkForWaiting.

Definition setWaitingForShortPoll (ms : Z) : M unit :=
  if 0 <=? ms then
    when main (ptsWaiterStartTimerFor ms) ;;
    modify (set_waitingForShortPoll true)
  else
    modify (set_waitingForShortPoll false) ;;
    checkForWaiting.

Definition clearSkippedUpdates : M unit :=
  modify (set_queue QMap.empty) ;;
  modify (set_updateQueue QMap.empty) ;;
  modify (set_updatesQueue QMap.empty) ;;
  modify (set_applySkippedLevel 0).

(** One step of the loop of [applySkippedUpdates]: the entry [i] of
    [_queue] selects the map the payload is read from. *)
Definition applySkipped1 (i : Z * PtsSkippedQueue) : M unit :=
  w <- get ;;
  match snd i with
  | SkippedUpdate =>
      applyUpdateNoPtsCheck (QMap.value MTPUpdate_default (fst i) (_updateQueue w))
  | SkippedUpdates =>
      applyUpdatesNoPtsCheck (QMap.value MTPUpdates_default (fst i) (_updatesQueue w))
  end.

Fixpoint applySkippedLoop (q : QMap.t PtsSkippedQueue) : M unit :=
  match q with
  | [] => ret tt
  | i :: q' => applySkipped1 i ;; applySkippedLoop q'
  end.

Definition applySkippedUpdates : M unit :=
  w <- get ;;
  if negb (_waitingForSkipped w) then ret tt else
  setWaitingForSkipped (-1) ;;
  w <- get ;;
  if QMap.isEmpty (_queue w) then ret tt else
  modify (fun w => set_applySkippedLevel (int32 (_applySkippedLevel w + 1)) w) ;;
  w <- get ;;
  applySkippedLoop (_queue w) ;;
  modify (fun w => set_applySkippedLevel (int32 (_applySkippedLevel w - 1)) w) ;;
  clearSkippedUpdates.

(** [check] returns false if the update has to be saved and applied later. *)
Definition check (pts count : Z) : M bool :=
  w <- get ;;
  if negb (inited w) then
    init pts ;;
    ret true
  else
    modify (fun w => set_last (Z.max (_last w) pts) w) ;;
    modify (fun w => set_count (int32 (_count w + count)) w) ;;
    w <- get ;;
    if _last w =? _count w then
      modify (fun w => set_good (_last w) w) ;;
      ret true
    else
      (if _last w <? _count w then setWaitingForSkipped 1
       else setWaitingForSkipped WaitForSkippedTimeout) ;;
      ret (count =? 0).

(** The three overloads of [updated]. *)
Definition updated_updates (pts count : Z) (updates : MTPUpdates) : M bool :=
  w <- get ;;
  if _requesting w || negb (_applySkippedLevel w =? 0) then ret true
  else if (pts <=? _good w) && (0 <? count) then ret false
  else
    ok <- check pts count ;;
    if ok then ret true else
    key <- ptsKey SkippedUpdates pts ;;
    modify (fun w => set_updatesQueue (QMap.insert key updates (_updatesQueue w)) w) ;;
    ret false.

Definition updated_update (pts count : Z) (update : MTPUpdate) : M bool :=
  w <- get ;;
  if _requesting w || negb (_applySkippedLevel w =? 0) then ret true
  else if (pts <=? _good w) && (0 <? count) then ret false
  else
    ok <- check pts count ;;
    if ok then ret true else
    key <- ptsKey SkippedUpdate pts ;;
    modify (fun w => set_updateQueue (QMap.insert key update (_updateQueue w)) w) ;;
    ret false.

Definition updated (pts count : Z) : M bool :=
  w <- get ;;
  if _requesting w || negb (_applySkippedLevel w =? 0) then ret true
  else if (pts <=? _good w) && (0 <? count) then ret false
  else check pts count.

(** The three overloads of [updateAndApply]. *)
Definition updateAndApply_updates (pts count : Z) (updates : MTPUpdates) : M bool :=
  ok <- updated_updates pts count updates ;;
  if negb ok then ret false else
  w <- get ;;
  (if negb (_waitingForSkipped w) || QMap.isEmpty (_queue w) then
     applyUpdatesNoPtsCheck updates
   else
     key <- ptsKey SkippedUpdates pts ;;
     modify (fun w => set_updatesQueue (QMap.insert key updates (_updatesQueue w)) w) ;;
     applySkippedUpdates) ;;
  ret true.

Definition updateAndApply_update (pts count : Z) (update : MTPUpdate) : M bool :=
  ok <- updated_update pts count update ;;
  if negb ok then ret false else
  w <- get ;;
  (if negb (_waitingForSkipped w) || QMap.isEmpty (_queue w) then
     applyUpdateNoPtsCheck update
   else
     key <- ptsKey SkippedUpdate pts ;;
     modify (fun w => set_updateQueue (QMap.insert key update (_updateQueue w)) w) ;;
     applySkippedUpdates) ;;
  ret true.

Definition updateAndApply (pts count : Z) : M bool :=
  ok <- updated pts count ;;
  if negb ok then ret false else
  applySkippedUpdates ;;
  ret true.

(** ** Operations and reachable states

    The public operations of the waiter, as a caller issues them one after
    the other on the single thread that owns the waiter. *)

Inductive Op : Type :=
| OpUpdatedUpdates (pts count : Z) (updates : MTPUpdates)
| OpUpdatedUpdate (pts count : Z) (update : MTPUpdate)
| OpUpdated (pts count : Z)
| OpUpdateAndApplyUpdates (pts count : Z) (updates : MTPUpdates)
| OpUpdateAndApplyUpdate (pts count : Z) (update : MTPUpdate)
| OpUpdateAndApply (pts count : Z)
| OpApplySkippedUpdates
| OpClearSkippedUpdates
| OpSetWaitingForSkipped (ms : Z)
| OpSetWaitingForShortPoll (ms : Z).

Definition perform (op : Op) : M unit :=
  match op with
  | OpUpdatedUpdates pts count updates => updated_updates pts count updates ;; ret tt
  | OpUpdatedUpdate pts count update => updated_update pts count update ;; ret tt
  | OpUpdated pts count => updated pts count ;; ret tt
  | OpUpdateAndApplyUpdates pts count updates =>
      updateAndApply_updates pts count updates ;; ret tt
  | OpUpdateAndApplyUpdate pts count update =>
      updateAndApply_update pts count update ;; ret tt
  | OpUpdateAndApply pts count => updateAndApply pts count ;; ret tt
  | OpApplySkippedUpdates => applySkippedUpdates
  | OpClearSkippedUpdates => clearSkippedUpdates
  | OpSetWaitingForSkipped ms => setWaitingForSkipped ms
  | OpSetWaitingForShortPoll ms => setWaitingForShortPoll ms
  end.

Fixpoint run (ops : list Op) : M unit :=
  match ops with
  | [] => ret tt
  | op :: ops' => perform op ;; run ops'
  end.


(** Modelled from the spec: the state of a waiter that was just created.
    The constructor is in the class header.  "A SequenceState is created
    when a channel/account first needs ordering tracking (baseline
    uninitialized)": nothing is buffered, no reason to wait is set, no
    flush or request is under way and the insertion counter has not been
    used; the three numbers are left open. *)
Definition fresh (w : PtsWaiter) : Prop :=
  initialized w = false /\
  _queue w = [] /\ _updateQueue w = [] /\ _updatesQueue w = [] /\
  _applySkippedLevel w = 0 /\ _requesting w = false /\
  _waitingForSkipped w = false /\ _waitingForShortPoll w = false /\
  _skippedKey w = 0.

Definition fresh0 : PtsWaiter :=
  mkPtsWaiter [] [] [] 0 0 0 0 false false false 0 false.

Inductive reachable : PtsWaiter -> Prop :=
| reachable_fresh w : fresh w -> reachable w
| reachable_step w op : reachable w -> reachable (state (perform op w)).

(** ** What a flush hands to the applier *)

(** The applier call made for the entry [i] of [_queue]. *)
Definition entry_event (w : PtsWaiter) (i : Z * PtsSkippedQueue) : Event :=
  match snd i with
  | SkippedUpdate => ApplyUpdate (QMap.value MTPUpdate_default (fst i) (_updateQueue w))
  | SkippedUpdates => ApplyUpdates (QMap.value MTPUpdates_default (fst i) (_updatesQueue w))
  end.

(** The timer call of [checkForWaiting] in a state where
    [_waitingForSkipped] has just been cleared. *)
Definition cancel_events (shortPoll : bool) : list Event :=
  if negb shortPoll && main then [StartTimer (-1)] else [].

(** The timer call of [setWaitingForSkipped(channel, ms)] for [ms >= 0]. *)
Definition timer_events (ms : Z) : list Event :=
  if main then [StartTimer ms] else [].

Definition cleared (w : PtsWaiter) : PtsWaiter :=
  set_applySkippedLevel 0
    (set_updatesQueue QMap.empty (set_updateQueue QMap.empty (set_queue QMap.empty w))).

(** ** The steps of an ingest, named *)

(** The guard of [updated]: a request is in flight or a flush is running. *)
Definition busy (w : PtsWaiter) : bool :=
  _requesting w || negb (_applySkippedLevel w =? 0).

(** The duplicate test of [updated]. *)
Definition is_duplicate (w : PtsWaiter) (pts count : Z) : bool :=
  (pts <=? _good w) && (0 <? count).

(** The first two assignments of [check] in an initialized state. *)
Definition advanced (pts count : Z) (w : PtsWaiter) : PtsWaiter :=
  set_count (int32 (_count w + count)) (set_last (Z.max (_last w) pts) w).

(** The key [ptsKey] makes in the state [w]. *)
Definition next_key (pts : Z) (w : PtsWaiter) : Z :=
  packKey pts (uint32 (_skippedKey w + 1)).

(** [_updateQueue.insert(ptsKey(SkippedUpdate, pts), update)] *)
Definition buffered_update (pts : Z) (update : MTPUpdate) (w : PtsWaiter) : PtsWaiter :=
  set_updateQueue (QMap.insert (next_key pts w) update (_updateQueue w))
    (set_queue (QMap.insert (next_key pts w) SkippedUpdate (_queue w))
       (set_skippedKey (uint32 (_skippedKey w + 1)) w)).

(** [_updatesQueue.insert(ptsKey(SkippedUpdates, pts), updates)] *)
Definition buffered_updates (pts : Z) (updates : MTPUpdates) (w : PtsWaiter) : PtsWaiter :=
  set_updatesQueue (QMap.insert (next_key pts w) updates (_updatesQueue w))
    (set_queue (QMap.insert (next_key pts w) SkippedUpdates (_queue w))
       (set_skippedKey (uint32 (_skippedKey w + 1)) w)).

(** ** Invariants of reachable states *)

(** The two halves of a queue key. *)
Definition key_pts (key : Z) : Z := key / 2 ^ 32.
Definition key_seq (key : Z) : Z := key mod 2 ^ 32.

(** Every key of the queue was made from a counter value already used. *)
Definition keys_below (w : PtsWaiter) : Prop :=
  Forall (fun k => 0 < key_seq k <= _skippedKey w) (QMap.keys (_queue w)).



(** Baseline invariant: the watermark never passes the highest pts seen. *)
Definition good_le_last (w : PtsWaiter) : Prop :=
  inited w = true -> _good w <= _last w.


(** The operations that do not cancel the wait for skipped updates from
    outside the waiter. *)
Definition keeps_gap_flag (op : Op) : bool :=
  match op with
  | OpSetWaitingForSkipped ms => 0 <=? ms
  | _ => true
  end.

(** *** Small steps

    Every operation is a short chain of the steps below.  [strict] leaves
    out the cancellation of the wait for skipped updates by the caller;
    the number counts the insertions into the queue. *)
Inductive prim (strict : bool) (w : PtsWaiter) : nat -> PtsWaiter -> Prop :=
| prim_check pts count :
    prim strict w 0 (state (check pts count w))
| prim_buffer_update pts update :
    _waitingForSkipped w = true ->
    prim strict w 1 (buffered_update pts update w)
| prim_buffer_updates pts updates :
    _waitingForSkipped w = true ->
    prim strict w 1 (buffered_updates pts updates w)
| prim_flush :
    prim strict w 0 (state (applySkippedUpdates w))
| prim_clear :
    prim strict w 0 (cleared w)
| prim_skipped ms :
    (strict = true -> 0 <= ms) ->
    prim strict w 0 (state (setWaitingForSkipped ms w))
| prim_shortPoll ms :
    prim strict w 0 (state (setWaitingForShortPoll ms w)).

Inductive prims (strict : bool) : nat -> PtsWaiter -> PtsWaiter -> Prop :=
| prims_refl w : prims strict 0 w w
| prims_step c n w w1 w2 :
    prim strict w c w1 -> prims strict n w1 w2 -> prims strict (c + n) w w2.

(** At most one insertion per operation. *)
Definition small (strict : bool) (w w' : PtsWaiter) : Prop :=
  exists n, (n <= 1)%nat /\ prims strict n w w'.

(** The counter and the keys, as long as the counter has room. *)
Definition counter_ok (bound : Z) (w : PtsWaiter) : Prop :=
  0 <= _skippedKey w <= bound /\ keys_below w.

(** The payloads of the [applyUpdateNoPtsCheck] calls of a log, in order. *)
Fixpoint applied_updates (l : list Event) : list MTPUpdate :=
  match l with
  | [] => []
  | ApplyUpdate update :: l' => update :: applied_updates l'
  | _ :: l' => applied_updates l'
  end.

(** *** The contract of the caller

    [count] is never negative, the first pts is not negative, and the
    signed addition [_count += count] does not overflow (which would be
    undefined).  The conditions bear on the calls that get as far as
    [check]. *)
Definition check_ok (pts count : Z) (w : PtsWaiter) : Prop :=
  0 <= count /\
  (if inited w then _count w + count <= INT32_MAX else 0 <= pts <= INT32_MAX).

Definition ingest_ok (pts count : Z) (w : PtsWaiter) : Prop :=
  busy w = false -> is_duplicate w pts count = false -> check_ok pts count w.

Definition op_ok (op : Op) (w : PtsWaiter) : Prop :=
  match op with
  | OpUpdatedUpdates pts count _ | OpUpdatedUpdate pts count _
  | OpUpdated pts count
  | OpUpdateAndApplyUpdates pts count _ | OpUpdateAndApplyUpdate pts count _
  | OpUpdateAndApply pts count => ingest_ok pts count w
  | _ => True
  end.

Fixpoint run_ok (ops : list Op) (w : PtsWaiter) : Prop :=
  match ops with
  | [] => True
  | op :: ops' => op_ok op w /\ run_ok ops' (state (perform op w))
  end.

(** Under the contract the counter stays within twice the accumulated
    count, less one while something is queued. *)
Definition slack (w : PtsWaiter) : Z :=
  if QMap.isEmpty (_queue w) then 0 else 1.

Definition counter_room (w : PtsWaiter) : Prop :=
  0 <= _skippedKey w /\ keys_below w /\
  (if inited w
   then 0 <= _count w <= INT32_MAX /\ _skippedKey w + slack w <= 2 * _count w
   else _skippedKey w = 0 /\ _queue w = []).

(** *** Logs *)

(** A log entry that is a call to the timer, not to the applier. *)
Definition is_timer (e : Event) : bool :=
  match e with StartTimer _ => true | _ => false end.

(** The payloads of the [applyUpdatesNoPtsCheck] calls of a log, in order. *)
Fixpoint applied_batches (l : list Event) : list MTPUpdates :=
  match l with
  | [] => []
  | ApplyUpdates updates :: l' => updates :: applied_batches l'
  | _ :: l' => applied_batches l'
  end.

(** The watermark and the highest pts of [w'] are not behind those of
    [w], and [w'] is still initialized. *)
Definition not_behind (w w' : PtsWaiter) : Prop :=
  inited w' = true /\ _good w <= _good w' /\ _last w <= _last w'.

(** No request in flight and no flush running. *)
Definition idle (w : PtsWaiter) : Prop :=
  _requesting w = false /\ _applySkippedLevel w = 0.

(** *** The queue and the two maps of payloads *)

Definition is_kind (kind : PtsSkippedQueue) (i : Z * PtsSkippedQueue) : bool :=
  match kind, snd i with
  | SkippedUpdate, SkippedUpdate | SkippedUpdates, SkippedUpdates => true
  | _, _ => false
  end.

(** The keys of the entries of [_queue] of one kind, in queue order. *)
Definition queue_keys (kind : PtsSkippedQueue) (w : PtsWaiter) : list Z :=
  QMap.keys (filter (is_kind kind) (_queue w)).

(** The three maps are in key order, and each map of payloads has exactly
    the keys of the queue entries of its kind. *)
Definition stored_ok (w : PtsWaiter) : Prop :=
  QMap.sorted (_queue w) /\
  QMap.sorted (_updateQueue w) /\
  QMap.sorted (_updatesQueue w) /\
  queue_keys SkippedUpdate w = QMap.keys (_updateQueue w) /\
  queue_keys SkippedUpdates w = QMap.keys (_updatesQueue w).

(** [QMap.insert] on the keys alone. *)
Fixpoint kins (k : Z) (l : list Z) : list Z :=
  match l with
  | [] => [k]
  | k' :: l' =>
      if k <? k' then k :: l
      else if k =? k' then k :: l'
      else k' :: kins k l'
  end.

(** A property of waiters that every step of the operations keeps, the
    insertions under the condition that the counter has room. *)
Definition closed (Q : PtsWaiter -> Prop) : Prop :=
  (forall w pts count, Q w -> Q (state (check pts count w))) /\
  (forall w pts update,
     Q w -> keys_below w -> 0 <= _skippedKey w -> _skippedKey w + 1 < 2 ^ 32 ->
     Q (buffered_update pts update w)) /\
  (forall w pts updates,
     Q w -> keys_below w -> 0 <= _skippedKey w -> _skippedKey w + 1 < 2 ^ 32 ->
     Q (buffered_updates pts updates w)) /\
  (forall w b, Q w -> Q (set_waitingForSkipped b w)) /\
  (forall w b, Q w -> Q (set_waitingForShortPoll b w)) /\
  (forall w, Q w -> Q (cleared w)).

(** ** Scenarios *)

(** Baseline at 100, a jump to 110 that is buffered, then the missing
    update, delivered through [updated]. *)
Definition gap_closed (a b c : MTPUpdate) : list Op :=
  [OpUpdatedUpdate 100 5 a; OpUpdatedUpdate 110 5 b; OpUpdatedUpdate 105 5 c].

(** The same, with the missing update delivered through
    [updateAndApply]: it closes the gap and triggers the flush. *)
Definition gap_then_fill (a b c : MTPUpdate) : list Op :=
  [OpUpdateAndApplyUpdate 100 5 a; OpUpdateAndApplyUpdate 110 5 b;
   OpUpdateAndApplyUpdate 105 5 c].

(** A buffered update, then the caller starts waiting for a short poll. *)
Definition gap_and_poll (a b : MTPUpdate) : list Op :=
  [OpUpdatedUpdate 100 5 a; OpUpdatedUpdate 110 5 b; OpSetWaitingForShortPoll 1000].


(** Two buffered updates with the same pts. *)
Definition tie (a b c : MTPUpdate) : list Op :=
  [OpUpdatedUpdate 100 5 a; OpUpdatedUpdate 110 5 b; OpUpdatedUpdate 110 3 c].

(** A waiter whose baseline is 110, with a request for the difference in
    flight ([_requesting] set) and no flush running. *)
Definition resyncing : PtsWaiter :=
  mkPtsWaiter [] [] [] 110 110 110 0 true false false 0 true.

(** A waiter whose baseline is 110, in the middle of a flush. *)
Definition flushing : PtsWaiter :=
  mkPtsWaiter [] [] [] 110 110 110 1 false false false 0 true.

(** A waiter whose baseline is 100, with nothing buffered. *)
Definition settled : PtsWaiter :=
  mkPtsWaiter [] [] [] 100 100 100 0 false false false 0 true.

(** * Properties *)

(** ** Machine integers and queue keys *)

Lemma uint32_range z : 0 <= uint32 z < 2 ^ 32.
Proof. unfold uint32. apply Z.mod_pos_bound. lia. Qed.

Lemma uint32_small z : 0 <= z < 2 ^ 32 -> uint32 z = z.
Proof. intros H. unfold uint32. now apply Z.mod_small. Qed.

Lemma uint32_negative z : - 2 ^ 31 <= z < 0 -> uint32 z = z + 2 ^ 32.
Proof.
  intros H. unfold uint32.
  symmetry. apply (Z.mod_unique z (2 ^ 32) (-1)); lia.
Qed.

Lemma int32_small z : in_int32 z -> int32 z = z.
Proof.
  unfold in_int32, INT32_MIN, INT32_MAX, int32. intros H.
  rewrite Z.mod_small; lia.
Qed.

Lemma lor_shifted_low hi lo :
  0 <= lo < 2 ^ 32 -> Z.lor (hi * 2 ^ 32) lo = hi * 2 ^ 32 + lo.
Proof.
  intros Hlo.
  assert (Hland : Z.land (hi * 2 ^ 32) lo = 0).
  { apply Z.bits_inj'. intros n Hn.
    rewrite Z.land_spec, Z.bits_0.
    destruct (Z.lt_ge_cases n 32) as [Hlt | Hge].
    - rewrite <- Z.shiftl_mul_pow2 by lia.
      rewrite Z.shiftl_spec_low by lia. reflexivity.
    - assert (Z.testbit lo n = false) as ->.
      { destruct (Z.eq_dec lo 0) as [-> | Hnz]; [apply Z.bits_0 |].
        apply Z.bits_above_log2; [lia |].
        assert (Z.log2 lo < 32) by (apply Z.log2_lt_pow2; lia). lia. }
      apply andb_false_r. }
  rewrite <- Z.lxor_lor by exact Hland.
  symmetry. apply Z.add_nocarry_lxor. exact Hland.
Qed.

Lemma packKey_eq pts c :
  0 <= c < 2 ^ 32 -> packKey pts c = uint32 pts * 2 ^ 32 + c.
Proof.
  intros Hc. unfold packKey, uint64.
  pose proof (uint32_range pts) as Hp.
  rewrite (Z.mod_small (uint32 pts)) by lia.
  rewrite Z.shiftl_mul_pow2 by lia.
  rewrite Z.mod_small by nia.
  now apply lor_shifted_low.
Qed.

Lemma packKey_pts pts c : 0 <= c < 2 ^ 32 -> key_pts (packKey pts c) = uint32 pts.
Proof.
  intros Hc. rewrite packKey_eq by exact Hc. unfold key_pts.
  rewrite Z.add_comm, Z.div_add by lia. rewrite Z.div_small by lia. lia.
Qed.

Lemma packKey_seq pts c : 0 <= c < 2 ^ 32 -> key_seq (packKey pts c) = c.
Proof.
  intros Hc. rewrite packKey_eq by exact Hc. unfold key_seq.
  rewrite Z.add_comm, Z.mod_add by lia. now apply Z.mod_small.
Qed.

(** Keys compare first by the unsigned pts, then by the counter. *)
Lemma packKey_lt p1 c1 p2 c2 :
  0 <= c1 < 2 ^ 32 -> 0 <= c2 < 2 ^ 32 ->
  (packKey p1 c1 < packKey p2 c2 <->
   uint32 p1 < uint32 p2 \/ (uint32 p1 = uint32 p2 /\ c1 < c2)).
Proof.
  intros H1 H2. rewrite !packKey_eq by assumption.
  pose proof (uint32_range p1). pose proof (uint32_range p2). nia.
Qed.

(** ** The ordered map *)

Lemma insert_keys_In {V} k (v : V) m k' :
  In k' (QMap.keys (QMap.insert k v m)) <-> k' = k \/ In k' (QMap.keys m).
Proof.
  induction m as [| [k0 v0] m IH]; simpl.
  - intuition.
  - destruct (k <? k0) eqn:Hlt; [simpl; intuition |].
    destruct (k =? k0) eqn:Heq; simpl.
    + apply Z.eqb_eq in Heq. subst k0. intuition.
    + rewrite IH. intuition.
Qed.


Lemma insert_In_new {V} k (v : V) m : In (k, v) (QMap.insert k v m).
Proof.
  induction m as [| [k0 v0] m IH]; simpl; [now left |].
  destruct (k <? k0); [now left |].
  destruct (k =? k0); [now left | now right].
Qed.

Lemma insert_sorted {V} k (v : V) m :
  QMap.sorted m -> QMap.sorted (QMap.insert k v m).
Proof.
  unfold QMap.sorted.
  induction m as [| [k0 v0] m IH]; simpl; intros Hs.
  - repeat constructor.
  - inversion Hs as [| ? ? Hs' Hall]; subst.
    destruct (k <? k0) eqn:Hlt.
    + apply Z.ltb_lt in Hlt. simpl. constructor; [exact Hs |].
      constructor; [exact Hlt |].
      eapply Forall_impl; [| exact Hall]. simpl. intros; lia.
    + destruct (k =? k0) eqn:Heq.
      * apply Z.eqb_eq in Heq. subst k0. simpl. now constructor.
      * apply Z.ltb_ge in Hlt. apply Z.eqb_neq in Heq.
        simpl. constructor; [now apply IH |].
        apply Forall_forall. intros x Hx.
        apply (insert_keys_In k v m x) in Hx. destruct Hx as [-> | Hx]; [lia |].
        rewrite Forall_forall in Hall. now apply Hall.
Qed.

Lemma find_insert_same {V} k (v : V) m : QMap.find k (QMap.insert k v m) = Some v.
Proof.
  induction m as [| [k0 v0] m IH]; simpl.
  - now rewrite Z.eqb_refl.
  - destruct (k <? k0) eqn:Hlt; [simpl; now rewrite Z.eqb_refl |].
    destruct (k =? k0) eqn:Heq; simpl.
    + now rewrite Z.eqb_refl.
    + now rewrite Heq.
Qed.

Lemma find_insert_other {V} k (v : V) m k' :
  k' <> k -> QMap.find k' (QMap.insert k v m) = QMap.find k' m.
Proof.
  intros Hne. induction m as [| [k0 v0] m IH]; simpl.
  - apply Z.eqb_neq in Hne. now rewrite Hne.
  - destruct (k <? k0) eqn:Hlt.
    + simpl. apply Z.eqb_neq in Hne. now rewrite Hne.
    + destruct (k =? k0) eqn:Heq; simpl.
      * apply Z.eqb_eq in Heq. subst k0.
        apply Z.eqb_neq in Hne. now rewrite Hne.
      * now rewrite IH.
Qed.



(** ** The member functions, equation by equation *)

Ltac unfold_m :=
  unfold bind, ret, get, modify, emit, when, ptsWaiterStartTimerFor,
    applyUpdateNoPtsCheck, applyUpdatesNoPtsCheck.

Lemma checkForWaiting_eq w :
  checkForWaiting w =
  (tt, w,
   if negb (_waitingForSkipped w) && negb (_waitingForShortPoll w) && main
   then [StartTimer (-1)] else []).
Proof.
  unfold checkForWaiting. unfold_m.
  destruct (negb (_waitingForSkipped w) && negb (_waitingForShortPoll w) && main);
    reflexivity.
Qed.

Lemma setWaitingForSkipped_arm ms w :
  0 <= ms ->
  setWaitingForSkipped ms w = (tt, set_waitingForSkipped true w, timer_events ms).
Proof.
  intros Hms. unfold setWaitingForSkipped, timer_events.
  apply Z.leb_le in Hms. rewrite Hms. unfold_m. destruct main; reflexivity.
Qed.

Lemma setWaitingForSkipped_cancel ms w :
  ms < 0 ->
  setWaitingForSkipped ms w =
  (tt, set_waitingForSkipped false w, cancel_events (_waitingForShortPoll w)).
Proof.
  intros Hms. unfold setWaitingForSkipped, cancel_events.
  apply Z.leb_gt in Hms. rewrite Hms. unfold bind, modify.
  rewrite checkForWaiting_eq. simpl.
  destruct (negb (_waitingForShortPoll w) && main); reflexivity.
Qed.

Lemma setWaitingForShortPoll_arm ms w :
  0 <= ms ->
  setWaitingForShortPoll ms w = (tt, set_waitingForShortPoll true w, timer_events ms).
Proof.
  intros Hms. unfold setWaitingForShortPoll, timer_events.
  apply Z.leb_le in Hms. rewrite Hms. unfold_m. destruct main; reflexivity.
Qed.

Lemma setWaitingForShortPoll_cancel ms w :
  ms < 0 ->
  setWaitingForShortPoll ms w =
  (tt, set_waitingForShortPoll false w,
   if negb (_waitingForSkipped w) && main then [StartTimer (-1)] else []).
Proof.
  intros Hms. unfold setWaitingForShortPoll.
  apply Z.leb_gt in Hms. rewrite Hms. unfold bind, modify.
  rewrite checkForWaiting_eq. simpl.
  destruct (negb (_waitingForSkipped w)); simpl; destruct main; reflexivity.
Qed.

Lemma clearSkippedUpdates_eq w : clearSkippedUpdates w = (tt, cleared w, []).
Proof. reflexivity. Qed.

Lemma applySkippedLoop_eq q w :
  applySkippedLoop q w = (tt, w, map (entry_event w) q).
Proof.
  induction q as [| [k kind] q IH]; [reflexivity |].
  simpl. unfold bind at 1. unfold applySkipped1, entry_event.
  unfold_m. simpl. destruct kind; simpl; rewrite IH; reflexivity.
Qed.

Lemma applySkippedUpdates_idle w :
  _waitingForSkipped w = false -> applySkippedUpdates w = (tt, w, []).
Proof.
  intros H. unfold applySkippedUpdates. unfold bind at 1. unfold get.
  rewrite H. reflexivity.
Qed.

Lemma applySkippedUpdates_flush w :
  _waitingForSkipped w = true ->
  applySkippedUpdates w =
  (tt,
   (if QMap.isEmpty (_queue w) then set_waitingForSkipped false w
    else cleared (set_waitingForSkipped false w)),
   cancel_events (_waitingForShortPoll w) ++
   map (entry_event w) (_queue w)).
Proof.
  intros H. destruct w as [q uq usq g l c lv rq ws wp sk ini].
  simpl in H. subst ws.
  unfold applySkippedUpdates, setWaitingForSkipped, checkForWaiting,
    clearSkippedUpdates, cancel_events, cleared.
  unfold_m. cbn -[int32 Z.add Z.sub applySkippedLoop].
  destruct (negb wp && main); destruct q as [| i q];
    cbn -[int32 Z.add Z.sub applySkippedLoop];
    rewrite ?applySkippedLoop_eq; cbn; rewrite ?app_nil_r; reflexivity.
Qed.

Lemma bind_run {A B} (m : M A) (k : A -> M B) w :
  bind m k w =
  (result (k (result (m w)) (state (m w))),
   state (k (result (m w)) (state (m w))),
   events (m w) ++ events (k (result (m w)) (state (m w)))).
Proof.
  unfold bind, result, state, events.
  destruct (m w) as [[a w1] l1]. simpl.
  destruct (k a w1) as [[b w2] l2]. reflexivity.
Qed.

Lemma triple_eta {A} (r : A * PtsWaiter * list Event) :
  r = (result r, state r, events r).
Proof. destruct r as [[a w] l]. reflexivity. Qed.

(** *** [check] *)

Lemma check_uninit pts count w :
  inited w = false ->
  check pts count w =
  (true, set_initialized true (set_good pts (set_last pts (set_count pts w))), []).
Proof.
  intros H. unfold check, init. unfold_m. rewrite H. reflexivity.
Qed.

Lemma check_in_sequence pts count w :
  inited w = true ->
  Z.max (_last w) pts = int32 (_count w + count) ->
  check pts count w =
  (true, set_good (Z.max (_last w) pts) (advanced pts count w), []).
Proof.
  intros H Heq. unfold check, advanced. unfold_m. rewrite H.
  cbn -[int32 Z.add Z.max]. apply Z.eqb_eq in Heq. rewrite Heq. reflexivity.
Qed.

Lemma check_short pts count w :
  inited w = true ->
  Z.max (_last w) pts < int32 (_count w + count) ->
  check pts count w =
  (count =? 0, set_waitingForSkipped true (advanced pts count w), timer_events 1).
Proof.
  intros H Hlt. unfold check, advanced, setWaitingForSkipped, timer_events.
  unfold_m. rewrite H. cbn -[int32 Z.add Z.max].
  assert (Hne : (Z.max (_last w) pts =? int32 (_count w + count)) = false)
    by (apply Z.eqb_neq; lia).
  rewrite Hne. apply Z.ltb_lt in Hlt. rewrite Hlt.
  destruct main; cbn; reflexivity.
Qed.

Lemma check_long pts count w :
  inited w = true ->
  int32 (_count w + count) < Z.max (_last w) pts ->
  check pts count w =
  (count =? 0, set_waitingForSkipped true (advanced pts count w),
   timer_events WaitForSkippedTimeout).
Proof.
  intros H Hlt. unfold check, advanced, setWaitingForSkipped, timer_events.
  unfold_m. rewrite H. cbn -[int32 Z.add Z.max].
  assert (Hne : (Z.max (_last w) pts =? int32 (_count w + count)) = false)
    by (apply Z.eqb_neq; lia).
  rewrite Hne.
  assert (Hge : (Z.max (_last w) pts <? int32 (_count w + count)) = false)
    by (apply Z.ltb_ge; lia).
  rewrite Hge.
  pose proof WaitForSkippedTimeout_nonneg as Hw. apply Z.leb_le in Hw. rewrite Hw.
  destruct main; cbn; reflexivity.
Qed.

(** The state [check] leaves is one of three. *)
Lemma check_cases pts count w :
  let r := check pts count w in
  (result r = true /\
   state r = set_initialized true (set_good pts (set_last pts (set_count pts w)))) \/
  (result r = true /\ inited w = true /\
   state r = set_good (Z.max (_last w) pts) (advanced pts count w)) \/
  (result r = (count =? 0) /\ inited w = true /\
   state r = set_waitingForSkipped true (advanced pts count w)).
Proof.
  cbv zeta. destruct (inited w) eqn:Hi.
  - destruct (Z.lt_trichotomy (Z.max (_last w) pts) (int32 (_count w + count)))
      as [Hlt | [Heq | Hgt]].
    + right; right. rewrite check_short by assumption. auto.
    + right; left. rewrite check_in_sequence by assumption. auto.
    + right; right. rewrite check_long by assumption. auto.
  - left. rewrite check_uninit by assumption. auto.
Qed.

(** *** [updated] *)

Ltac enter_updated Hbusy :=
  unfold bind at 1; unfold get at 1;
  unfold busy in Hbusy; rewrite Hbusy; cbv iota.

Lemma updated_updates_busy pts count updates w :
  busy w = true -> updated_updates pts count updates w = (true, w, []).
Proof. intros Hb. unfold updated_updates. enter_updated Hb. reflexivity. Qed.

Lemma updated_update_busy pts count update w :
  busy w = true -> updated_update pts count update w = (true, w, []).
Proof. intros Hb. unfold updated_update. enter_updated Hb. reflexivity. Qed.

Lemma updated_busy pts count w :
  busy w = true -> updated pts count w = (true, w, []).
Proof. intros Hb. unfold updated. enter_updated Hb. reflexivity. Qed.

Lemma updated_updates_duplicate pts count updates w :
  busy w = false -> is_duplicate w pts count = true ->
  updated_updates pts count updates w = (false, w, []).
Proof.
  intros Hb Hd. unfold updated_updates. enter_updated Hb.
  unfold is_duplicate in Hd. rewrite Hd. reflexivity.
Qed.

Lemma updated_update_duplicate pts count update w :
  busy w = false -> is_duplicate w pts count = true ->
  updated_update pts count update w = (false, w, []).
Proof.
  intros Hb Hd. unfold updated_update. enter_updated Hb.
  unfold is_duplicate in Hd. rewrite Hd. reflexivity.
Qed.

Lemma updated_duplicate pts count w :
  busy w = false -> is_duplicate w pts count = true ->
  updated pts count w = (false, w, []).
Proof.
  intros Hb Hd. unfold updated. enter_updated Hb.
  unfold is_duplicate in Hd. rewrite Hd. reflexivity.
Qed.

Lemma updated_updates_checked pts count updates w :
  busy w = false -> is_duplicate w pts count = false ->
  updated_updates pts count updates w =
  (result (check pts count w),
   (if result (check pts count w) then state (check pts count w)
    else buffered_updates pts updates (state (check pts count w))),
   events (check pts count w)).
Proof.
  intros Hb Hd. unfold updated_updates. enter_updated Hb.
  unfold is_duplicate in Hd. rewrite Hd. cbv iota.
  unfold bind at 1. destruct (check pts count w) as [[ok w1] l1].
  cbn [result state events fst snd].
  destruct ok; cbn; rewrite ?app_nil_r; reflexivity.
Qed.

Lemma updated_update_checked pts count update w :
  busy w = false -> is_duplicate w pts count = false ->
  updated_update pts count update w =
  (result (check pts count w),
   (if result (check pts count w) then state (check pts count w)
    else buffered_update pts update (state (check pts count w))),
   events (check pts count w)).
Proof.
  intros Hb Hd. unfold updated_update. enter_updated Hb.
  unfold is_duplicate in Hd. rewrite Hd. cbv iota.
  unfold bind at 1. destruct (check pts count w) as [[ok w1] l1].
  cbn [result state events fst snd].
  destruct ok; cbn; rewrite ?app_nil_r; reflexivity.
Qed.

Lemma updated_checked pts count w :
  busy w = false -> is_duplicate w pts count = false ->
  updated pts count w = check pts count w.
Proof.
  intros Hb Hd. unfold updated. enter_updated Hb.
  unfold is_duplicate in Hd. rewrite Hd. cbv iota.
  destruct (check pts count w) as [[ok w1] l1]. reflexivity.
Qed.

(** *** [updateAndApply] *)

Lemma updateAndApply_updates_eq pts count updates w :
  updateAndApply_updates pts count updates w =
  let r := updated_updates pts count updates w in
  if result r then
    if negb (_waitingForSkipped (state r)) || QMap.isEmpty (_queue (state r)) then
      (true, state r, events r ++ [ApplyUpdates updates])
    else
      let f := applySkippedUpdates (buffered_updates pts updates (state r)) in
      (true, state f, events r ++ events f)
  else (false, state r, events r).
Proof.
  unfold updateAndApply_updates. unfold bind at 1. cbv zeta.
  destruct (updated_updates pts count updates w) as [[ok w1] l1].
  cbn [result state events fst snd].
  destruct ok; cbn [negb]; [| cbn; now rewrite app_nil_r].
  unfold bind at 1. unfold get at 1. unfold bind at 1.
  destruct (negb (_waitingForSkipped w1) || QMap.isEmpty (_queue w1)).
  - cbn. reflexivity.
  - unfold ptsKey. unfold_m.
    cbn -[applySkippedUpdates int32 Z.add uint32 packKey QMap.insert].
    fold (next_key pts w1).
    change (set_updatesQueue _ _) with (buffered_updates pts updates w1).
    destruct (applySkippedUpdates (buffered_updates pts updates w1)) as [[u w2] l2].
    cbn. now rewrite app_nil_r.
Qed.

Lemma updateAndApply_update_eq pts count update w :
  updateAndApply_update pts count update w =
  let r := updated_update pts count update w in
  if result r then
    if negb (_waitingForSkipped (state r)) || QMap.isEmpty (_queue (state r)) then
      (true, state r, events r ++ [ApplyUpdate update])
    else
      let f := applySkippedUpdates (buffered_update pts update (state r)) in
      (true, state f, events r ++ events f)
  else (false, state r, events r).
Proof.
  unfold updateAndApply_update. unfold bind at 1. cbv zeta.
  destruct (updated_update pts count update w) as [[ok w1] l1].
  cbn [result state events fst snd].
  destruct ok; cbn [negb]; [| cbn; now rewrite app_nil_r].
  unfold bind at 1. unfold get at 1. unfold bind at 1.
  destruct (negb (_waitingForSkipped w1) || QMap.isEmpty (_queue w1)).
  - cbn. reflexivity.
  - unfold ptsKey. unfold_m.
    cbn -[applySkippedUpdates int32 Z.add uint32 packKey QMap.insert].
    fold (next_key pts w1).
    change (set_updateQueue _ _) with (buffered_update pts update w1).
    destruct (applySkippedUpdates (buffered_update pts update w1)) as [[u w2] l2].
    cbn. now rewrite app_nil_r.
Qed.

Lemma updateAndApply_eq pts count w :
  updateAndApply pts count w =
  let r := updated pts count w in
  if result r then
    let f := applySkippedUpdates (state r) in
    (true, state f, events r ++ events f)
  else (false, state r, events r).
Proof.
  unfold updateAndApply. unfold bind at 1. cbv zeta.
  destruct (updated pts count w) as [[ok w1] l1].
  cbn [result state events fst snd].
  destruct ok; cbn [negb]; [| cbn; now rewrite app_nil_r].
  unfold bind at 1.
  destruct (applySkippedUpdates w1) as [[u w2] l2].
  cbn. now rewrite app_nil_r.
Qed.

(** ** Clearing the buffered state *)

(** C8 (amended).  [clearSkippedUpdates] empties the pending queue (the
    three maps that hold it) and sets the re-entrancy counter
    [_applySkippedLevel] to zero.  It makes no call to the outside, and
    every other member is left as it was: the two waiting flags
    [_waitingForSkipped] and [_waitingForShortPoll] keep their values, and
    so do [_good], [_last], [_count], [_requesting], the insertion counter
    and the baseline flag. *)
Theorem clearSkippedUpdates_frame w :
  let r := clearSkippedUpdates w in
  events r = [] /\
  _queue (state r) = [] /\
  _updateQueue (state r) = [] /\
  _updatesQueue (state r) = [] /\
  _applySkippedLevel (state r) = 0 /\
  _waitingForSkipped (state r) = _waitingForSkipped w /\
  _waitingForShortPoll (state r) = _waitingForShortPoll w /\
  _good (state r) = _good w /\
  _last (state r) = _last w /\
  _count (state r) = _count w /\
  _requesting (state r) = _requesting w /\
  _skippedKey (state r) = _skippedKey w /\
  initialized (state r) = initialized w.
Proof.
  cbv zeta. rewrite clearSkippedUpdates_eq.
  unfold events, state, cleared. simpl. repeat split; reflexivity.
Qed.

(** ** The two reasons to wait and the flush *)

(** C2 (amended).  [applySkippedUpdates] does nothing unless
    [_waitingForSkipped] is set.  When it is set, the flush clears it,
    re-derives whether a reason to wait remains - the timer service is sent
    the cancel value -1 exactly when [_waitingForShortPoll] is clear too
    and [App::main()] exists - and then hands every queued entry to the
    applier and clears the queue, whether or not [_waitingForShortPoll] is
    still set; that flag is not changed by the flush.  Cancelling one
    reason through [setWaitingForSkipped(-1)] or
    [setWaitingForShortPoll(-1)] clears that flag only and sends -1 to the
    timer exactly when the other flag is clear and [App::main()] exists;
    neither call flushes. *)
Theorem applySkippedUpdates_guard w :
  applySkippedUpdates w =
    (if _waitingForSkipped w then
       (tt,
        (if QMap.isEmpty (_queue w) then set_waitingForSkipped false w
         else cleared (set_waitingForSkipped false w)),
        cancel_events (_waitingForShortPoll w) ++ map (entry_event w) (_queue w))
     else (tt, w, [])) /\
  _waitingForShortPoll (state (applySkippedUpdates w)) = _waitingForShortPoll w /\
  setWaitingForSkipped (-1) w =
    (tt, set_waitingForSkipped false w, cancel_events (_waitingForShortPoll w)) /\
  setWaitingForShortPoll (-1) w =
    (tt, set_waitingForShortPoll false w, cancel_events (_waitingForSkipped w)) /\
  (forall other, In (StartTimer (-1)) (cancel_events other) <->
                 other = false /\ main = true).
Proof.
  assert (Hflush : applySkippedUpdates w =
    (if _waitingForSkipped w then
       (tt,
        (if QMap.isEmpty (_queue w) then set_waitingForSkipped false w
         else cleared (set_waitingForSkipped false w)),
        cancel_events (_waitingForShortPoll w) ++ map (entry_event w) (_queue w))
     else (tt, w, []))).
  { destruct (_waitingForSkipped w) eqn:Hw.
    - now apply applySkippedUpdates_flush.
    - now apply applySkippedUpdates_idle. }
  split; [exact Hflush |]. split.
  { rewrite Hflush. destruct (_waitingForSkipped w); [| reflexivity].
    destruct (QMap.isEmpty (_queue w)); reflexivity. }
  split; [apply setWaitingForSkipped_cancel; lia |]. split.
  { rewrite setWaitingForShortPoll_cancel by lia. reflexivity. }
  intros other. unfold cancel_events.
  destruct other, main; simpl; intuition congruence.
Qed.

(** ** The gap check *)

(** C5.  In an initialized state [check] sets [_last] to the greater of
    [_last] and [pts] and adds [count] to [_count] (an [int32] addition:
    the exact sum whenever that is representable).  If the two are then
    equal, [_good] becomes [_last], the result is true (in sequence) and no
    timer is started.  If [_last] is below [_count] the timer is started
    with 1 ms, if it is above with [WaitForSkippedTimeout]; in both cases
    [_waitingForSkipped] is set, [_good] is kept, and the result is false
    (a gap: the caller buffers the update) when [count] is positive and
    true (applied at once) when [count] is zero. *)
Theorem check_initialized pts count w :
  inited w = true ->
  let r := check pts count w in
  let last' := Z.max (_last w) pts in
  let count' := int32 (_count w + count) in
  _last (state r) = last' /\
  _count (state r) = count' /\
  (in_int32 (_count w + count) -> count' = _count w + count) /\
  (last' = count' ->
     result r = true /\ _good (state r) = last' /\ events r = [] /\
     _waitingForSkipped (state r) = _waitingForSkipped w) /\
  (last' < count' ->
     events r = timer_events 1 /\ _waitingForSkipped (state r) = true /\
     _good (state r) = _good w /\
     (0 < count -> result r = false) /\ (count = 0 -> result r = true)) /\
  (count' < last' ->
     events r = timer_events WaitForSkippedTimeout /\
     _waitingForSkipped (state r) = true /\
     _good (state r) = _good w /\
     (0 < count -> result r = false) /\ (count = 0 -> result r = true)).
Proof.
  intros Hi. cbv zeta.
  assert (Hres : forall c : Z, (0 < c -> (c =? 0) = false) /\ (c = 0 -> (c =? 0) = true)).
  { intros c. split; intros H; [apply Z.eqb_neq; lia | now apply Z.eqb_eq]. }
  destruct (Z.lt_trichotomy (Z.max (_last w) pts) (int32 (_count w + count)))
    as [Hlt | [Heq | Hgt]].
  - rewrite check_short by assumption. unfold result, state, events. simpl.
    repeat split; try reflexivity; try lia; try apply Hres;
      try (intros; now apply int32_small).
  - rewrite check_in_sequence by assumption. unfold result, state, events. simpl.
    repeat split; try reflexivity; try lia; try (intros; now apply int32_small).
  - rewrite check_long by assumption. unfold result, state, events. simpl.
    repeat split; try reflexivity; try lia; try apply Hres;
      try (intros; now apply int32_small).
Qed.

(** ** Duplicates *)

Lemma idle_not_busy w :
  _requesting w = false -> _applySkippedLevel w = 0 -> busy w = false.
Proof. intros Hr Hl. unfold busy. rewrite Hr, Hl. reflexivity. Qed.

Lemma duplicate_test w pts count :
  pts <= _good w -> 0 < count -> is_duplicate w pts count = true.
Proof.
  intros Hp Hc. unfold is_duplicate.
  apply andb_true_intro. split; [now apply Z.leb_le | now apply Z.ltb_lt].
Qed.

(** C4 (amended).  When no request is in flight ([_requesting] clear) and
    no flush is running ([_applySkippedLevel] zero), an update with
    [pts <= _good] and [count > 0] is discarded: each overload of [updated]
    and of [updateAndApply] returns false, calls neither the applier nor
    the timer, and leaves the whole waiter - [_last], [_count], [_good],
    the pending queue and everything else - unchanged. *)
Theorem duplicate_discarded pts count w :
  _requesting w = false ->
  _applySkippedLevel w = 0 ->
  pts <= _good w ->
  0 < count ->
  (forall updates, updated_updates pts count updates w = (false, w, [])) /\
  (forall update, updated_update pts count update w = (false, w, [])) /\
  updated pts count w = (false, w, []) /\
  (forall updates, updateAndApply_updates pts count updates w = (false, w, [])) /\
  (forall update, updateAndApply_update pts count update w = (false, w, [])) /\
  updateAndApply pts count w = (false, w, []).
Proof.
  intros Hr Hl Hp Hc.
  pose proof (idle_not_busy w Hr Hl) as Hb.
  pose proof (duplicate_test w pts count Hp Hc) as Hd.
  repeat split; intros.
  - now apply updated_updates_duplicate.
  - now apply updated_update_duplicate.
  - now apply updated_duplicate.
  - rewrite updateAndApply_updates_eq, updated_updates_duplicate by assumption.
    reflexivity.
  - rewrite updateAndApply_update_eq, updated_update_duplicate by assumption.
    reflexivity.
  - rewrite updateAndApply_eq, updated_duplicate by assumption. reflexivity.
Qed.

(** ** Ingest during a flush or a request *)

Lemma busy_intro w :
  _requesting w = true \/ 0 < _applySkippedLevel w -> busy w = true.
Proof.
  intros [Hr | Hl]; unfold busy.
  - rewrite Hr. reflexivity.
  - assert ((_applySkippedLevel w =? 0) = false) as -> by (apply Z.eqb_neq; lia).
    apply orb_true_r.
Qed.

Lemma flush_applies_buffered_update pts update w :
  _waitingForSkipped w = true ->
  In (ApplyUpdate update)
     (events (applySkippedUpdates (buffered_update pts update w))).
Proof.
  intros Hw. rewrite applySkippedUpdates_flush by exact Hw.
  unfold events. cbn [snd]. apply in_or_app. right.
  apply in_map_iff. exists (next_key pts w, SkippedUpdate). split.
  - unfold entry_event, QMap.value. cbn [fst snd buffered_update _updateQueue
      set_updateQueue]. now rewrite find_insert_same.
  - cbn [buffered_update _queue set_updateQueue set_queue]. apply insert_In_new.
Qed.

Lemma flush_applies_buffered_updates pts updates w :
  _waitingForSkipped w = true ->
  In (ApplyUpdates updates)
     (events (applySkippedUpdates (buffered_updates pts updates w))).
Proof.
  intros Hw. rewrite applySkippedUpdates_flush by exact Hw.
  unfold events. cbn [snd]. apply in_or_app. right.
  apply in_map_iff. exists (next_key pts w, SkippedUpdates). split.
  - unfold entry_event, QMap.value. cbn [fst snd buffered_updates _updatesQueue
      set_updatesQueue]. now rewrite find_insert_same.
  - cbn [buffered_updates _queue set_updatesQueue set_queue]. apply insert_In_new.
Qed.

(** C7.  While a request is in flight ([_requesting]) or a flush is running
    ([_applySkippedLevel] positive), every overload of [updated] returns
    true at once, for any [pts] and [count] - so also for [pts <= _good]
    with [count > 0]: [_good] is not consulted - makes no outside call and
    leaves the waiter as it was, [_last], [_count], [_good] and the pending
    queue included.  [updateAndApply] then returns true and hands the
    payload to the applier; with [_waitingForSkipped] clear, as it is
    during the loop of a flush, that call is all it does. *)
Theorem updated_while_busy pts count w :
  _requesting w = true \/ 0 < _applySkippedLevel w ->
  (forall updates, updated_updates pts count updates w = (true, w, [])) /\
  (forall update, updated_update pts count update w = (true, w, [])) /\
  updated pts count w = (true, w, []) /\
  (forall updates,
     result (updateAndApply_updates pts count updates w) = true /\
     In (ApplyUpdates updates) (events (updateAndApply_updates pts count updates w))) /\
  (forall update,
     result (updateAndApply_update pts count update w) = true /\
     In (ApplyUpdate update) (events (updateAndApply_update pts count update w))) /\
  (_waitingForSkipped w = false ->
     (forall updates,
        updateAndApply_updates pts count updates w = (true, w, [ApplyUpdates updates])) /\
     (forall update,
        updateAndApply_update pts count update w = (true, w, [ApplyUpdate update])) /\
     updateAndApply pts count w = (true, w, [])).
Proof.
  intros Hbusy. apply busy_intro in Hbusy.
  split; [intros; now apply updated_updates_busy |].
  split; [intros; now apply updated_update_busy |].
  split; [now apply updated_busy |].
  split; [| split].
  - intros updates. rewrite updateAndApply_updates_eq, updated_updates_busy by assumption.
    cbn [result state events fst snd].
    destruct (negb (_waitingForSkipped w) || QMap.isEmpty (_queue w)) eqn:Hc.
    + split; [reflexivity | simpl; auto].
    + apply orb_false_elim in Hc. destruct Hc as [Hc _].
      apply negb_false_iff in Hc. split; [reflexivity |].
      cbn [app]. now apply flush_applies_buffered_updates.
  - intros update. rewrite updateAndApply_update_eq, updated_update_busy by assumption.
    cbn [result state events fst snd].
    destruct (negb (_waitingForSkipped w) || QMap.isEmpty (_queue w)) eqn:Hc.
    + split; [reflexivity | simpl; auto].
    + apply orb_false_elim in Hc. destruct Hc as [Hc _].
      apply negb_false_iff in Hc. split; [reflexivity |].
      cbn [app]. now apply flush_applies_buffered_update.
  - intros Hw. repeat split; intros.
    + rewrite updateAndApply_updates_eq, updated_updates_busy by assumption.
      cbn [result state events fst snd]. rewrite Hw. reflexivity.
    + rewrite updateAndApply_update_eq, updated_update_busy by assumption.
      cbn [result state events fst snd]. rewrite Hw. reflexivity.
    + rewrite updateAndApply_eq, updated_busy by assumption.
      cbn [result state events fst snd].
      rewrite applySkippedUpdates_idle by exact Hw. reflexivity.
Qed.

(** ** The baseline *)

(** C10 (amended).  In a state that is not initialized the gap check
    [check] returns true for every [pts] and every [count], makes no
    outside call, sets [_good], [_last] and [_count] to [pts] and marks the
    state initialized, without looking at the values.  An ingest through
    [updated] reaches the gap check only when no request or flush is under
    way and the update is not taken for a duplicate, that is when
    [_good < pts] or [count <= 0]; then it returns true with that same
    state. *)
Theorem baseline_established pts count w :
  inited w = false ->
  let w' := set_initialized true (set_good pts (set_last pts (set_count pts w))) in
  check pts count w = (true, w', []) /\
  inited w' = true /\ _good w' = pts /\ _last w' = pts /\
  (_requesting w = false -> _applySkippedLevel w = 0 ->
   _good w < pts \/ count <= 0 ->
   (forall updates, updated_updates pts count updates w = (true, w', [])) /\
   (forall update, updated_update pts count update w = (true, w', [])) /\
   updated pts count w = (true, w', [])).
Proof.
  intros Hi. cbv zeta.
  split; [now apply check_uninit |].
  split; [reflexivity |]. split; [reflexivity |]. split; [reflexivity |].
  intros Hr Hl Hnd.
  pose proof (idle_not_busy w Hr Hl) as Hb.
  assert (Hd : is_duplicate w pts count = false).
  { unfold is_duplicate. apply andb_false_iff.
    destruct Hnd; [left; apply Z.leb_gt | right; apply Z.ltb_ge]; lia. }
  repeat split; intros.
  - rewrite updated_updates_checked, check_uninit by assumption. reflexivity.
  - rewrite updated_update_checked, check_uninit by assumption. reflexivity.
  - rewrite updated_checked, check_uninit by assumption. reflexivity.
Qed.

(** ** Operations as chains of small steps *)

Lemma prims_one strict w c w' : prim strict w c w' -> prims strict c w w'.
Proof.
  intros H. replace c with (c + 0)%nat by lia.
  eapply prims_step; [exact H | constructor].
Qed.

Lemma prims_trans strict n m w1 w2 w3 :
  prims strict n w1 w2 -> prims strict m w2 w3 -> prims strict (n + m) w1 w3.
Proof.
  induction 1 as [| c n w w1 w2 Hp Hps IH]; intros H3; [exact H3 |].
  rewrite <- Nat.add_assoc. eapply prims_step; [exact Hp | now apply IH].
Qed.

Lemma check_false_waiting pts count w :
  result (check pts count w) = false ->
  _waitingForSkipped (state (check pts count w)) = true.
Proof.
  intros Hres.
  destruct (check_cases pts count w) as [[Hr _] | [[Hr _] | [_ [_ Hs]]]];
    try congruence.
  rewrite Hs. reflexivity.
Qed.

Lemma small_refl strict w : small strict w w.
Proof. exists 0%nat. split; [lia | constructor]. Qed.

Lemma small_prim strict w c w' :
  (c <= 1)%nat -> prim strict w c w' -> small strict w w'.
Proof. intros Hc H. exists c. split; [exact Hc | now apply prims_one]. Qed.

Lemma updated_updates_small strict pts count updates w :
  small strict w (state (updated_updates pts count updates w)).
Proof.
  destruct (busy w) eqn:Hb.
  { rewrite updated_updates_busy by assumption. apply small_refl. }
  destruct (is_duplicate w pts count) eqn:Hd.
  { rewrite updated_updates_duplicate by assumption. apply small_refl. }
  rewrite updated_updates_checked by assumption. cbn [state fst snd].
  destruct (result (check pts count w)) eqn:Hr.
  - eapply small_prim; [| apply prim_check]. lia.
  - exists (0 + (1 + 0))%nat. split; [lia |].
    eapply prims_step; [apply prim_check |].
    eapply prims_step; [| constructor].
    apply prim_buffer_updates. now apply check_false_waiting.
Qed.

Lemma updated_update_small strict pts count update w :
  small strict w (state (updated_update pts count update w)).
Proof.
  destruct (busy w) eqn:Hb.
  { rewrite updated_update_busy by assumption. apply small_refl. }
  destruct (is_duplicate w pts count) eqn:Hd.
  { rewrite updated_update_duplicate by assumption. apply small_refl. }
  rewrite updated_update_checked by assumption. cbn [state fst snd].
  destruct (result (check pts count w)) eqn:Hr.
  - eapply small_prim; [| apply prim_check]. lia.
  - exists (0 + (1 + 0))%nat. split; [lia |].
    eapply prims_step; [apply prim_check |].
    eapply prims_step; [| constructor].
    apply prim_buffer_update. now apply check_false_waiting.
Qed.

Lemma updated_small pts count w :
  exists w', (w' = w \/ w' = state (check pts count w)) /\
             state (updated pts count w) = w'.
Proof.
  destruct (busy w) eqn:Hb.
  { rewrite updated_busy by assumption. eauto. }
  destruct (is_duplicate w pts count) eqn:Hd.
  { rewrite updated_duplicate by assumption. eauto. }
  rewrite updated_checked by assumption. eauto.
Qed.

(** An ingest that returns true inserted nothing. *)
Lemma updated_updates_true strict pts count updates w :
  result (updated_updates pts count updates w) = true ->
  prims strict 0 w (state (updated_updates pts count updates w)).
Proof.
  destruct (busy w) eqn:Hb.
  { rewrite updated_updates_busy by assumption. constructor. }
  destruct (is_duplicate w pts count) eqn:Hd.
  { rewrite updated_updates_duplicate by assumption. constructor. }
  rewrite updated_updates_checked by assumption. cbn [result state fst snd].
  intros Hr. rewrite Hr. apply prims_one. apply prim_check.
Qed.

Lemma updated_update_true strict pts count update w :
  result (updated_update pts count update w) = true ->
  prims strict 0 w (state (updated_update pts count update w)).
Proof.
  destruct (busy w) eqn:Hb.
  { rewrite updated_update_busy by assumption. constructor. }
  destruct (is_duplicate w pts count) eqn:Hd.
  { rewrite updated_update_duplicate by assumption. constructor. }
  rewrite updated_update_checked by assumption. cbn [result state fst snd].
  intros Hr. rewrite Hr. apply prims_one. apply prim_check.
Qed.

Lemma updateAndApply_updates_small strict pts count updates w :
  small strict w (state (updateAndApply_updates pts count updates w)).
Proof.
  rewrite updateAndApply_updates_eq. cbv zeta.
  destruct (result (updated_updates pts count updates w)) eqn:Hr;
    [| apply updated_updates_small].
  pose proof (updated_updates_true strict pts count updates w Hr) as H0.
  set (w1 := state (updated_updates pts count updates w)) in *.
  destruct (negb (_waitingForSkipped w1) || QMap.isEmpty (_queue w1)) eqn:Hc.
  - exists 0%nat. split; [lia | exact H0].
  - apply orb_false_elim in Hc. destruct Hc as [Hc _].
    apply negb_false_iff in Hc. cbn [state fst snd].
    exists (0 + (1 + (0 + 0)))%nat. split; [lia |].
    eapply prims_trans; [exact H0 |].
    eapply prims_step; [now apply prim_buffer_updates |].
    apply prims_one. apply prim_flush.
Qed.

Lemma updateAndApply_update_small strict pts count update w :
  small strict w (state (updateAndApply_update pts count update w)).
Proof.
  rewrite updateAndApply_update_eq. cbv zeta.
  destruct (result (updated_update pts count update w)) eqn:Hr;
    [| apply updated_update_small].
  pose proof (updated_update_true strict pts count update w Hr) as H0.
  set (w1 := state (updated_update pts count update w)) in *.
  destruct (negb (_waitingForSkipped w1) || QMap.isEmpty (_queue w1)) eqn:Hc.
  - exists 0%nat. split; [lia | exact H0].
  - apply orb_false_elim in Hc. destruct Hc as [Hc _].
    apply negb_false_iff in Hc. cbn [state fst snd].
    exists (0 + (1 + (0 + 0)))%nat. split; [lia |].
    eapply prims_trans; [exact H0 |].
    eapply prims_step; [now apply prim_buffer_update |].
    apply prims_one. apply prim_flush.
Qed.

Lemma updateAndApply_small strict pts count w :
  small strict w (state (updateAndApply pts count w)).
Proof.
  rewrite updateAndApply_eq. cbv zeta.
  destruct (updated_small pts count w) as [w' [Hw' Hst]].
  assert (H0 : prims strict 0 w w').
  { destruct Hw' as [-> | ->]; [constructor | apply prims_one; apply prim_check]. }
  rewrite Hst.
  destruct (result (updated pts count w)); cbn [state fst snd].
  - exists (0 + 0)%nat. split; [lia |].
    eapply prims_trans; [exact H0 |]. apply prims_one. apply prim_flush.
  - exists 0%nat. split; [lia | exact H0].
Qed.

Lemma state_discard {A} (m : M A) w : state ((m ;; ret tt) w) = state (m w).
Proof.
  unfold bind, ret, state. destruct (m w) as [[a w1] l1]. reflexivity.
Qed.

Lemma perform_small strict op w :
  (strict = true -> keeps_gap_flag op = true) ->
  small strict w (state (perform op w)).
Proof.
  intros Hop. destruct op; cbn [perform]; rewrite ?state_discard.
  - apply updated_updates_small.
  - apply updated_update_small.
  - destruct (updated_small pts count w) as [w' [[-> | ->] ->]];
      [apply small_refl | eapply small_prim; [| apply prim_check]; lia].
  - apply updateAndApply_updates_small.
  - apply updateAndApply_update_small.
  - apply updateAndApply_small.
  - eapply small_prim; [| apply prim_flush]. lia.
  - rewrite clearSkippedUpdates_eq. cbn [state fst snd].
    eapply small_prim; [| apply prim_clear]. lia.
  - eapply small_prim; [| apply prim_skipped]; [lia |].
    intros Hs. specialize (Hop Hs). cbn in Hop. now apply Z.leb_le.
  - eapply small_prim; [| apply prim_shortPoll]. lia.
Qed.

Lemma run_cons op ops w :
  state (run (op :: ops) w) = state (run ops (state (perform op w))).
Proof.
  cbn [run]. unfold bind, state.
  destruct (perform op w) as [[u w1] l1]. cbn [fst snd].
  destruct (run ops w1) as [[u2 w2] l2]. reflexivity.
Qed.

Lemma run_prims strict ops : forall w,
  (strict = true -> forallb keeps_gap_flag ops = true) ->
  exists n, (n <= length ops)%nat /\ prims strict n w (state (run ops w)).
Proof.
  induction ops as [| op ops IH]; intros w Hops.
  - exists 0%nat. split; [simpl; lia | constructor].
  - rewrite run_cons.
    destruct (perform_small strict op w) as [c [Hc Hp]].
    { intros Hs. specialize (Hops Hs). cbn in Hops.
      now apply andb_true_iff in Hops. }
    destruct (IH (state (perform op w))) as [n [Hn Hps]].
    { intros Hs. specialize (Hops Hs). cbn in Hops.
      now apply andb_true_iff in Hops. }
    exists (c + n)%nat. split; [simpl; lia |].
    eapply prims_trans; eassumption.
Qed.

(** ** What each small step leaves alone *)

Lemma check_frame pts count w :
  let w' := state (check pts count w) in
  _queue w' = _queue w /\ _updateQueue w' = _updateQueue w /\
  _updatesQueue w' = _updatesQueue w /\ _skippedKey w' = _skippedKey w /\
  (_waitingForSkipped w = true -> _waitingForSkipped w' = true).
Proof.
  cbv zeta.
  destruct (check_cases pts count w) as [[_ Hs] | [[_ [_ Hs]] | [_ [_ Hs]]]];
    rewrite Hs; cbn; auto.
Qed.

Lemma flush_state w :
  state (applySkippedUpdates w) = w \/
  (_queue w = [] /\ state (applySkippedUpdates w) = set_waitingForSkipped false w) \/
  state (applySkippedUpdates w) = cleared (set_waitingForSkipped false w).
Proof.
  destruct (_waitingForSkipped w) eqn:Hw.
  - rewrite applySkippedUpdates_flush by exact Hw. cbn [state fst snd].
    destruct (_queue w); cbn [QMap.isEmpty]; auto.
  - rewrite applySkippedUpdates_idle by exact Hw. auto.
Qed.

Lemma setWaitingForSkipped_state ms w :
  state (setWaitingForSkipped ms w) = set_waitingForSkipped (0 <=? ms) w.
Proof.
  destruct (Z.lt_ge_cases ms 0) as [Hneg | Hpos].
  - rewrite setWaitingForSkipped_cancel by exact Hneg.
    apply Z.leb_gt in Hneg. now rewrite Hneg.
  - rewrite setWaitingForSkipped_arm by exact Hpos.
    apply Z.leb_le in Hpos. now rewrite Hpos.
Qed.

Lemma setWaitingForShortPoll_state ms w :
  state (setWaitingForShortPoll ms w) = set_waitingForShortPoll (0 <=? ms) w.
Proof.
  destruct (Z.lt_ge_cases ms 0) as [Hneg | Hpos].
  - rewrite setWaitingForShortPoll_cancel by exact Hneg.
    apply Z.leb_gt in Hneg. now rewrite Hneg.
  - rewrite setWaitingForShortPoll_arm by exact Hpos.
    apply Z.leb_le in Hpos. now rewrite Hpos.
Qed.

Lemma prims_inv strict (P : PtsWaiter -> Prop) :
  (forall w c w', prim strict w c w' -> P w -> P w') ->
  forall n w w', prims strict n w w' -> P w -> P w'.
Proof.
  intros Hstep n w w' H. induction H as [| c n w w1 w2 Hp Hps IH]; eauto.
Qed.

(** ** Invariants, step by step *)

Lemma prim_good_le_last strict w c w' :
  prim strict w c w' -> good_le_last w -> good_le_last w'.
Proof.
  unfold good_le_last, inited.
  intros Hp Hinv. destruct Hp.
  - destruct (check_cases pts count w) as [[_ Hs] | [[_ [Hi Hs]] | [_ [Hi Hs]]]];
      rewrite Hs; cbn; intros _; specialize (Hinv Hi) || idtac; lia.
  - exact Hinv.
  - exact Hinv.
  - destruct (flush_state w) as [-> | [[_ ->] | ->]]; exact Hinv.
  - exact Hinv.
  - rewrite setWaitingForSkipped_state. exact Hinv.
  - rewrite setWaitingForShortPoll_state. exact Hinv.
Qed.






Lemma keys_below_ext w w' :
  _queue w' = _queue w -> _skippedKey w' = _skippedKey w ->
  keys_below w -> keys_below w'.
Proof. unfold keys_below. intros -> ->. auto. Qed.

Lemma keys_below_insert pts kind w :
  0 <= _skippedKey w -> _skippedKey w + 1 < 2 ^ 32 ->
  keys_below w ->
  Forall (fun k => 0 < key_seq k <= _skippedKey w + 1)
         (QMap.keys (QMap.insert (next_key pts w) kind (_queue w))).
Proof.
  intros Hlo Hhi Hinv. unfold keys_below in Hinv.
  rewrite Forall_forall in *. intros k Hk.
  apply insert_keys_In in Hk. destruct Hk as [-> | Hold].
  - unfold next_key. rewrite (uint32_small (_skippedKey w + 1)) by lia.
    rewrite packKey_seq by lia. lia.
  - specialize (Hinv k Hold). simpl in Hinv. lia.
Qed.

Lemma prim_counter_ok strict w c w' bound :
  prim strict w c w' ->
  bound + Z.of_nat c < 2 ^ 32 ->
  counter_ok bound w -> counter_ok (bound + Z.of_nat c) w'.
Proof.
  unfold counter_ok. intros Hp Hb [Hc Hk].
  assert (Hsame : forall w1, _queue w1 = _queue w -> _skippedKey w1 = _skippedKey w ->
            0 <= _skippedKey w1 <= bound + 0 /\ keys_below w1).
  { intros w1 Hq Hs. split; [rewrite Hs; lia | now apply (keys_below_ext w)]. }
  assert (Hempty : forall w1, _queue w1 = [] -> _skippedKey w1 = _skippedKey w ->
            0 <= _skippedKey w1 <= bound + 0 /\ keys_below w1).
  { intros w1 Hq Hs. split; [rewrite Hs; lia |].
    unfold keys_below. rewrite Hq. constructor. }
  destruct Hp; cbn [Z.of_nat] in *.
  - destruct (check_frame pts count w) as [Hq [_ [_ [Hs _]]]]. now apply Hsame.
  - cbn [Z.of_nat Pos.of_succ_nat] in Hb.
    unfold keys_below. cbn [buffered_update _skippedKey _queue set_updateQueue
      set_queue set_skippedKey].
    rewrite (uint32_small (_skippedKey w + 1)) by lia. split; [lia |].
    apply keys_below_insert; auto; lia.
  - cbn [Z.of_nat Pos.of_succ_nat] in Hb.
    unfold keys_below. cbn [buffered_updates _skippedKey _queue set_updatesQueue
      set_queue set_skippedKey].
    rewrite (uint32_small (_skippedKey w + 1)) by lia. split; [lia |].
    apply keys_below_insert; auto; lia.
  - destruct (flush_state w) as [-> | [[Hq ->] | ->]];
      [now apply Hsame | now apply Hsame | now apply Hempty].
  - now apply Hempty.
  - rewrite setWaitingForSkipped_state. now apply Hsame.
  - rewrite setWaitingForShortPoll_state. now apply Hsame.
Qed.

Lemma prims_counter_ok strict n w w' :
  prims strict n w w' ->
  forall bound, bound + Z.of_nat n < 2 ^ 32 ->
  counter_ok bound w -> counter_ok (bound + Z.of_nat n) w'.
Proof.
  induction 1 as [| c n w w1 w2 Hp Hps IH]; intros bound Hb Hinv.
  - cbn. now rewrite Z.add_0_r.
  - rewrite Nat2Z.inj_add in *. rewrite Z.add_assoc.
    apply IH; [lia |].
    eapply prim_counter_ok; [exact Hp | lia | exact Hinv].
Qed.

(** ** The counter under the contract of the caller *)

Lemma counter_room_ext w w' :
  _queue w' = _queue w -> _skippedKey w' = _skippedKey w ->
  _count w' = _count w -> initialized w' = initialized w ->
  counter_room w -> counter_room w'.
Proof.
  unfold counter_room, keys_below, slack, inited. intros -> -> -> ->. auto.
Qed.

Lemma counter_room_emptied w w' :
  _queue w' = [] -> _skippedKey w' = _skippedKey w ->
  _count w' = _count w -> initialized w' = initialized w ->
  counter_room w -> counter_room w'.
Proof.
  unfold counter_room, keys_below, slack, inited.
  intros -> -> -> -> [Hs [_ Hc]]. split; [exact Hs |]. split; [constructor |].
  destruct (initialized w); cbn [QMap.isEmpty].
  - destruct Hc as [Hr Hle]. split; [exact Hr |].
    destruct (QMap.isEmpty (_queue w)); lia.
  - destruct Hc as [Hz _]. auto.
Qed.

Lemma room_flush w :
  counter_room w -> counter_room (state (applySkippedUpdates w)).
Proof.
  intros H. destruct (flush_state w) as [-> | [[_ ->] | ->]].
  - exact H.
  - now apply (counter_room_ext w).
  - now apply (counter_room_emptied w).
Qed.

(** After [check]: the invariant, and two units of room when the update
    has to be buffered. *)
Lemma room_check pts count w :
  counter_room w -> check_ok pts count w ->
  counter_room (state (check pts count w)) /\
  (result (check pts count w) = false ->
   inited (state (check pts count w)) = true /\
   _skippedKey (state (check pts count w)) + slack (state (check pts count w)) + 2
   <= 2 * _count (state (check pts count w))).
Proof.
  unfold counter_room, check_ok, keys_below, slack, INT32_MAX.
  intros [Hs [Hk Hc]] [Hcount Hok].
  destruct (inited w) eqn:Hi.
  - destruct Hc as [Hr Hle].
    assert (Hsum : int32 (_count w + count) = _count w + count).
    { apply int32_small. unfold in_int32, INT32_MIN, INT32_MAX. lia. }
    destruct (Z.lt_trichotomy (Z.max (_last w) pts) (int32 (_count w + count)))
      as [Hlt | [Heq | Hgt]];
      [rewrite check_short by assumption
      | rewrite check_in_sequence by assumption
      | rewrite check_long by assumption];
      unfold inited in *; cbn [result state fst snd];
      cbn -[Z.mul Z.add Z.sub Z.pow Z.max int32 QMap.isEmpty];
      rewrite Hi, Hsum;
      destruct (QMap.isEmpty (_queue w));
      (split; [repeat split; try assumption; lia |]);
      try discriminate;
      intros Hres; apply Z.eqb_neq in Hres; (split; [reflexivity | lia]).
  - destruct Hc as [Hz Hq].
    rewrite check_uninit by assumption. unfold inited.
    cbn [result state fst snd]. cbn -[Z.mul Z.add Z.sub Z.pow Z.max int32 QMap.isEmpty].
    rewrite Hq. cbn [QMap.isEmpty QMap.keys map].
    split; [repeat split; first [assumption | apply Forall_nil | lia] | discriminate].
Qed.

Lemma room_buffer kind pts w w' :
  _queue w' = QMap.insert (next_key pts w) kind (_queue w) ->
  _skippedKey w' = uint32 (_skippedKey w + 1) ->
  _count w' = _count w -> initialized w' = initialized w ->
  counter_room w -> inited w = true ->
  _skippedKey w + 1 <= 2 * _count w ->
  0 <= _skippedKey w' /\ keys_below w' /\
  _skippedKey w' = _skippedKey w + 1 /\ _queue w' <> [] /\
  0 <= _count w' <= INT32_MAX /\ inited w' = true.
Proof.
  unfold counter_room, inited, INT32_MAX.
  intros Hq Hsk Hcnt Hini [Hs [Hk Hc]] Hi Hroom.
  rewrite Hi in Hc. destruct Hc as [Hr _].
  assert (Hfit : 0 <= _skippedKey w + 1 < 2 ^ 32) by lia.
  rewrite (uint32_small _ Hfit) in Hsk.
  split; [lia |]. split.
  { unfold keys_below. rewrite Hq, Hsk. apply keys_below_insert; [lia | lia | exact Hk]. }
  split; [exact Hsk |]. split.
  { rewrite Hq. intros He.
    pose proof (insert_In_new (next_key pts w) kind (_queue w)) as Hin.
    rewrite He in Hin. exact Hin. }
  split; [lia | congruence].
Qed.

(** Buffering after a [check] that returned false. *)
Lemma room_buffered kind pts w w' :
  _queue w' = QMap.insert (next_key pts w) kind (_queue w) ->
  _skippedKey w' = uint32 (_skippedKey w + 1) ->
  _count w' = _count w -> initialized w' = initialized w ->
  counter_room w -> inited w = true ->
  _skippedKey w + slack w + 2 <= 2 * _count w ->
  counter_room w'.
Proof.
  intros Hq Hsk Hcnt Hini Hroom Hi Hle.
  assert (Hs0 : 0 <= slack w <= 1) by (unfold slack; destruct (QMap.isEmpty (_queue w)); lia).
  destruct (room_buffer kind pts w w' Hq Hsk Hcnt Hini Hroom Hi)
    as [H0 [Hk [Hsk' [Hne [Hr Hi']]]]]; [lia |].
  unfold counter_room. rewrite Hi'.
  split; [exact H0 |]. split; [exact Hk |]. split; [exact Hr |].
  assert (Hs1 : 0 <= slack w' <= 1) by (unfold slack; destruct (QMap.isEmpty (_queue w')); lia).
  lia.
Qed.

(** Buffering behind a non-empty queue, followed at once by the flush. *)
Lemma room_buffered_flushed kind pts w w' :
  _queue w' = QMap.insert (next_key pts w) kind (_queue w) ->
  _skippedKey w' = uint32 (_skippedKey w + 1) ->
  _count w' = _count w -> initialized w' = initialized w ->
  _waitingForSkipped w' = true ->
  counter_room w -> _queue w <> [] ->
  counter_room (state (applySkippedUpdates w')).
Proof.
  intros Hq Hsk Hcnt Hini Hw Hroom Hne.
  assert (Hi : inited w = true).
  { destruct Hroom as [_ [_ Hc]]. destruct (inited w); [reflexivity |].
    destruct Hc as [_ Hq0]. contradiction. }
  assert (Hle : _skippedKey w + 1 <= 2 * _count w).
  { destruct Hroom as [_ [_ Hc]]. rewrite Hi in Hc. destruct Hc as [_ Hc].
    unfold slack in Hc. destruct (_queue w); [contradiction | exact Hc]. }
  destruct (room_buffer kind pts w w' Hq Hsk Hcnt Hini Hroom Hi)
    as [H0 [Hk [Hsk' [Hne' [Hr Hi']]]]]; [lia |].
  rewrite applySkippedUpdates_flush by exact Hw. cbn [state fst snd].
  destruct (_queue w') eqn:Hq'; [contradiction |]. cbn [QMap.isEmpty].
  unfold counter_room, keys_below, slack, inited in *.
  cbn -[Z.mul Z.add Z.sub Z.pow].
  rewrite Hi'. split; [lia |]. split; [constructor |]. split; [exact Hr | lia].
Qed.

(** ** Invariants of runs *)

Lemma fresh_counter_ok w : fresh w -> counter_ok 0 w.
Proof.
  intros [_ [Hq [_ [_ [_ [_ [_ [_ Hk]]]]]]]]. unfold counter_ok, keys_below.
  rewrite Hq, Hk. split; [lia | constructor].
Qed.

Lemma run_counter_ok w0 ops :
  fresh w0 -> Z.of_nat (length ops) < 2 ^ 32 ->
  counter_ok (Z.of_nat (length ops)) (state (run ops w0)).
Proof.
  intros Hf Hlen.
  destruct (run_prims false ops w0) as [n [Hn Hps]]; [discriminate |].
  pose proof (prims_counter_ok false n _ _ Hps 0) as H.
  destruct H as [Hc Hk]; [lia | now apply fresh_counter_ok |].
  split; [lia | exact Hk].
Qed.





Lemma room_updated_updates pts count updates w :
  counter_room w -> ingest_ok pts count w ->
  counter_room (state (updated_updates pts count updates w)).
Proof.
  intros Hroom Hok.
  destruct (busy w) eqn:Hb; [now rewrite updated_updates_busy |].
  destruct (is_duplicate w pts count) eqn:Hd; [now rewrite updated_updates_duplicate |].
  rewrite updated_updates_checked by assumption. cbn [state fst snd].
  destruct (room_check pts count w Hroom (Hok Hb Hd)) as [Hr Hgap].
  destruct (result (check pts count w)); [exact Hr |].
  destruct Hgap as [Hi Hle]; [reflexivity |].
  now apply (room_buffered SkippedUpdates pts (state (check pts count w))).
Qed.

Lemma room_updated_update pts count update w :
  counter_room w -> ingest_ok pts count w ->
  counter_room (state (updated_update pts count update w)).
Proof.
  intros Hroom Hok.
  destruct (busy w) eqn:Hb; [now rewrite updated_update_busy |].
  destruct (is_duplicate w pts count) eqn:Hd; [now rewrite updated_update_duplicate |].
  rewrite updated_update_checked by assumption. cbn [state fst snd].
  destruct (room_check pts count w Hroom (Hok Hb Hd)) as [Hr Hgap].
  destruct (result (check pts count w)); [exact Hr |].
  destruct Hgap as [Hi Hle]; [reflexivity |].
  now apply (room_buffered SkippedUpdate pts (state (check pts count w))).
Qed.

Lemma room_updated pts count w :
  counter_room w -> ingest_ok pts count w ->
  counter_room (state (updated pts count w)).
Proof.
  intros Hroom Hok.
  destruct (busy w) eqn:Hb; [now rewrite updated_busy |].
  destruct (is_duplicate w pts count) eqn:Hd; [now rewrite updated_duplicate |].
  rewrite updated_checked by assumption.
  now destruct (room_check pts count w Hroom (Hok Hb Hd)).
Qed.

Lemma nonempty_not_isEmpty {V} (q : QMap.t V) : QMap.isEmpty q = false -> q <> [].
Proof. destruct q; [discriminate | discriminate]. Qed.

Lemma room_updateAndApply_updates pts count updates w :
  counter_room w -> ingest_ok pts count w ->
  counter_room (state (updateAndApply_updates pts count updates w)).
Proof.
  intros Hroom Hok.
  pose proof (room_updated_updates pts count updates w Hroom Hok) as H1.
  rewrite updateAndApply_updates_eq. cbv zeta.
  set (w1 := state (updated_updates pts count updates w)) in *.
  destruct (result (updated_updates pts count updates w)); [| exact H1].
  destruct (negb (_waitingForSkipped w1) || QMap.isEmpty (_queue w1)) eqn:Hc;
    [exact H1 |].
  apply orb_false_elim in Hc. destruct Hc as [Hw Hq].
  apply negb_false_iff in Hw. cbn [state fst snd].
  apply (room_buffered_flushed SkippedUpdates pts w1); auto.
  now apply nonempty_not_isEmpty.
Qed.

Lemma room_updateAndApply_update pts count update w :
  counter_room w -> ingest_ok pts count w ->
  counter_room (state (updateAndApply_update pts count update w)).
Proof.
  intros Hroom Hok.
  pose proof (room_updated_update pts count update w Hroom Hok) as H1.
  rewrite updateAndApply_update_eq. cbv zeta.
  set (w1 := state (updated_update pts count update w)) in *.
  destruct (result (updated_update pts count update w)); [| exact H1].
  destruct (negb (_waitingForSkipped w1) || QMap.isEmpty (_queue w1)) eqn:Hc;
    [exact H1 |].
  apply orb_false_elim in Hc. destruct Hc as [Hw Hq].
  apply negb_false_iff in Hw. cbn [state fst snd].
  apply (room_buffered_flushed SkippedUpdate pts w1); auto.
  now apply nonempty_not_isEmpty.
Qed.

Lemma room_updateAndApply pts count w :
  counter_room w -> ingest_ok pts count w ->
  counter_room (state (updateAndApply pts count w)).
Proof.
  intros Hroom Hok.
  pose proof (room_updated pts count w Hroom Hok) as H1.
  rewrite updateAndApply_eq. cbv zeta.
  destruct (result (updated pts count w)); cbn [state fst snd];
    [now apply room_flush | exact H1].
Qed.

Lemma room_perform op w :
  counter_room w -> op_ok op w -> counter_room (state (perform op w)).
Proof.
  intros Hroom Hok. destruct op; cbn [perform op_ok] in *; rewrite ?state_discard.
  - now apply room_updated_updates.
  - now apply room_updated_update.
  - now apply room_updated.
  - now apply room_updateAndApply_updates.
  - now apply room_updateAndApply_update.
  - now apply room_updateAndApply.
  - now apply room_flush.
  - rewrite clearSkippedUpdates_eq. now apply (counter_room_emptied w).
  - rewrite setWaitingForSkipped_state. now apply (counter_room_ext w).
  - rewrite setWaitingForShortPoll_state. now apply (counter_room_ext w).
Qed.

Lemma room_run ops : forall w,
  counter_room w -> run_ok ops w -> counter_room (state (run ops w)).
Proof.
  induction ops as [| op ops IH]; intros w Hroom Hok; [exact Hroom |].
  destruct Hok as [Hop Hrest]. rewrite run_cons.
  apply IH; [now apply room_perform | exact Hrest].
Qed.

Lemma fresh_room w : fresh w -> counter_room w.
Proof.
  intros [Hi [Hq [_ [_ [_ [_ [_ [_ Hk]]]]]]]].
  unfold counter_room, keys_below, inited. rewrite Hi, Hq, Hk.
  split; [lia |]. split; [constructor | auto].
Qed.

(** Either way the next insertion does not wrap the counter. *)
Lemma counter_has_room w0 ops :
  fresh w0 ->
  Z.of_nat (length ops) < 2 ^ 32 - 1 \/ run_ok ops w0 ->
  0 <= _skippedKey (state (run ops w0)) /\
  _skippedKey (state (run ops w0)) + 1 < 2 ^ 32 /\
  keys_below (state (run ops w0)).
Proof.
  intros Hf [Hlen | Hok].
  - destruct (run_counter_ok w0 ops Hf) as [Hc Hk]; [lia |].
    split; [lia |]. split; [lia | exact Hk].
  - destruct (room_run ops w0 (fresh_room w0 Hf) Hok) as [Hs [Hk Hc]].
    split; [exact Hs |]. split; [| exact Hk].
    unfold slack, INT32_MAX in Hc.
    destruct (inited (state (run ops w0))).
    + destruct Hc as [Hr Hle].
      destruct (QMap.isEmpty (_queue (state (run ops w0)))); lia.
    + destruct Hc as [-> _]. lia.
Qed.

(** C9.  In every state reached from a new waiter by any sequence of
    operations - the six overloads of [updated] and [updateAndApply] for
    single updates and batches, the flush [applySkippedUpdates], the reset
    [clearSkippedUpdates] and the two waiting setters - an initialized
    waiter has [_good <= _last]. *)
Theorem reachable_good_le_last w :
  reachable w -> inited w = true -> _good w <= _last w.
Proof.
  intros Hr. change (good_le_last w).
  induction Hr as [w Hf | w op Hr IH].
  - destruct Hf as [Hi _]. unfold good_le_last, inited. congruence.
  - destruct (perform_small false op w) as [n [_ Hps]]; [discriminate |].
    eapply (prims_inv false good_le_last); [| exact Hps | exact IH].
    intros w1 c w2. apply prim_good_le_last.
Qed.

(** ** The flush *)


(** ** Queue keys *)




Lemma reachable_run w ops : reachable w -> reachable (state (run ops w)).
Proof.
  revert w. induction ops as [| op ops IH]; intros w Hr.
  - exact Hr.
  - rewrite run_cons. apply IH. now apply reachable_step.
Qed.


(** ** What an ingest tells its caller *)

Lemma timer_events_timer ms : forallb is_timer (timer_events ms) = true.
Proof. unfold timer_events. destruct main; reflexivity. Qed.

Lemma check_events_timer pts count w :
  forallb is_timer (events (check pts count w)) = true.
Proof.
  destruct (inited w) eqn:Hi.
  - destruct (Z.lt_trichotomy (Z.max (_last w) pts) (int32 (_count w + count)))
      as [Hlt | [Heq | Hgt]].
    + rewrite check_short by assumption. apply timer_events_timer.
    + rewrite check_in_sequence by assumption. reflexivity.
    + rewrite check_long by assumption. apply timer_events_timer.
  - rewrite check_uninit by assumption. reflexivity.
Qed.

Lemma updated_updates_events_timer pts count updates w :
  forallb is_timer (events (updated_updates pts count updates w)) = true.
Proof.
  destruct (busy w) eqn:Hb; [now rewrite updated_updates_busy |].
  destruct (is_duplicate w pts count) eqn:Hd; [now rewrite updated_updates_duplicate |].
  rewrite updated_updates_checked by assumption. apply check_events_timer.
Qed.

Lemma updated_update_events_timer pts count update w :
  forallb is_timer (events (updated_update pts count update w)) = true.
Proof.
  destruct (busy w) eqn:Hb; [now rewrite updated_update_busy |].
  destruct (is_duplicate w pts count) eqn:Hd; [now rewrite updated_update_duplicate |].
  rewrite updated_update_checked by assumption. apply check_events_timer.
Qed.

(** X1.  The result of [updateAndApply] says whether the applier was given the
    payload: if it is true the payload is among the applier calls of this
    very call, and if it is false the call made no applier call at all,
    only timer calls.  The same for single updates and for batches. *)
Theorem updateAndApply_result_is_applied pts count w :
  (forall update,
     let r := updateAndApply_update pts count update w in
     (result r = true -> In (ApplyUpdate update) (events r)) /\
     (result r = false -> forallb is_timer (events r) = true)) /\
  (forall updates,
     let r := updateAndApply_updates pts count updates w in
     (result r = true -> In (ApplyUpdates updates) (events r)) /\
     (result r = false -> forallb is_timer (events r) = true)).
Proof.
  split.
  - intros update. cbv zeta. rewrite updateAndApply_update_eq. cbv zeta.
    pose proof (updated_update_events_timer pts count update w) as Ht.
    destruct (result (updated_update pts count update w)).
    + set (w1 := state (updated_update pts count update w)).
      destruct (negb (_waitingForSkipped w1) || QMap.isEmpty (_queue w1)) eqn:Hc;
        cbn [result events fst snd]; split; try discriminate; intros _.
      * apply in_or_app. right. now left.
      * apply orb_false_elim in Hc. destruct Hc as [Hw _].
        apply negb_false_iff in Hw. apply in_or_app. right.
        now apply flush_applies_buffered_update.
    + cbn [result events fst snd]. split; [discriminate | auto].
  - intros updates. cbv zeta. rewrite updateAndApply_updates_eq. cbv zeta.
    pose proof (updated_updates_events_timer pts count updates w) as Ht.
    destruct (result (updated_updates pts count updates w)).
    + set (w1 := state (updated_updates pts count updates w)).
      destruct (negb (_waitingForSkipped w1) || QMap.isEmpty (_queue w1)) eqn:Hc;
        cbn [result events fst snd]; split; try discriminate; intros _.
      * apply in_or_app. right. now left.
      * apply orb_false_elim in Hc. destruct Hc as [Hw _].
        apply negb_false_iff in Hw. apply in_or_app. right.
        now apply flush_applies_buffered_updates.
    + cbn [result events fst snd]. split; [discriminate | auto].
Qed.


(** ** The watermark only moves forward *)

Lemma check_state_inited pts count w :
  inited w = true ->
  state (check pts count w) = set_good (Z.max (_last w) pts) (advanced pts count w) \/
  state (check pts count w) = set_waitingForSkipped true (advanced pts count w).
Proof.
  intros Hi.
  destruct (Z.lt_trichotomy (Z.max (_last w) pts) (int32 (_count w + count)))
    as [Hlt | [Heq | Hgt]].
  - right. now rewrite check_short.
  - left. now rewrite check_in_sequence.
  - right. now rewrite check_long.
Qed.

Lemma prim_not_behind strict w c w' :
  prim strict w c w' -> inited w = true -> good_le_last w -> not_behind w w'.
Proof.
  unfold not_behind, good_le_last.
  intros Hp Hi Hinv. specialize (Hinv Hi). destruct Hp.
  - destruct (check_state_inited pts count w Hi) as [-> | ->];
      unfold inited in *; cbn; repeat split; try assumption; lia.
  - unfold inited in *. cbn. repeat split; try assumption; lia.
  - unfold inited in *. cbn. repeat split; try assumption; lia.
  - destruct (flush_state w) as [-> | [[_ ->] | ->]]; unfold inited in *; cbn;
      repeat split; try assumption; lia.
  - unfold inited in *. cbn. repeat split; try assumption; lia.
  - rewrite setWaitingForSkipped_state. unfold inited in *. cbn.
    repeat split; try assumption; lia.
  - rewrite setWaitingForShortPoll_state. unfold inited in *. cbn.
    repeat split; try assumption; lia.
Qed.


Lemma prims_not_behind strict n w w' :
  prims strict n w w' -> inited w = true -> good_le_last w ->
  not_behind w w' /\ good_le_last w'.
Proof.
  induction 1 as [w | c n w w1 w2 Hp Hps IH]; intros Hi Hinv.
  - split; [| exact Hinv]. unfold not_behind. repeat split; [exact Hi | lia | lia].
  - destruct (prim_not_behind strict w c w1 Hp Hi Hinv) as [Hi1 [Hg1 Hl1]].
    pose proof (prim_good_le_last strict w c w1 Hp Hinv) as Hinv1.
    destruct (IH Hi1 Hinv1) as [[Hi2 [Hg2 Hl2]] Hinv2].
    split; [| exact Hinv2]. unfold not_behind. repeat split; [exact Hi2 | lia | lia].
Qed.

Lemma reachable_inv w : reachable w -> good_le_last w.
Proof.
  induction 1 as [w Hf | w op Hr IH].
  - destruct Hf as [Hi _]. unfold good_le_last, inited. congruence.
  - destruct (perform_small false op w) as [n [_ Hps]]; [discriminate |].
    eapply (prims_inv false good_le_last); [| exact Hps | exact IH].
    intros w1 c w2. apply prim_good_le_last.
Qed.

Lemma run_not_behind w ops :
  reachable w ->
  inited w = true ->
  inited (state (run ops w)) = true /\
  _good w <= _good (state (run ops w)) /\
  _last w <= _last (state (run ops w)).
Proof.
  intros Hr Hi.
  destruct (run_prims false ops w) as [n [_ Hps]]; [discriminate |].
  destruct (prims_not_behind false n _ _ Hps Hi (reachable_inv w Hr)) as [H _].
  exact H.
Qed.

(** X2.  Once a waiter is initialized it stays so, and whatever operations
    follow - ingests, flushes, resets, changes of the waiting flags -
    neither the watermark [_good] nor the highest pts [_last] ever goes
    back. *)
Theorem watermark_never_goes_back w ops :
  reachable w ->
  inited w = true ->
  inited (state (run ops w)) = true /\
  _good w <= _good (state (run ops w)) /\
  _last w <= _last (state (run ops w)).
Proof.
  intros Hr Hi.
  destruct (run_prims false ops w) as [n [_ Hps]]; [discriminate |].
  destruct (prims_not_behind false n _ _ Hps Hi (reachable_inv w Hr)) as [H _].
  exact H.
Qed.


(** ** Between operations the waiter is idle *)

Lemma prim_idle strict w c w' : prim strict w c w' -> idle w -> idle w'.
Proof.
  unfold idle. intros Hp [Hr Hl]. destruct Hp.
  - destruct (check_cases pts count w) as [[_ Hs] | [[_ [_ Hs]] | [_ [_ Hs]]]];
      rewrite Hs; cbn; auto.
  - cbn. auto.
  - cbn. auto.
  - destruct (flush_state w) as [-> | [[_ ->] | ->]]; cbn; auto.
  - cbn. auto.
  - rewrite setWaitingForSkipped_state. cbn. auto.
  - rewrite setWaitingForShortPoll_state. cbn. auto.
Qed.

Lemma reachable_idle w : reachable w -> idle w.
Proof.
  induction 1 as [w Hf | w op Hr IH].
  - destruct Hf as [_ [_ [_ [_ [Hl [Hq _]]]]]]. split; assumption.
  - destruct (perform_small false op w) as [n [_ Hps]]; [discriminate |].
    eapply (prims_inv false idle); [| exact Hps | exact IH].
    intros w1 c w2. apply prim_idle.
Qed.

(** X3.  An update at or below the watermark, with a positive count, stays a
    duplicate for good: after any further operations every overload of
    [updated] and [updateAndApply] still returns false for it, calls
    neither the applier nor the timer and leaves the waiter as it is. *)
Theorem stale_update_stays_stale w ops pts count :
  reachable w ->
  inited w = true ->
  pts <= _good w ->
  0 < count ->
  let w' := state (run ops w) in
  (forall updates, updated_updates pts count updates w' = (false, w', [])) /\
  (forall update, updated_update pts count update w' = (false, w', [])) /\
  updated pts count w' = (false, w', []) /\
  (forall updates, updateAndApply_updates pts count updates w' = (false, w', [])) /\
  (forall update, updateAndApply_update pts count update w' = (false, w', [])) /\
  updateAndApply pts count w' = (false, w', []).
Proof.
  intros Hr Hi Hp Hc w'.
  destruct (run_not_behind w ops Hr Hi) as [_ [Hg _]]. fold w' in Hg.
  destruct (reachable_idle w' (reachable_run w ops Hr)) as [Hrq Hl].
  pose proof (idle_not_busy w' Hrq Hl) as Hb.
  assert (Hd : is_duplicate w' pts count = true) by (apply duplicate_test; lia).
  repeat split; intros.
  - now apply updated_updates_duplicate.
  - now apply updated_update_duplicate.
  - now apply updated_duplicate.
  - rewrite updateAndApply_updates_eq, updated_updates_duplicate by assumption.
    reflexivity.
  - rewrite updateAndApply_update_eq, updated_update_duplicate by assumption.
    reflexivity.
  - rewrite updateAndApply_eq, updated_duplicate by assumption. reflexivity.
Qed.

(** ** The overloads without a payload *)

(** X4.  [updated(channel, pts, count)] never stores anything: whatever it
    returns, the three maps of the pending queue and the insertion counter
    are as before.  [updateAndApply(channel, pts, count)] never inserts
    either: it leaves the counter alone, and the maps are as before or
    emptied by its flush. *)
Theorem updated_without_payload_stores_nothing pts count w :
  (_queue (state (updated pts count w)) = _queue w /\
   _updateQueue (state (updated pts count w)) = _updateQueue w /\
   _updatesQueue (state (updated pts count w)) = _updatesQueue w /\
   _skippedKey (state (updated pts count w)) = _skippedKey w) /\
  _skippedKey (state (updateAndApply pts count w)) = _skippedKey w /\
  ((_queue (state (updateAndApply pts count w)) = _queue w /\
    _updateQueue (state (updateAndApply pts count w)) = _updateQueue w /\
    _updatesQueue (state (updateAndApply pts count w)) = _updatesQueue w) \/
   (_queue (state (updateAndApply pts count w)) = [] /\
    _updateQueue (state (updateAndApply pts count w)) = [] /\
    _updatesQueue (state (updateAndApply pts count w)) = [])).
Proof.
  assert (H1 : _queue (state (updated pts count w)) = _queue w /\
               _updateQueue (state (updated pts count w)) = _updateQueue w /\
               _updatesQueue (state (updated pts count w)) = _updatesQueue w /\
               _skippedKey (state (updated pts count w)) = _skippedKey w).
  { destruct (updated_small pts count w) as [w' [[-> | ->] ->]]; [auto |].
    destruct (check_frame pts count w) as [Hq [Hu [Hus [Hs _]]]]. auto. }
  split; [exact H1 |].
  destruct H1 as [Hq [Hu [Hus Hs]]].
  rewrite updateAndApply_eq. cbv zeta.
  destruct (result (updated pts count w)); cbn [state fst snd].
  - destruct (flush_state (state (updated pts count w))) as [-> | [[_ ->] | ->]];
      cbn; auto.
  - auto.
Qed.

(** ** Packing and unpacking a key *)

Lemma int32_uint32 pts : in_int32 pts -> int32 (uint32 pts) = pts.
Proof.
  unfold in_int32, INT32_MIN, INT32_MAX. intros H.
  destruct (Z.lt_ge_cases pts 0) as [Hneg | Hpos].
  - rewrite uint32_negative by lia. unfold int32.
    replace (pts + 2 ^ 32 + 2 ^ 31) with (pts + 2 ^ 31 + 1 * 2 ^ 32) by lia.
    rewrite Z.mod_add by lia. rewrite Z.mod_small; lia.
  - rewrite uint32_small by lia. apply int32_small.
    unfold in_int32, INT32_MIN, INT32_MAX. lia.
Qed.

(** X5.  The key [ptsKey] packs is a 64-bit value from which both halves come
    back: the high half, read as an [int32], is the pts and the low half
    is the counter.  So two keys are equal only if they were packed from
    the same pts and the same counter value. *)
Theorem packKey_unpacks p1 c1 p2 c2 :
  in_int32 p1 -> 0 <= c1 < 2 ^ 32 ->
  in_int32 p2 -> 0 <= c2 < 2 ^ 32 ->
  0 <= packKey p1 c1 < 2 ^ 64 /\
  int32 (key_pts (packKey p1 c1)) = p1 /\
  key_seq (packKey p1 c1) = c1 /\
  (packKey p1 c1 = packKey p2 c2 -> p1 = p2 /\ c1 = c2).
Proof.
  intros Hp1 Hc1 Hp2 Hc2.
  split.
  { rewrite packKey_eq by assumption. pose proof (uint32_range p1). nia. }
  split; [rewrite packKey_pts by assumption; now apply int32_uint32 |].
  split; [now apply packKey_seq |].
  intros Heq. split.
  - rewrite <- (int32_uint32 p1 Hp1), <- (int32_uint32 p2 Hp2).
    rewrite <- (packKey_pts p1 c1 Hc1), <- (packKey_pts p2 c2 Hc2). now rewrite Heq.
  - rewrite <- (packKey_seq p1 c1 Hc1), <- (packKey_seq p2 c2 Hc2). now rewrite Heq.
Qed.


(** ** An out-of-order pair *)

Lemma applied_updates_app l1 l2 :
  applied_updates (l1 ++ l2) = applied_updates l1 ++ applied_updates l2.
Proof.
  induction l1 as [| e l1 IH]; [reflexivity |].
  destruct e; cbn; now rewrite IH.
Qed.

Lemma applied_batches_app l1 l2 :
  applied_batches (l1 ++ l2) = applied_batches l1 ++ applied_batches l2.
Proof.
  induction l1 as [| e l1 IH]; [reflexivity |].
  destruct e; cbn; now rewrite IH.
Qed.

Lemma applied_updates_timer l : forallb is_timer l = true -> applied_updates l = [].
Proof.
  induction l as [| e l IH]; [reflexivity |].
  destruct e; cbn; try discriminate. exact IH.
Qed.

Lemma applied_batches_timer l : forallb is_timer l = true -> applied_batches l = [].
Proof.
  induction l as [| e l IH]; [reflexivity |].
  destruct e; cbn; try discriminate. exact IH.
Qed.

Lemma cancel_events_timer other : forallb is_timer (cancel_events other) = true.
Proof. unfold cancel_events. destruct (negb other && main); reflexivity. Qed.

(** X6.  A waiter settled at [g] with nothing queued gets the update for
    [p2] before the update for [p1 < p2] that precedes it, the two counts
    adding up to [p2].  The first call finds a gap: it returns false, calls
    only the timer and holds the update back.  The second call closes the
    gap: it returns true, the applier gets the update for [p1] and then
    the one for [p2], the watermark is [p2] and nothing is left queued or
    waited for. *)
Theorem out_of_order_pair_in_order g p1 c1 p2 c2 a b w :
  inited w = true -> idle w ->
  _good w = g -> _last w = g -> _count w = g ->
  _queue w = [] -> _updateQueue w = [] ->
  0 <= _skippedKey w -> _skippedKey w + 2 < 2 ^ 32 ->
  0 <= g -> g < p1 -> p1 < p2 -> p2 <= INT32_MAX ->
  0 < c1 -> 0 < c2 -> g + c2 + c1 = p2 ->
  let r1 := updateAndApply_update p2 c2 b w in
  let r2 := updateAndApply_update p1 c1 a (state r1) in
  result r1 = false /\ forallb is_timer (events r1) = true /\
  result r2 = true /\ applied_updates (events r2) = [a; b] /\
  _good (state r2) = p2 /\ _last (state r2) = p2 /\
  _queue (state r2) = [] /\ _updateQueue (state r2) = [] /\
  _waitingForSkipped (state r2) = false.
Proof.
  intros Hi [Hrq Hlv] Hg Hl Hc Hq Hu Hs0 Hs1 Hg0 Hgp Hpp Hmax Hc1 Hc2 Hsum.
  unfold INT32_MAX in Hmax.
  pose proof (idle_not_busy w Hrq Hlv) as Hb.
  assert (Hd : is_duplicate w p2 c2 = false).
  { unfold is_duplicate. apply andb_false_iff. left. apply Z.leb_gt. lia. }
  assert (Hsum2 : int32 (_count w + c2) = g + c2).
  { rewrite Hc. apply int32_small. unfold in_int32, INT32_MIN, INT32_MAX. lia. }
  assert (Hck : check p2 c2 w =
    (c2 =? 0, set_waitingForSkipped true (advanced p2 c2 w),
     timer_events WaitForSkippedTimeout)).
  { apply check_long; [exact Hi |]. rewrite Hsum2, Hl. lia. }
  assert (Hc2z : (c2 =? 0) = false) by (apply Z.eqb_neq; lia).
  cbv zeta.
  (* first call *)
  assert (H1 : updateAndApply_update p2 c2 b w =
    (false, buffered_update p2 b (set_waitingForSkipped true (advanced p2 c2 w)),
     timer_events WaitForSkippedTimeout)).
  { rewrite updateAndApply_update_eq, updated_update_checked by assumption.
    rewrite Hck, Hc2z. reflexivity. }
  rewrite H1. cbn [result state events fst snd].
  set (w1 := buffered_update p2 b (set_waitingForSkipped true (advanced p2 c2 w))).
  split; [reflexivity |]. split; [apply timer_events_timer |].
  (* second call *)
  assert (Hi1 : inited w1 = true) by exact Hi.
  assert (Hb1 : busy w1 = false) by exact Hb.
  assert (Hd1 : is_duplicate w1 p1 c1 = false).
  { unfold is_duplicate. apply andb_false_iff. left. apply Z.leb_gt.
    change (_good w1) with (_good w). lia. }
  assert (Hl1 : _last w1 = p2).
  { change (_last w1) with (Z.max (_last w) p2). lia. }
  assert (Hc1' : _count w1 = g + c2) by exact Hsum2.
  assert (Hck1 : check p1 c1 w1 =
    (true, set_good (Z.max (_last w1) p1) (advanced p1 c1 w1), [])).
  { apply check_in_sequence; [exact Hi1 |]. rewrite Hl1, Hc1'.
    rewrite int32_small by (unfold in_int32, INT32_MIN, INT32_MAX; lia). lia. }
  rewrite updateAndApply_update_eq, updated_update_checked by assumption.
  rewrite Hck1. cbn [result state events fst snd]. cbv zeta.
  set (w2 := set_good (Z.max (_last w1) p1) (advanced p1 c1 w1)).
  assert (Hw2 : _waitingForSkipped w2 = true) by reflexivity.
  assert (Hk1 : uint32 (_skippedKey w + 1) = _skippedKey w + 1)
    by (apply uint32_small; lia).
  assert (Hk2 : uint32 (_skippedKey w + 1 + 1) = _skippedKey w + 2)
    by (rewrite uint32_small; lia).
  assert (Hlt : (packKey p1 (_skippedKey w + 2) <? packKey p2 (_skippedKey w + 1)) = true).
  { apply Z.ltb_lt. apply packKey_lt; [lia | lia |].
    left. rewrite !uint32_small by lia. lia. }
  assert (Hq2 : _queue w2 = [(packKey p2 (_skippedKey w + 1), SkippedUpdate)]).
  { unfold w2, w1. cbn -[packKey uint32 Z.add int32 Z.max]. unfold next_key.
    cbn -[packKey uint32 Z.add int32 Z.max]. rewrite Hq, Hk1. reflexivity. }
  assert (Hu2 : _updateQueue w2 = [(packKey p2 (_skippedKey w + 1), b)]).
  { unfold w2, w1. cbn -[packKey uint32 Z.add int32 Z.max]. unfold next_key.
    cbn -[packKey uint32 Z.add int32 Z.max]. rewrite Hu, Hk1. reflexivity. }
  assert (Hsk2 : _skippedKey w2 = _skippedKey w + 1).
  { unfold w2, w1. cbn -[packKey uint32 Z.add int32 Z.max]. exact Hk1. }
  rewrite Hw2, Hq2. cbn [negb orb QMap.isEmpty].
  rewrite applySkippedUpdates_flush by reflexivity.
  cbn [state events fst snd].
  assert (Hnk : next_key p1 w2 = packKey p1 (_skippedKey w + 2)).
  { unfold next_key. rewrite Hsk2, Hk2. reflexivity. }
  assert (Hqb : _queue (buffered_update p1 a w2) =
                [(packKey p1 (_skippedKey w + 2), SkippedUpdate);
                 (packKey p2 (_skippedKey w + 1), SkippedUpdate)]).
  { cbn [buffered_update _queue set_updateQueue set_queue].
    rewrite Hnk, Hq2. cbn [QMap.insert]. rewrite Hlt. reflexivity. }
  assert (Hub : _updateQueue (buffered_update p1 a w2) =
                [(packKey p1 (_skippedKey w + 2), a);
                 (packKey p2 (_skippedKey w + 1), b)]).
  { cbn [buffered_update _updateQueue set_updateQueue set_queue].
    rewrite Hnk, Hu2. cbn [QMap.insert]. rewrite Hlt. reflexivity. }
  rewrite Hqb. cbn [QMap.isEmpty map].
  split; [reflexivity |]. split.
  { cbn [app]. rewrite applied_updates_app.
    rewrite (applied_updates_timer _ (cancel_events_timer _)). cbn [app].
    unfold entry_event, QMap.value. cbn [fst snd]. rewrite Hub.
    cbn [QMap.find]. rewrite Z.eqb_refl.
    assert (Hne : (packKey p2 (_skippedKey w + 1) =? packKey p1 (_skippedKey w + 2)) = false).
    { apply Z.eqb_neq. apply Z.ltb_lt in Hlt. lia. }
    rewrite Hne, Z.eqb_refl. reflexivity. }
  cbn -[packKey uint32 Z.add int32 Z.max].
  repeat split; try reflexivity; lia.
Qed.


(** ** Properties kept along a run while the counter has room *)

Lemma counter_room_next w :
  counter_room w ->
  keys_below w /\ 0 <= _skippedKey w /\ _skippedKey w + 1 < 2 ^ 32.
Proof.
  intros [Hs [Hk Hc]]. split; [exact Hk |]. split; [exact Hs |].
  unfold slack, INT32_MAX in Hc. destruct (inited w).
  - destruct Hc as [Hr Hle]. destruct (QMap.isEmpty (_queue w)); lia.
  - destruct Hc as [-> _]. lia.
Qed.

Section Closed.

Variable Q : PtsWaiter -> Prop.
Hypothesis HQ : closed Q.

Lemma closed_flush w : Q w -> Q (state (applySkippedUpdates w)).
Proof.
  destruct HQ as [_ [_ [_ [Hf [_ Hc]]]]]. intros H.
  destruct (flush_state w) as [-> | [[_ ->] | ->]]; auto.
Qed.

Lemma closed_prim strict w c w' bound :
  prim strict w c w' -> bound + Z.of_nat c < 2 ^ 32 ->
  counter_ok bound w -> Q w -> Q w'.
Proof.
  destruct HQ as [Hck [Hbu [Hbus [Hf [Hsp Hc]]]]].
  intros Hp Hb [Hs Hk] H. destruct Hp.
  - now apply Hck.
  - cbn [Z.of_nat Pos.of_succ_nat] in Hb. apply Hbu; auto; lia.
  - cbn [Z.of_nat Pos.of_succ_nat] in Hb. apply Hbus; auto; lia.
  - now apply closed_flush.
  - now apply Hc.
  - rewrite setWaitingForSkipped_state. now apply Hf.
  - rewrite setWaitingForShortPoll_state. now apply Hsp.
Qed.

Lemma closed_prims strict n w w' :
  prims strict n w w' ->
  forall bound, bound + Z.of_nat n < 2 ^ 32 ->
  counter_ok bound w -> Q w -> Q w'.
Proof.
  induction 1 as [| c n w w1 w2 Hp Hps IH]; intros bound Hb Hc H; [exact H |].
  rewrite Nat2Z.inj_add in Hb.
  apply (IH (bound + Z.of_nat c)); [lia | |].
  - eapply prim_counter_ok; [exact Hp | lia | exact Hc].
  - eapply closed_prim; [exact Hp | | exact Hc | exact H]. lia.
Qed.

Lemma closed_after_check pts count w :
  counter_room w -> Q w -> check_ok pts count w ->
  Q (state (check pts count w)) /\
  keys_below (state (check pts count w)) /\
  0 <= _skippedKey (state (check pts count w)) /\
  _skippedKey (state (check pts count w)) + 1 < 2 ^ 32.
Proof.
  destruct HQ as [Hck _]. intros Hroom H Hok.
  split; [now apply Hck |].
  destruct (room_check pts count w Hroom Hok) as [Hr _].
  now apply counter_room_next.
Qed.

Lemma closed_updated_updates pts count updates w :
  counter_room w -> Q w -> ingest_ok pts count w ->
  Q (state (updated_updates pts count updates w)).
Proof.
  destruct HQ as [_ [_ [Hbus _]]]. intros Hroom H Hok.
  destruct (busy w) eqn:Hb; [now rewrite updated_updates_busy |].
  destruct (is_duplicate w pts count) eqn:Hd; [now rewrite updated_updates_duplicate |].
  rewrite updated_updates_checked by assumption. cbn [state fst snd].
  destruct (closed_after_check pts count w Hroom H (Hok Hb Hd)) as [H1 [Hk [H0 Hn]]].
  destruct (result (check pts count w)); [exact H1 | now apply Hbus].
Qed.

Lemma closed_updated_update pts count update w :
  counter_room w -> Q w -> ingest_ok pts count w ->
  Q (state (updated_update pts count update w)).
Proof.
  destruct HQ as [_ [Hbu _]]. intros Hroom H Hok.
  destruct (busy w) eqn:Hb; [now rewrite updated_update_busy |].
  destruct (is_duplicate w pts count) eqn:Hd; [now rewrite updated_update_duplicate |].
  rewrite updated_update_checked by assumption. cbn [state fst snd].
  destruct (closed_after_check pts count w Hroom H (Hok Hb Hd)) as [H1 [Hk [H0 Hn]]].
  destruct (result (check pts count w)); [exact H1 | now apply Hbu].
Qed.

Lemma closed_updated pts count w :
  counter_room w -> Q w -> ingest_ok pts count w ->
  Q (state (updated pts count w)).
Proof.
  destruct HQ as [Hck _]. intros Hroom H Hok.
  destruct (updated_small pts count w) as [w' [[-> | ->] ->]]; [exact H |].
  now apply Hck.
Qed.

Lemma closed_perform op w :
  counter_room w -> Q w -> op_ok op w -> Q (state (perform op w)).
Proof.
  destruct HQ as [Hck [Hbu [Hbus [Hf [Hsp Hc]]]]].
  intros Hroom H Hok. destruct op; cbn [perform op_ok] in *; rewrite ?state_discard.
  - now apply closed_updated_updates.
  - now apply closed_updated_update.
  - now apply closed_updated.
  - pose proof (closed_updated_updates pts count updates w Hroom H Hok) as H1.
    pose proof (room_updated_updates pts count updates w Hroom Hok) as R1.
    rewrite updateAndApply_updates_eq. cbv zeta.
    set (w1 := state (updated_updates pts count updates w)) in *.
    destruct (result (updated_updates pts count updates w)); [| exact H1].
    destruct (negb (_waitingForSkipped w1) || QMap.isEmpty (_queue w1)); [exact H1 |].
    cbn [state fst snd]. apply closed_flush.
    destruct (counter_room_next w1 R1) as [Hk [H0 Hn]]. now apply Hbus.
  - pose proof (closed_updated_update pts count update w Hroom H Hok) as H1.
    pose proof (room_updated_update pts count update w Hroom Hok) as R1.
    rewrite updateAndApply_update_eq. cbv zeta.
    set (w1 := state (updated_update pts count update w)) in *.
    destruct (result (updated_update pts count update w)); [| exact H1].
    destruct (negb (_waitingForSkipped w1) || QMap.isEmpty (_queue w1)); [exact H1 |].
    cbn [state fst snd]. apply closed_flush.
    destruct (counter_room_next w1 R1) as [Hk [H0 Hn]]. now apply Hbu.
  - pose proof (closed_updated pts count w Hroom H Hok) as H1.
    rewrite updateAndApply_eq. cbv zeta.
    destruct (result (updated pts count w)); cbn [state fst snd];
      [now apply closed_flush | exact H1].
  - now apply closed_flush.
  - rewrite clearSkippedUpdates_eq. now apply Hc.
  - rewrite setWaitingForSkipped_state. now apply Hf.
  - rewrite setWaitingForShortPoll_state. now apply Hsp.
Qed.

Lemma closed_run_ok ops : forall w,
  counter_room w -> Q w -> run_ok ops w -> Q (state (run ops w)).
Proof.
  induction ops as [| op ops IH]; intros w Hroom H Hok; [exact H |].
  destruct Hok as [Hop Hrest]. rewrite run_cons.
  apply IH; [now apply room_perform | now apply closed_perform | exact Hrest].
Qed.

Lemma closed_run w0 ops :
  fresh w0 -> Q w0 ->
  run_ok ops w0 \/ Z.of_nat (length ops) < 2 ^ 32 - 1 ->
  Q (state (run ops w0)).
Proof.
  intros Hf H [Hok | Hlen].
  - apply closed_run_ok; [now apply fresh_room | exact H | exact Hok].
  - destruct (run_prims false ops w0) as [n [Hn Hps]]; [discriminate |].
    apply (closed_prims false n w0 _ Hps 0); [lia | now apply fresh_counter_ok | exact H].
Qed.

End Closed.


(** ** The payload maps follow the queue *)

Lemma keys_insert {V} k (v : V) m : QMap.keys (QMap.insert k v m) = kins k (QMap.keys m).
Proof.
  unfold QMap.keys.
  induction m as [| [k0 v0] m IH]; [reflexivity |].
  cbn. destruct (k <? k0); [reflexivity |].
  destruct (k =? k0); [reflexivity |]. cbn. now rewrite IH.
Qed.

Lemma kins_below k l : Forall (fun x => k < x) l -> kins k l = k :: l.
Proof.
  destruct l as [| x l]; [reflexivity |].
  intros H. inversion H as [| ? ? Hx _]; subst.
  cbn. apply Z.ltb_lt in Hx. now rewrite Hx.
Qed.

Lemma filter_keys_above {V} k (P : Z * V -> bool) (m : QMap.t V) :
  Forall (fun x => k < x) (QMap.keys m) ->
  Forall (fun x => k < x) (QMap.keys (filter P m)).
Proof.
  induction m as [| i m IH]; [constructor |].
  intros H. inversion H as [| ? ? Hx Hm]; subst. cbn.
  destruct (P i); [constructor |]; auto.
Qed.

Lemma filter_insert_keys {V} k (v : V) (P : Z * V -> bool) (m : QMap.t V) :
  (forall k1 k2 x, P (k1, x) = P (k2, x)) ->
  QMap.sorted m -> ~ In k (QMap.keys m) ->
  QMap.keys (filter P (QMap.insert k v m)) =
  if P (k, v) then kins k (QMap.keys (filter P m)) else QMap.keys (filter P m).
Proof.
  intros HP. unfold QMap.sorted.
  induction m as [| [k0 v0] m IH]; intros Hs Hn.
  - cbn. destruct (P (k, v)); reflexivity.
  - inversion Hs as [| ? ? Hs' Hall]; subst.
    cbn [QMap.insert]. destruct (k <? k0) eqn:Hlt.
    + apply Z.ltb_lt in Hlt.
      assert (Hab : Forall (fun x => k < x) (QMap.keys ((k0, v0) :: m))).
      { constructor; [exact Hlt |]. eapply Forall_impl; [| exact Hall].
        cbn. intros; lia. }
      cbn [filter]. destruct (P (k, v)); [| reflexivity].
      symmetry. apply kins_below.
      apply (filter_keys_above k P ((k0, v0) :: m) Hab).
    + destruct (k =? k0) eqn:Heq.
      { apply Z.eqb_eq in Heq. subst k0. exfalso. apply Hn. now left. }
      assert (Hn' : ~ In k (QMap.keys m)) by (intros Hin; apply Hn; now right).
      specialize (IH Hs' Hn'). cbn [filter].
      destruct (P (k0, v0)) eqn:Hp0.
      * unfold QMap.keys in *. cbn [map fst].
        rewrite IH. destruct (P (k, v)); [| reflexivity].
        cbn [kins]. now rewrite Hlt, Heq.
      * exact IH.
Qed.

Lemma is_kind_key kind k1 k2 x : is_kind kind (k1, x) = is_kind kind (k2, x).
Proof. reflexivity. Qed.

Lemma next_key_fresh pts w :
  keys_below w -> 0 <= _skippedKey w -> _skippedKey w + 1 < 2 ^ 32 ->
  ~ In (next_key pts w) (QMap.keys (_queue w)).
Proof.
  intros Hk H0 Hn Hin. unfold keys_below in Hk. rewrite Forall_forall in Hk.
  specialize (Hk _ Hin). cbv beta in Hk. unfold next_key in Hk.
  rewrite (uint32_small (_skippedKey w + 1)) in Hk by lia.
  rewrite packKey_seq in Hk by lia. lia.
Qed.

Lemma stored_ok_closed : closed stored_ok.
Proof.
  unfold closed, stored_ok, queue_keys.
  split; [| split; [| split; [| split; [| split]]]].
  - intros w pts count H.
    destruct (check_frame pts count w) as [-> [-> [-> _]]]. exact H.
  - intros w pts update [Hq [Hu [Hus [Ha Has]]]] Hk H0 Hn.
    pose proof (next_key_fresh pts w Hk H0 Hn) as Hfresh.
    cbn [buffered_update _queue _updateQueue _updatesQueue set_updateQueue
         set_queue set_skippedKey].
    split; [now apply insert_sorted |]. split; [now apply insert_sorted |].
    split; [exact Hus |].
    rewrite !filter_insert_keys by (auto using is_kind_key).
    cbn [is_kind snd]. rewrite keys_insert, Ha. auto.
  - intros w pts updates [Hq [Hu [Hus [Ha Has]]]] Hk H0 Hn.
    pose proof (next_key_fresh pts w Hk H0 Hn) as Hfresh.
    cbn [buffered_updates _queue _updateQueue _updatesQueue set_updatesQueue
         set_queue set_skippedKey].
    split; [now apply insert_sorted |]. split; [exact Hu |].
    split; [now apply insert_sorted |].
    rewrite !filter_insert_keys by (auto using is_kind_key).
    cbn [is_kind snd]. rewrite keys_insert, Has. auto.
  - intros w b H. exact H.
  - intros w b H. exact H.
  - intros w _. cbn. repeat split; constructor.
Qed.

Lemma fresh_stored_ok w : fresh w -> stored_ok w.
Proof.
  intros [_ [Hq [Hu [Hus _]]]]. unfold stored_ok, queue_keys.
  rewrite Hq, Hu, Hus. cbn. repeat split; constructor.
Qed.

Lemma run_stored_ok w0 ops :
  fresh w0 ->
  run_ok ops w0 \/ Z.of_nat (length ops) < 2 ^ 32 - 1 ->
  stored_ok (state (run ops w0)).
Proof.
  intros Hf Hrun.
  apply (closed_run stored_ok stored_ok_closed w0 ops Hf); [| exact Hrun].
  now apply fresh_stored_ok.
Qed.

Lemma values_of_sorted {V} (d : V) (m : QMap.t V) :
  QMap.sorted m -> map (fun k => QMap.value d k m) (QMap.keys m) = map snd m.
Proof.
  unfold QMap.sorted, QMap.value.
  induction m as [| [k0 v0] m IH]; intros Hs; [reflexivity |].
  inversion Hs as [| ? ? Hs' Hall]; subst.
  cbn [QMap.keys map fst snd QMap.find]. rewrite Z.eqb_refl. f_equal.
  rewrite <- (IH Hs'). apply map_ext_in. intros k Hk.
  rewrite Forall_forall in Hall. specialize (Hall k Hk).
  assert ((k =? k0) = false) as -> by (apply Z.eqb_neq; lia). reflexivity.
Qed.

Lemma applied_updates_entries w q :
  applied_updates (map (entry_event w) q) =
  map (fun k => QMap.value MTPUpdate_default k (_updateQueue w))
      (QMap.keys (filter (is_kind SkippedUpdate) q)).
Proof.
  induction q as [| [k kind] q IH]; [reflexivity |].
  destruct kind; cbn; now rewrite IH.
Qed.

Lemma applied_batches_entries w q :
  applied_batches (map (entry_event w) q) =
  map (fun k => QMap.value MTPUpdates_default k (_updatesQueue w))
      (QMap.keys (filter (is_kind SkippedUpdates) q)).
Proof.
  induction q as [| [k kind] q IH]; [reflexivity |].
  destruct kind; cbn; now rewrite IH.
Qed.

Lemma length_by_kind (q : QMap.t PtsSkippedQueue) :
  length q = (length (filter (is_kind SkippedUpdate) q) +
              length (filter (is_kind SkippedUpdates) q))%nat.
Proof.
  induction q as [| [k kind] q IH]; [reflexivity |].
  destruct kind; cbn; lia.
Qed.

(** X7.  In every state reached from a new waiter while the insertion counter
    has room (a run within the contract of the caller, or fewer than
    2^32 - 1 operations), a flush hands over exactly what is stored, once
    each: the single updates given to the applier are the values of
    [_updateQueue], the batches are the values of [_updatesQueue], both in
    key order; the queue has one entry for each of them; and after the
    flush the three maps are empty. *)
Theorem flush_applies_each_stored_payload_once w0 ops :
  fresh w0 ->
  run_ok ops w0 \/ Z.of_nat (length ops) < 2 ^ 32 - 1 ->
  let w := state (run ops w0) in
  _waitingForSkipped w = true ->
  let r := applySkippedUpdates w in
  applied_updates (events r) = map snd (_updateQueue w) /\
  applied_batches (events r) = map snd (_updatesQueue w) /\
  length (_queue w) = (length (_updateQueue w) + length (_updatesQueue w))%nat /\
  _queue (state r) = [] /\ _updateQueue (state r) = [] /\ _updatesQueue (state r) = [].
Proof.
  intros Hf Hrun w Hw r.
  destruct (run_stored_ok w0 ops Hf Hrun) as [Hq [Hu [Hus [Ha Has]]]].
  fold w in Hq, Hu, Hus, Ha, Has. unfold queue_keys in Ha, Has.
  subst r. rewrite applySkippedUpdates_flush by exact Hw.
  cbn [state events fst snd].
  split.
  { rewrite applied_updates_app, (applied_updates_timer _ (cancel_events_timer _)).
    cbn [app]. rewrite applied_updates_entries, Ha. now apply values_of_sorted. }
  split.
  { rewrite applied_batches_app, (applied_batches_timer _ (cancel_events_timer _)).
    cbn [app]. rewrite applied_batches_entries, Has. now apply values_of_sorted. }
  split.
  { rewrite (length_by_kind (_queue w)).
    rewrite <- (length_map fst (filter (is_kind SkippedUpdate) (_queue w))).
    rewrite <- (length_map fst (filter (is_kind SkippedUpdates) (_queue w))).
    fold (QMap.keys (filter (is_kind SkippedUpdate) (_queue w))).
    fold (QMap.keys (filter (is_kind SkippedUpdates) (_queue w))).
    rewrite Ha, Has. unfold QMap.keys. now rewrite !length_map. }
  destruct (_queue w) as [| i q] eqn:Hqe; cbn [QMap.isEmpty].
  - cbn in Ha, Has. cbn.
    destruct (_updateQueue w); [| discriminate].
    destruct (_updatesQueue w); [| discriminate]. auto.
  - cbn. auto.
Qed.

Lemma insert_length_fresh {V} k (v : V) m :
  ~ In k (QMap.keys m) -> length (QMap.insert k v m) = S (length m).
Proof.
  induction m as [| [k0 v0] m IH]; intros Hn; [reflexivity |].
  cbn. destruct (k <? k0); [reflexivity |].
  destruct (k =? k0) eqn:Heq.
  - apply Z.eqb_eq in Heq. subst. exfalso. apply Hn. now left.
  - cbn. rewrite IH; [reflexivity |]. intros Hin. apply Hn. now right.
Qed.

Lemma find_some_key {V} k (v : V) m : QMap.find k m = Some v -> In k (QMap.keys m).
Proof.
  induction m as [| [k0 v0] m IH]; [discriminate |].
  cbn. destruct (k =? k0) eqn:Heq.
  - apply Z.eqb_eq in Heq. auto.
  - auto.
Qed.

Lemma filter_keys_incl {V} (P : Z * V -> bool) (m : QMap.t V) k :
  In k (QMap.keys (filter P m)) -> In k (QMap.keys m).
Proof.
  unfold QMap.keys. rewrite !in_map_iff. intros [i [Hi Hin]].
  apply filter_In in Hin. exists i. tauto.
Qed.

(** X8.  In every such state, an update that [updated] holds back - it returns
    false for an update that is no duplicate - is stored under a new key:
    it is found under that key, the queue has one entry more, and every
    payload that was stored before is still found under its key. *)
Theorem held_back_update_is_stored w0 ops pts count update :
  fresh w0 ->
  run_ok ops w0 \/ Z.of_nat (length ops) < 2 ^ 32 - 1 ->
  let w := state (run ops w0) in
  let r := updated_update pts count update w in
  result r = false ->
  is_duplicate w pts count = false ->
  QMap.find (next_key pts w) (_updateQueue (state r)) = Some update /\
  In (next_key pts w, SkippedUpdate) (_queue (state r)) /\
  length (_queue (state r)) = S (length (_queue w)) /\
  (forall k v, QMap.find k (_updateQueue w) = Some v ->
               QMap.find k (_updateQueue (state r)) = Some v) /\
  (forall k v, QMap.find k (_updatesQueue w) = Some v ->
               QMap.find k (_updatesQueue (state r)) = Some v).
Proof.
  intros Hf Hrun w r Hres Hd.
  assert (Hreach : reachable w).
  { apply reachable_run. now apply reachable_fresh. }
  destruct (reachable_idle w Hreach) as [Hrq Hlv].
  pose proof (idle_not_busy w Hrq Hlv) as Hb.
  destruct (run_stored_ok w0 ops Hf Hrun) as [Hq [Hu [Hus [Ha Has]]]].
  fold w in Hq, Hu, Hus, Ha, Has.
  destruct (counter_has_room w0 ops Hf) as [H0 [Hn Hk]]; [tauto |].
  fold w in H0, Hn, Hk.
  pose proof (next_key_fresh pts w Hk H0 Hn) as Hfresh.
  destruct (check_frame pts count w) as [Eq [Eu [Eus [Es _]]]].
  subst r. rewrite updated_update_checked in * by assumption.
  cbn [result state fst snd] in *. rewrite Hres.
  set (w1 := state (check pts count w)) in *.
  assert (Enk : next_key pts w1 = next_key pts w) by (unfold next_key; now rewrite Es).
  cbn [buffered_update _queue _updateQueue _updatesQueue set_updateQueue set_queue
       set_skippedKey].
  rewrite Enk, Eq, Eu, Eus.
  split; [apply find_insert_same |]. split; [apply insert_In_new |].
  split; [now apply insert_length_fresh |]. split.
  - intros k v Hfind. rewrite find_insert_other; [exact Hfind |].
    intros ->. apply Hfresh. apply find_some_key in Hfind.
    rewrite <- Ha in Hfind. unfold queue_keys in Hfind.
    now apply filter_keys_incl in Hfind.
  - auto.
Qed.

End Waiter.

(** * The scenarios, run

    Payloads are numbers, [App::main()] exists and the standard timeout is
    one second. *)

Local Abbreviation new_waiter := (fresh0 Z Z).
Local Abbreviation run' := (run Z Z 0 0 true 1000).
Local Abbreviation flush' := (applySkippedUpdates Z Z 0 0 true).
Local Abbreviation check' := (check Z Z true 1000).
Local Abbreviation updated_update' := (updated_update Z Z true 1000).
Local Abbreviation updateAndApply_update' := (updateAndApply_update Z Z 0 0 true 1000).
Local Abbreviation state' := (state Z Z).
Local Abbreviation events' := (events Z Z).
Local Abbreviation result' := (result Z Z).
Local Abbreviation Start ms := (StartTimer Z Z ms).
Local Abbreviation Apply u := (ApplyUpdate Z Z u).

Lemma fresh_new_waiter : fresh Z Z new_waiter.
Proof. unfold fresh. repeat split. Defined.

Lemma timeout_nonneg : 0 <= 1000.
Proof. discriminate. Defined.


(** Gap then fill: each payload is its own pts.  The update with pts 110
    is held back; the update with pts 105 closes the gap and is applied
    first, then the one held back. *)
Lemma gap_then_fill_order :
  applied_updates Z Z
    (events' (run' (gap_then_fill Z Z 100 110 105) new_waiter)) = [100; 105; 110] /\
  _good Z Z (state' (run' (gap_then_fill Z Z 100 110 105) new_waiter)) = 110 /\
  _queue Z Z (state' (run' (gap_then_fill Z Z 100 110 105) new_waiter)) = [].
Proof. repeat split. Qed.

(** C2, counterexample.  With an update queued and both reasons to wait
    set, [applySkippedUpdates] hands the queued update to the applier
    although [_waitingForShortPoll] is set before and after it. *)
Lemma flush_despite_short_poll :
  _waitingForSkipped Z Z (state' (run' (gap_and_poll Z Z 1 2) new_waiter)) = true /\
  _waitingForShortPoll Z Z (state' (run' (gap_and_poll Z Z 1 2) new_waiter)) = true /\
  events' (flush' (state' (run' (gap_and_poll Z Z 1 2) new_waiter))) = [Apply 2] /\
  _queue Z Z (state' (flush' (state' (run' (gap_and_poll Z Z 1 2) new_waiter)))) = [] /\
  _waitingForShortPoll Z Z
    (state' (flush' (state' (run' (gap_and_poll Z Z 1 2) new_waiter)))) = true.
Proof. repeat split. Qed.



(** C4, counterexample.  The waiter is initialized at 110 and no flush is
    running, but a request is in flight: the stale update with pts 100 and
    count 1 is reported as applied, and [updateAndApply] applies it. *)
Lemma stale_update_applied_while_requesting :
  initialized Z Z (resyncing Z Z) = true /\
  _applySkippedLevel Z Z (resyncing Z Z) = 0 /\
  100 <= _good Z Z (resyncing Z Z) /\
  updated_update' 100 1 7 (resyncing Z Z) = (true, resyncing Z Z, []) /\
  updateAndApply_update' 100 1 7 (resyncing Z Z) = (true, resyncing Z Z, [Apply 7]).
Proof. repeat split. discriminate. Qed.

Lemma duplicate_discarded_witness :
  _requesting Z Z (state' (run' (gap_closed Z Z 1 2 3) new_waiter)) = false /\
  _applySkippedLevel Z Z (state' (run' (gap_closed Z Z 1 2 3) new_waiter)) = 0 /\
  105 <= _good Z Z (state' (run' (gap_closed Z Z 1 2 3) new_waiter)) /\
  0 < 5 /\
  updateAndApply_update' 105 5 9 (state' (run' (gap_closed Z Z 1 2 3) new_waiter)) =
  (false, state' (run' (gap_closed Z Z 1 2 3) new_waiter), []).
Proof.
  assert (Hle : 105 <= _good Z Z (state' (run' (gap_closed Z Z 1 2 3) new_waiter)))
    by discriminate.
  destruct (duplicate_discarded Z Z 0 0 true 1000 105 5
              (state' (run' (gap_closed Z Z 1 2 3) new_waiter))
              eq_refl eq_refl Hle eq_refl) as [_ [_ [_ [_ [H _]]]]].
  split; [reflexivity |]. split; [reflexivity |]. split; [exact Hle |].
  split; [reflexivity | exact (H 9)].
Defined.

Lemma check_initialized_witness :
  inited Z Z (settled Z Z) = true /\
  _last Z Z (state' (check' 110 5 (settled Z Z))) = 110 /\
  _count Z Z (state' (check' 110 5 (settled Z Z))) = 105 /\
  events' (check' 110 5 (settled Z Z)) = [Start 1000] /\
  _waitingForSkipped Z Z (state' (check' 110 5 (settled Z Z))) = true /\
  result' (check' 110 5 (settled Z Z)) = false.
Proof.
  destruct (check_initialized Z Z true 1000 timeout_nonneg 110 5 (settled Z Z) eq_refl)
    as [Hl [Hc [_ [_ [_ Hlong]]]]].
  destruct Hlong as [He [Hw [_ [Hres _]]]]; [reflexivity |].
  split; [reflexivity |]. split; [exact Hl |]. split; [exact Hc |].
  split; [exact He |]. split; [exact Hw |]. apply Hres. reflexivity.
Defined.

Lemma updated_while_busy_witness :
  (_requesting Z Z (flushing Z Z) = true \/ 0 < _applySkippedLevel Z Z (flushing Z Z)) /\
  updated_update' 100 1 9 (flushing Z Z) = (true, flushing Z Z, []) /\
  updateAndApply_update' 100 1 9 (flushing Z Z) = (true, flushing Z Z, [Apply 9]).
Proof.
  assert (Hb : _requesting Z Z (flushing Z Z) = true \/
               0 < _applySkippedLevel Z Z (flushing Z Z)) by (right; reflexivity).
  destruct (updated_while_busy Z Z 0 0 true 1000 100 1 (flushing Z Z) Hb)
    as [_ [Hu [_ [_ [_ Hidle]]]]].
  destruct (Hidle eq_refl) as [_ [Ha _]].
  split; [exact Hb |]. split; [exact (Hu 9) | exact (Ha 9)].
Defined.

(** C8, counterexample.  Both waiting flags are set before
    [clearSkippedUpdates] and both are still set after it. *)
Lemma clear_keeps_waiting_flags :
  _waitingForSkipped Z Z (state' (run' (gap_and_poll Z Z 1 2) new_waiter)) = true /\
  _waitingForShortPoll Z Z (state' (run' (gap_and_poll Z Z 1 2) new_waiter)) = true /\
  _waitingForSkipped Z Z
    (state' (clearSkippedUpdates Z Z
               (state' (run' (gap_and_poll Z Z 1 2) new_waiter)))) = true /\
  _waitingForShortPoll Z Z
    (state' (clearSkippedUpdates Z Z
               (state' (run' (gap_and_poll Z Z 1 2) new_waiter)))) = true.
Proof. repeat split. Qed.

Lemma reachable_good_le_last_witness :
  reachable Z Z 0 0 true 1000 (state' (run' (gap_closed Z Z 1 2 3) new_waiter)) /\
  inited Z Z (state' (run' (gap_closed Z Z 1 2 3) new_waiter)) = true /\
  _good Z Z (state' (run' (gap_closed Z Z 1 2 3) new_waiter)) <=
  _last Z Z (state' (run' (gap_closed Z Z 1 2 3) new_waiter)).
Proof.
  assert (Hr : reachable Z Z 0 0 true 1000
                 (state' (run' (gap_closed Z Z 1 2 3) new_waiter))).
  { apply reachable_run. apply reachable_fresh. exact fresh_new_waiter. }
  split; [exact Hr |]. split; [reflexivity |].
  exact (reachable_good_le_last Z Z 0 0 true 1000 timeout_nonneg _ Hr eq_refl).
Defined.

(** C10, counterexample.  The first update a new waiter is given has pts -5
    and count 1: it is taken for a duplicate, [updated] returns false, the
    applier is not called and the waiter is still not initialized. *)
Lemma first_update_discarded :
  inited Z Z new_waiter = false /\
  updated_update' (-5) 1 7 new_waiter = (false, new_waiter, []) /\
  updateAndApply_update' (-5) 1 7 new_waiter = (false, new_waiter, []).
Proof. repeat split. Qed.

Lemma baseline_established_witness :
  inited Z Z new_waiter = false /\
  check' 100 5 new_waiter = (true, settled Z Z, []) /\
  updated_update' 100 5 7 new_waiter = (true, settled Z Z, []).
Proof.
  destruct (baseline_established Z Z true 1000 100 5 new_waiter eq_refl)
    as [Hc [_ [_ [_ Hu]]]].
  destruct (Hu eq_refl eq_refl) as [_ [Hu' _]]; [left; reflexivity |].
  split; [reflexivity |]. split; [exact Hc | exact (Hu' 7)].
Defined.


(** ** Further scenarios *)

(** The first update of a new waiter is applied. *)
Lemma updateAndApply_result_is_applied_witness :
  0 <= 1000 /\
  result' (updateAndApply_update' 100 5 7 new_waiter) = true /\
  In (Apply 7) (events' (updateAndApply_update' 100 5 7 new_waiter)).
Proof.
  destruct (updateAndApply_result_is_applied Z Z 0 0 true 1000 timeout_nonneg
              100 5 new_waiter) as [H _].
  destruct (H 7) as [Happlied _].
  split; [exact timeout_nonneg |]. split; [reflexivity | exact (Happlied eq_refl)].
Defined.

(** From the baseline 100, a buffered update and a flush. *)
Lemma watermark_never_goes_back_witness :
  reachable Z Z 0 0 true 1000 (settled Z Z) /\
  inited Z Z (settled Z Z) = true /\
  inited Z Z (state' (run' (gap_then_fill Z Z 1 2 3) (settled Z Z))) = true /\
  100 <= _good Z Z (state' (run' (gap_then_fill Z Z 1 2 3) (settled Z Z))) /\
  100 <= _last Z Z (state' (run' (gap_then_fill Z Z 1 2 3) (settled Z Z))).
Proof.
  assert (Hr : reachable Z Z 0 0 true 1000 (settled Z Z)).
  { change (settled Z Z)
      with (state' (run' [OpUpdatedUpdate Z Z 100 5 1] new_waiter)).
    apply reachable_run. apply reachable_fresh. exact fresh_new_waiter. }
  split; [exact Hr |]. split; [reflexivity |].
  exact (watermark_never_goes_back Z Z 0 0 true 1000 timeout_nonneg (settled Z Z)
           (gap_then_fill Z Z 1 2 3) Hr eq_refl).
Defined.

(** An update at 100 stays stale after the waiter has moved on to 110. *)
Lemma stale_update_stays_stale_witness :
  reachable Z Z 0 0 true 1000 (settled Z Z) /\
  inited Z Z (settled Z Z) = true /\
  100 <= _good Z Z (settled Z Z) /\
  0 < 5 /\
  updateAndApply_update' 100 5 9
    (state' (run' (gap_then_fill Z Z 1 2 3) (settled Z Z))) =
  (false, state' (run' (gap_then_fill Z Z 1 2 3) (settled Z Z)), []).
Proof.
  assert (Hr : reachable Z Z 0 0 true 1000 (settled Z Z)).
  { change (settled Z Z)
      with (state' (run' [OpUpdatedUpdate Z Z 100 5 1] new_waiter)).
    apply reachable_run. apply reachable_fresh. exact fresh_new_waiter. }
  assert (Hle : 100 <= _good Z Z (settled Z Z)) by discriminate.
  destruct (stale_update_stays_stale Z Z 0 0 true 1000 timeout_nonneg (settled Z Z)
              (gap_then_fill Z Z 1 2 3) 100 5 Hr eq_refl Hle eq_refl)
    as [_ [_ [_ [_ [H _]]]]].
  split; [exact Hr |]. split; [reflexivity |]. split; [exact Hle |].
  split; [reflexivity | exact (H 9)].
Defined.

(** A jump to 110 without a payload sets the waiter waiting and stores
    nothing. *)
Lemma updated_without_payload_stores_nothing_witness :
  0 <= 1000 /\
  _waitingForSkipped Z Z
    (state' (updated Z Z true 1000 110 5 (settled Z Z))) = true /\
  _queue Z Z (state' (updated Z Z true 1000 110 5 (settled Z Z))) = [] /\
  _skippedKey Z Z (state' (updated Z Z true 1000 110 5 (settled Z Z))) = 0.
Proof.
  destruct (updated_without_payload_stores_nothing Z Z 0 0 true 1000 timeout_nonneg
              110 5 (settled Z Z)) as [[Hq [_ [_ Hk]]] _].
  split; [exact timeout_nonneg |]. split; [reflexivity |].
  split; [exact Hq | exact Hk].
Defined.

(** The keys of pts -1 and of pts 5. *)
Lemma packKey_unpacks_witness :
  in_int32 (-1) /\ 0 <= 1 < 2 ^ 32 /\ in_int32 5 /\ 0 <= 2 < 2 ^ 32 /\
  int32 (key_pts (packKey (-1) 1)) = -1 /\ key_seq (packKey (-1) 1) = 1.
Proof.
  assert (H1 : in_int32 (-1)) by (unfold in_int32, INT32_MIN, INT32_MAX; lia).
  assert (H2 : 0 <= 1 < 2 ^ 32) by lia.
  assert (H3 : in_int32 5) by (unfold in_int32, INT32_MIN, INT32_MAX; lia).
  assert (H4 : 0 <= 2 < 2 ^ 32) by lia.
  destruct (packKey_unpacks (-1) 1 5 2 H1 H2 H3 H4) as [_ [Hp [Hc _]]].
  split; [exact H1 |]. split; [exact H2 |]. split; [exact H3 |].
  split; [exact H4 |]. split; [exact Hp | exact Hc].
Defined.

(** From the baseline 100: the update for 110 arrives before the one for
    105, and both are applied in the order of their pts. *)
Lemma out_of_order_pair_in_order_witness :
  inited Z Z (settled Z Z) = true /\
  idle Z Z (settled Z Z) /\
  100 + 5 + 5 = 110 /\
  result' (updateAndApply_update' 110 5 2 (settled Z Z)) = false /\
  result' (updateAndApply_update' 105 5 1
             (state' (updateAndApply_update' 110 5 2 (settled Z Z)))) = true /\
  applied_updates Z Z
    (events' (updateAndApply_update' 105 5 1
                (state' (updateAndApply_update' 110 5 2 (settled Z Z))))) = [1; 2].
Proof.
  assert (Hidle : idle Z Z (settled Z Z)) by (split; reflexivity).
  destruct (out_of_order_pair_in_order Z Z 0 0 true 1000 timeout_nonneg
              100 105 5 110 5 1 2 (settled Z Z)
              eq_refl Hidle eq_refl eq_refl eq_refl eq_refl eq_refl
              ltac:(discriminate) ltac:(reflexivity) ltac:(discriminate)
              ltac:(reflexivity) ltac:(reflexivity) ltac:(discriminate)
              ltac:(reflexivity) ltac:(reflexivity) eq_refl)
    as [H1 [_ [H2 [H3 _]]]].
  split; [reflexivity |]. split; [exact Hidle |]. split; [reflexivity |].
  split; [exact H1 |]. split; [exact H2 | exact H3].
Defined.

(** Two updates are held back; the flush hands over both, once each. *)
Lemma flush_applies_each_stored_payload_once_witness :
  fresh Z Z new_waiter /\
  Z.of_nat (length (tie Z Z 1 2 3)) < 2 ^ 32 - 1 /\
  _waitingForSkipped Z Z (state' (run' (tie Z Z 1 2 3) new_waiter)) = true /\
  applied_updates Z Z
    (events' (flush' (state' (run' (tie Z Z 1 2 3) new_waiter)))) = [2; 3] /\
  _queue Z Z (state' (flush' (state' (run' (tie Z Z 1 2 3) new_waiter)))) = [].
Proof.
  assert (Hlen : Z.of_nat (length (tie Z Z 1 2 3)) < 2 ^ 32 - 1) by reflexivity.
  destruct (flush_applies_each_stored_payload_once Z Z 0 0 true 1000 timeout_nonneg
              new_waiter (tie Z Z 1 2 3) fresh_new_waiter (or_intror Hlen) eq_refl)
    as [Hu [_ [_ [Hq _]]]].
  split; [exact fresh_new_waiter |]. split; [exact Hlen |]. split; [reflexivity |].
  split; [exact Hu | exact Hq].
Defined.

(** After the baseline 100, the update for 110 is held back and stored. *)
Lemma held_back_update_is_stored_witness :
  fresh Z Z new_waiter /\
  Z.of_nat (length [OpUpdatedUpdate Z Z 100 5 1]) < 2 ^ 32 - 1 /\
  result' (updated_update' 110 5 2
             (state' (run' [OpUpdatedUpdate Z Z 100 5 1] new_waiter))) = false /\
  is_duplicate Z Z (state' (run' [OpUpdatedUpdate Z Z 100 5 1] new_waiter)) 110 5
  = false /\
  QMap.find
    (next_key Z Z 110 (state' (run' [OpUpdatedUpdate Z Z 100 5 1] new_waiter)))
    (_updateQueue Z Z
       (state' (updated_update' 110 5 2
                  (state' (run' [OpUpdatedUpdate Z Z 100 5 1] new_waiter))))) =
  Some 2.
Proof.
  assert (Hlen : Z.of_nat (length [OpUpdatedUpdate Z Z 100 5 1]) < 2 ^ 32 - 1)
    by reflexivity.
  destruct (held_back_update_is_stored Z Z 0 0 true 1000 timeout_nonneg
              new_waiter [OpUpdatedUpdate Z Z 100 5 1] 110 5 2
              fresh_new_waiter (or_intror Hlen) eq_refl eq_refl) as [H _].
  split; [exact fresh_new_waiter |]. split; [exact Hlen |].
  split; [reflexivity |]. split; [reflexivity | exact H].
Defined.

(** * UserData *)

Section UserDataFacts.

Variable BotCommand BotInfoRest : Type.

Local Abbreviation User := (UserData.User BotCommand BotInfoRest).
Local Abbreviation madeAction := (UserData.madeAction BotCommand BotInfoRest).
Local Abbreviation onlineTill := (UserData.onlineTill BotCommand BotInfoRest).
Local Abbreviation onlineTime := (UserData.onlineTime BotCommand BotInfoRest).

Lemma madeAction_cases S when (u : User) :
  0 <= S -> in_int32 (when + 1) -> in_int32 (when + S) ->
  in_int32 (onlineTill u) -> in_int32 (- onlineTill u) ->
  (madeAction S when u = (u, []) /\
   (0 < when -> UserData.isBot _ _ u = false -> UserData.serviceUser _ _ u = false ->
    when <= onlineTime u /\ (onlineTill u <= 0 \/ when < onlineTill u))) \/
  (0 < when /\ onlineTill u <= 0 /\ - onlineTill u < when /\
   madeAction S when u =
   (UserData.set_onlineTill _ _ (- when - S) u, [UserData.UserOnlineChanged])) \/
  (0 < when /\ 0 < onlineTill u <= when /\
   madeAction S when u =
   (UserData.set_onlineTill _ _ (when + S) u, [UserData.UserOnlineChanged])).
Proof.
  unfold in_int32, INT32_MIN, INT32_MAX, UserData.onlineTime.
  intros HS Hw Hws Ho Hno.
  unfold UserData.madeAction.
  destruct (UserData.isBot _ _ u) eqn:Hbot; [left; split; [reflexivity | discriminate] |].
  destruct (UserData.serviceUser _ _ u) eqn:Hsvc;
    [left; split; [reflexivity | discriminate] |].
  cbn [orb].
  destruct (Z.leb_spec when 0) as [Hle | Hpos]; [left; split; [reflexivity | lia] |].
  rewrite (int32_small (- onlineTill u)) by (unfold in_int32, INT32_MIN, INT32_MAX; lia).
  rewrite (int32_small (- when)) by (unfold in_int32, INT32_MIN, INT32_MAX; lia).
  rewrite (int32_small (- when - S)) by (unfold in_int32, INT32_MIN, INT32_MAX; lia).
  rewrite (int32_small (when + S)) by (unfold in_int32, INT32_MIN, INT32_MAX; lia).
  rewrite (int32_small (when + 1)) by (unfold in_int32, INT32_MIN, INT32_MAX; lia).
  destruct (Z.leb_spec (onlineTill u) 0) as [Honp | Honpos]; cbn [andb].
  - destruct (Z.ltb_spec (- onlineTill u) when) as [Hlt | Hge].
    + right; left. repeat split; try lia.
    + assert ((0 <? onlineTill u) = false) as -> by (apply Z.ltb_ge; lia).
      left. split; [reflexivity |]. intros _ _ _. lia.
  - assert ((0 <? onlineTill u) = true) as -> by (apply Z.ltb_lt; lia).
    cbn [andb].
    destruct (Z.ltb_spec (onlineTill u) (when + 1)) as [Hlt | Hge].
    + right; right. repeat split; try lia.
    + left. split; [reflexivity |]. intros _ _ _. lia.
Qed.

(** X9.  [madeAction] only moves the online time forward.  With the sums in
    range, the sign of [onlineTill] is kept (positive stays positive,
    the rest stays non-positive) and its magnitude does not decrease.  A
    notification is sent exactly when [onlineTill] is written, and then the
    user is no bot and no service user, [when] is positive and the new
    magnitude is [when + SetOnlineAfterActivity]. *)
Theorem madeAction_moves_forward S when (u : User) :
  0 <= S -> in_int32 (when + 1) -> in_int32 (when + S) ->
  in_int32 (onlineTill u) -> in_int32 (- onlineTill u) ->
  let u' := fst (madeAction S when u) in
  let sent := snd (madeAction S when u) in
  (onlineTill u <= 0 -> onlineTill u' <= 0) /\
  (0 < onlineTill u -> 0 < onlineTill u') /\
  onlineTime u <= onlineTime u' /\
  UserData.botInfo _ _ u' = UserData.botInfo _ _ u /\
  UserData.serviceUser _ _ u' = UserData.serviceUser _ _ u /\
  (sent = [] /\ u' = u \/
   sent = [UserData.UserOnlineChanged] /\ onlineTime u' = when + S /\ 0 < when /\
   UserData.isBot _ _ u = false /\ UserData.serviceUser _ _ u = false).
Proof.
  intros HS Hw Hws Ho Hno. cbv zeta.
  assert (Hguard : UserData.isBot _ _ u || UserData.serviceUser _ _ u = true ->
                   madeAction S when u = (u, [])).
  { intros Hg. unfold UserData.madeAction. now rewrite Hg. }
  destruct (madeAction_cases S when u HS Hw Hws Ho Hno)
    as [[E _] | [[Hp [Hn [Hlt E]]] | [Hp [Hr E]]]]; rewrite E; cbn [fst snd].
  - repeat split; auto; try lia.
  - unfold UserData.onlineTime. cbn.
    destruct (UserData.isBot _ _ u || UserData.serviceUser _ _ u) eqn:Hg.
    { rewrite (Hguard eq_refl) in E. discriminate. }
    apply orb_false_elim in Hg. destruct Hg.
    repeat split; try lia. right. repeat split; auto; lia.
  - unfold UserData.onlineTime. cbn.
    destruct (UserData.isBot _ _ u || UserData.serviceUser _ _ u) eqn:Hg.
    { rewrite (Hguard eq_refl) in E. discriminate. }
    apply orb_false_elim in Hg. destruct Hg.
    repeat split; try lia. right. repeat split; auto; lia.
Qed.

(** X10.  Actions reported late change nothing: after [madeAction(when)], a call
    with the same or an earlier time leaves the user as it is and sends no
    notification ([SetOnlineAfterActivity] at least 1, sums in range).  In
    particular repeating a call has no further effect. *)
Theorem madeAction_ignores_earlier_action S when when' (u : User) :
  0 < S -> in_int32 (when + 1) -> in_int32 (when + S) ->
  in_int32 (onlineTill u) -> in_int32 (- onlineTill u) ->
  when' <= when ->
  madeAction S when' (fst (madeAction S when u)) = (fst (madeAction S when u), []).
Proof.
  intros HS Hw Hws Ho Hno Hle.
  assert (Hquiet : forall v : User,
            in_int32 (onlineTill v) -> in_int32 (- onlineTill v) ->
            (0 < when' -> UserData.isBot _ _ v = false ->
             UserData.serviceUser _ _ v = false ->
             (onlineTill v <= 0 /\ when' <= - onlineTill v) \/ when' < onlineTill v) ->
            madeAction S when' v = (v, [])).
  { intros v Hv Hnv Hfar.
    destruct (Z.leb_spec when' 0) as [Hnp | Hpos'].
    { unfold UserData.madeAction.
      assert ((when' <=? 0) = true) as -> by (apply Z.leb_le; lia).
      now rewrite !orb_true_r. }
    assert (HS' : 0 <= S) by lia.
    assert (Hr1 : in_int32 (when' + 1))
      by (unfold in_int32, INT32_MIN, INT32_MAX in *; lia).
    assert (Hr2 : in_int32 (when' + S))
      by (unfold in_int32, INT32_MIN, INT32_MAX in *; lia).
    destruct (UserData.isBot _ _ v) eqn:Hbot.
    { unfold UserData.madeAction. now rewrite Hbot. }
    destruct (UserData.serviceUser _ _ v) eqn:Hsvc.
    { unfold UserData.madeAction. now rewrite Hbot, Hsvc. }
    specialize (Hfar Hpos' eq_refl eq_refl).
    destruct (madeAction_cases S when' v HS' Hr1 Hr2 Hv Hnv)
      as [[E _] | [[_ [Hn [Hlt _]]] | [_ [Hr _]]]]; [exact E | lia | lia]. }
  assert (HS0 : 0 <= S) by lia.
  destruct (madeAction_cases S when u HS0 Hw Hws Ho Hno)
    as [[E Hfar] | [[Hp [Hn [Hlt E]]] | [Hp [Hr E]]]]; rewrite E; cbn [fst].
  - apply Hquiet; [exact Ho | exact Hno |].
    intros Hpos' Hb Hsv. unfold UserData.onlineTime in Hfar.
    destruct (Hfar ltac:(lia) Hb Hsv) as [Hfar1 Hfar2]. lia.
  - apply Hquiet; unfold in_int32, INT32_MIN, INT32_MAX in *; cbn; try lia.
  - apply Hquiet; unfold in_int32, INT32_MIN, INT32_MAX in *; cbn; try lia.
Qed.

(** X11.  [setBotInfoVersion]: after the call the user has bot information
    exactly when the version given is not negative, and
    [Notify::userIsBotChanged] is sent exactly when that changed.  The
    version stored never goes down: for a user that had bot information it
    is the greater of the old version and the new one.  The commands are
    dropped, with [Notify::botCommandsChanged] if there were any, exactly
    when the information is removed or its version raised; otherwise the
    bot information is left as it is.  [onlineTill] is not touched. *)
Theorem setBotInfoVersion_bot_status
    (BotInfo_new : UserData.BotInfo BotCommand BotInfoRest) v (u : User) :
  let u' := fst (UserData.setBotInfoVersion _ _ BotInfo_new v u) in
  let sent := snd (UserData.setBotInfoVersion _ _ BotInfo_new v u) in
  UserData.isBot _ _ u' = (0 <=? v) /\
  (In UserData.UserIsBotChanged sent <-> UserData.isBot _ _ u' <> UserData.isBot _ _ u) /\
  (forall b, UserData.botInfo _ _ u = Some b -> 0 <= v ->
     exists b', UserData.botInfo _ _ u' = Some b' /\
       UserData.version _ _ b' = Z.max (UserData.version _ _ b) v /\
       (v <= UserData.version _ _ b -> b' = b /\ sent = []) /\
       (UserData.version _ _ b < v ->
        UserData.commands _ _ b' = [] /\ UserData.inited _ _ b' = false)) /\
  (UserData.botInfo _ _ u = None -> 0 <= v ->
     exists b', UserData.botInfo _ _ u' = Some b' /\ UserData.version _ _ b' = v) /\
  (In UserData.BotCommandsChanged sent <->
   exists b, UserData.botInfo _ _ u = Some b /\ UserData.commands _ _ b <> [] /\
             (v < 0 \/ UserData.version _ _ b < v)) /\
  onlineTill u' = onlineTill u.
Proof.
  cbv zeta. unfold UserData.setBotInfoVersion, UserData.isBot, UserData.commandsCleared.
  destruct (Z.ltb_spec v 0) as [Hneg | Hpos].
  - assert ((0 <=? v) = false) as -> by (apply Z.leb_gt; lia).
    destruct (UserData.botInfo _ _ u) as [b |] eqn:Hb; cbn [fst snd].
    + cbn. split; [reflexivity |]. split.
      { split; [discriminate |]. intros _.
        apply in_or_app. right. now left. }
      split; [intros; lia |]. split; [discriminate |]. split; [| reflexivity].
      split.
      * intros Hin. exists b. split; [reflexivity |].
        destruct (UserData.commands _ _ b); [| split; [discriminate | lia]].
        cbn in Hin. destruct Hin as [Hin | []]. discriminate.
      * intros [b0 [E [Hne _]]]. inversion E; subst b0.
        destruct (UserData.commands _ _ b); [contradiction | now left].
    + rewrite Hb. split; [reflexivity |]. split.
      { split; [intros [] | intros H; now contradiction H]. }
      split; [discriminate |]. split; [intros; lia |]. split; [| reflexivity].
      split; [intros [] | intros [b0 [E _]]; discriminate].
  - assert ((0 <=? v) = true) as -> by (apply Z.leb_le; lia).
    destruct (UserData.botInfo _ _ u) as [b |] eqn:Hb.
    + destruct (Z.ltb_spec (UserData.version _ _ b) v) as [Hlt | Hge]; cbn [fst snd].
      * cbn. split; [reflexivity |]. split.
        { split; [| intros H; now contradiction H].
          intros Hin. destruct (UserData.commands _ _ b); cbn in Hin;
            [destruct Hin | destruct Hin as [Hin | []]; discriminate]. }
        split.
        { intros b0 E _. inversion E; subst b0. eexists. split; [reflexivity |].
          cbn. repeat split; try lia. }
        split; [discriminate |]. split; [| reflexivity].
        split.
        -- intros Hin. exists b. split; [reflexivity |].
           destruct (UserData.commands _ _ b); [destruct Hin | split; [discriminate | lia]].
        -- intros [b0 [E [Hne _]]]. inversion E; subst b0.
           destruct (UserData.commands _ _ b); [contradiction | now left].
      * rewrite Hb. split; [reflexivity |]. split.
        { split; [intros [] | intros H; now contradiction H]. }
        split.
        { intros b0 E _. inversion E; subst b0. exists b. split; [reflexivity |].
          repeat split; try lia. }
        split; [discriminate |]. split; [| reflexivity].
        split; [intros [] |].
        intros [b0 [E [_ Hor]]]. inversion E; subst b0. lia.
    + cbn. split; [reflexivity |]. split.
      { split; [discriminate | intros _; now left]. }
      split; [discriminate |]. split.
      { intros _ _. eexists. split; reflexivity. }
      split; [| reflexivity].
      split; [intros [Hin | []]; discriminate | intros [b0 [E _]]; discriminate].
Qed.

End UserDataFacts.

(** * PeerData *)

Lemma land_low_bits x n : 0 <= n -> 0 <= Z.land x (Z.ones n) < 2 ^ n.
Proof.
  intros Hn. rewrite Z.land_ones by exact Hn. apply Z.mod_pos_bound.
  apply Z.pow_pos_nonneg; lia.
Qed.

(** X12.  The colour index of a peer is always an index of the colour table:
    [peerColorIndex] reads the digest at one of its 16 entries and returns
    a number from 0 to 7, at most 3 for a peer that is no user, whatever
    the digest and the ids are; so [peerUserpicColor] never reads outside
    its table of eight colours. *)
Theorem peerColorIndex_in_table number hashMd5 myId peerId isUser :
  let index := PeerData.peerColorIndex number hashMd5 myId peerId isUser in
  0 <= PeerData.md5_index peerId < 16 /\
  0 <= index <= 7 /\
  (isUser = false -> index <= 3) /\
  exists c, PeerData.peerUserpicColor index = Some c.
Proof.
  cbv zeta. unfold PeerData.peerColorIndex, PeerData.md5_index.
  set (byte := hashMd5 _ _).
  pose proof (land_low_bits peerId 4 ltac:(lia)) as H15.
  pose proof (land_low_bits byte 3 ltac:(lia)) as H7.
  pose proof (land_low_bits byte 2 ltac:(lia)) as H3.
  change (Z.ones 4) with 15 in H15. change (Z.ones 3) with 7 in H7.
  change (Z.ones 2) with 3 in H3. change (2 ^ 4) with 16 in H15.
  change (2 ^ 3) with 8 in H7. change (2 ^ 2) with 4 in H3.
  split; [exact H15 |].
  assert (Hidx : 0 <= Z.land byte (if isUser then 7 else 3) <= 7)
    by (destruct isUser; lia).
  split; [exact Hidx |]. split; [intros ->; lia |].
  unfold PeerData.peerUserpicColor.
  assert ((Z.land byte (if isUser then 7 else 3) <? 0) = false) as ->
    by (apply Z.ltb_ge; lia).
  destruct (nth_error PeerData.peerColors
              (Z.to_nat (Z.land byte (if isUser then 7 else 3)))) as [c |] eqn:E.
  - now exists c.
  - apply nth_error_None in E. cbn in E. lia.
Qed.

Lemma int64_small z : in_int64 z -> int64 z = z.
Proof. unfold in_int64, int64. intros H. rewrite Z.mod_small; lia. Qed.

(** X13.  [updateFull] asks at most once per five seconds after an answer: once
    [fullUpdated] has noted the time [t0] (not 0) of the last full update,
    [updateFull] sends nothing up to and including [t0 + 5000] and the
    requests of [updateFullForced] after that.  A peer whose time of the
    last full update is 0 is always asked for.  The forced update always
    asks for the full peer, and for the own participant exactly for a
    channel that the user did not create and has no inviter for. *)
Theorem updateFull_throttled t0 now p :
  t0 <> 0 -> in_int64 (t0 + 5000) ->
  (now <= t0 + 5000 -> PeerData.updateFull now (PeerData.fullUpdated t0 p) = []) /\
  (t0 + 5000 < now ->
   PeerData.updateFull now (PeerData.fullUpdated t0 p) = PeerData.updateFullForced p) /\
  (PeerData._lastFullUpdate p = 0 ->
   PeerData.updateFull now p = PeerData.updateFullForced p) /\
  In PeerData.RequestFullPeer (PeerData.updateFullForced p) /\
  (In PeerData.RequestSelfParticipant (PeerData.updateFullForced p) <->
   exists channel, PeerData.asChannel p = Some channel /\
                   PeerData.amCreator channel = false /\ PeerData.inviter channel = 0).
Proof.
  intros Hnz Hr.
  unfold PeerData.updateFull, PeerData.fullUpdated, PeerData.kUpdateFullPeerTimeout.
  cbn [PeerData._lastFullUpdate PeerData.asChannel].
  rewrite (int64_small _ Hr).
  assert ((t0 =? 0) = false) as -> by (now apply Z.eqb_neq).
  cbn [orb].
  split.
  { intros Hle. assert ((t0 + 5000 <? now) = false) as -> by (apply Z.ltb_ge; lia).
    reflexivity. }
  split.
  { intros Hlt. assert ((t0 + 5000 <? now) = true) as -> by (apply Z.ltb_lt; lia).
    reflexivity. }
  split.
  { intros ->. reflexivity. }
  unfold PeerData.updateFullForced.
  split; [now left |].
  destruct (PeerData.asChannel p) as [channel |].
  - destruct (PeerData.amCreator channel) eqn:Hc; cbn [negb andb].
    + split.
      * intros [H | []]. discriminate.
      * intros [c [E [Hc' _]]]. inversion E; subst. congruence.
    + destruct (Z.eqb_spec (PeerData.inviter channel) 0) as [Hi | Hi].
      * split; [| intros _; right; now left].
        intros _. exists channel. auto.
      * split.
        -- intros [H | []]. discriminate.
        -- intros [c [E [_ Hi']]]. inversion E; subst. contradiction.
  - split.
    + intros [H | []]. discriminate.
    + intros [c [E _]]. discriminate.
Qed.

Lemma int32_add_l a b : int32 (int32 a + b) = int32 (a + b).
Proof.
  unfold int32. f_equal.
  replace ((a + 2 ^ 31) mod 2 ^ 32 - 2 ^ 31 + b + 2 ^ 31)
    with ((a + 2 ^ 31) mod 2 ^ 32 + b) by lia.
  rewrite Z.add_mod_idemp_l by lia. f_equal. lia.
Qed.

(** X14.  The empty userpic is painted where the caller asks for it, whatever
    the layout direction: [PeerData::paintUserpic] and its rounded and
    square variants pass [x + size + x] as outer width, and for it the
    mirrored position that [EmptyUserpic::paint] takes in a right-to-left
    layout is [x] again, so the calls made on the painter are the same in
    both directions. *)
Theorem paintUserpic_direction_independent {QString Pixmap}
    (userpic : option Pixmap) (_userpicEmpty : option QString) shape x y size :
  in_int32 x ->
  PeerData.paintUserpic QString Pixmap true userpic _userpicEmpty shape x y size =
  PeerData.paintUserpic QString Pixmap false userpic _userpicEmpty shape x y size.
Proof.
  intros Hx. unfold PeerData.paintUserpic, PeerData.EmptyUserpic_paint.
  destruct userpic; [reflexivity |].
  destruct _userpicEmpty; [| reflexivity].
  assert (E : int32 (int32 (int32 (int32 (x + size) + x) - x) - size) = x).
  { replace (int32 (int32 (x + size) + x) - x)
      with (int32 (int32 (x + size) + x) + - x) by lia.
    rewrite int32_add_l.
    replace (int32 (int32 (x + size) + x + - x) - size)
      with (int32 (int32 (x + size) + x + - x) + - size) by lia.
    rewrite int32_add_l.
    replace (int32 (x + size) + x + - x + - size)
      with (int32 (x + size) + - size) by lia.
    rewrite int32_add_l. replace (x + size + - size) with x by lia.
    now apply int32_small. }
  now rewrite E.
Qed.

(** * ChannelData *)

Section ChannelFacts.
Import ChannelData.

Variable LastParticipantsCountOutdated : Z.
Variable f_view_messages : Z.
Variable self : Z.
Variable hasAdminRights hasRestrictions : Channel -> bool.

Local Abbreviation setMembersCount := (setMembersCount LastParticipantsCountOutdated).
Local Abbreviation applyEditAdmin := (applyEditAdmin LastParticipantsCountOutdated).
Local Abbreviation applyEditBanned :=
  (applyEditBanned LastParticipantsCountOutdated f_view_messages).
Local Abbreviation applyEditBanned_mgInfo :=
  (applyEditBanned_mgInfo LastParticipantsCountOutdated f_view_messages).
Local Abbreviation isKicked := (isKicked f_view_messages).
Local Abbreviation isRestricted := (isRestricted f_view_messages).
Local Abbreviation setAdminRights := (setAdminRights self hasAdminRights).
Local Abbreviation setRestrictedRights := (setRestrictedRights self hasRestrictions).
Local Abbreviation perform :=
  (perform LastParticipantsCountOutdated f_view_messages self hasAdminRights
     hasRestrictions).
Local Abbreviation run :=
  (run LastParticipantsCountOutdated f_view_messages self hasAdminRights
     hasRestrictions).

(** ** Member functions, step by step *)

Lemma step_ret {A} s (a : A) : step s (ret a) (eq a) s.
Proof. intros c Hc. now exists a, c, []. Qed.

Lemma step_bind {A B} s s1 s2 (m : M A) (k : A -> M B) R R' :
  step s m R s1 -> (forall a, R a -> step s1 (k a) R' s2) ->
  step s (bind m k) R' s2.
Proof.
  intros Hm Hk c Hc. destruct (Hm c Hc) as (a & c1 & l1 & E1 & Ha & H1).
  destruct (Hk a Ha c1 H1) as (b & c2 & l2 & E2 & Hb & H2).
  exists b, c2, (l1 ++ l2). unfold bind. now rewrite E1, E2.
Qed.

Lemma step_weaken {A} s s1 s2 (m : M A) (R R' : A -> Prop) :
  step s m R s1 -> s1 = s2 -> (forall a, R a -> R' a) -> step s m R' s2.
Proof.
  intros Hm <- HR c Hc. destruct (Hm c Hc) as (a & c1 & l1 & E1 & Ha & H1).
  exists a, c1, l1. auto.
Qed.

Lemma step_any {A} s s1 (m : M A) (R : A -> Prop) :
  step s m R s1 -> step s m any s1.
Proof. intros Hm. eapply step_weaken; [exact Hm | reflexivity | now unfold any]. Qed.

Lemma step_get s : step s get (fun c => shape c = s) s.
Proof. intros c Hc. now exists c, c, []. Qed.

Lemma step_emit s e : step s (emit e) any s.
Proof. intros c Hc. now exists tt, c, [e]. Qed.

Lemma step_modify s f :
  (forall c, shape (f c) = shape c) -> step s (modify f) any s.
Proof.
  intros Hf c Hc. exists tt, (f c), []. rewrite Hf. now unfold modify, any.
Qed.

Lemma step_when s s' b m :
  step s m any s' -> step s (when b m) any (if b then s' else s).
Proof.
  intros Hm. destruct b; [exact Hm |].
  eapply step_any. apply step_ret.
Qed.

Lemma step_info mg v : step (mg, Some v) info (fun i => lists_of i = v) (mg, Some v).
Proof.
  intros c Hc. unfold shape in Hc. unfold info.
  destruct (mgInfo c) as [i |] eqn:E; [| discriminate].
  exists i, c, []. cbn in Hc. repeat split; [congruence |].
  unfold shape. now rewrite E.
Qed.

Lemma step_modify_info mg v v' f :
  (forall i, lists_of i = v -> lists_of (f i) = v') ->
  step (mg, Some v) (modify_info f) any (mg, Some v').
Proof.
  intros Hf c Hc. unfold shape in Hc. unfold modify_info, bind, info, modify.
  destruct (mgInfo c) as [i |] eqn:E; [| discriminate].
  exists tt, (set_mgInfo (Some (f i)) c), []. repeat split.
  unfold shape. cbn. cbn in Hc. rewrite (Hf i); congruence.
Qed.

Lemma step_count s (count : M Z) (field : Channel -> Z) :
  count = bind get (fun c => ret (field c)) -> step s count any s.
Proof.
  intros ->. eapply step_bind; [apply step_get |]. intros c _.
  eapply step_any. apply step_ret.
Qed.

(** The setters of the counts leave the lists alone. *)

Lemma setMembersCount_step s n : has_info s -> step s (setMembersCount n) any s.
Proof.
  intros Hs. unfold ChannelData.setMembersCount.
  eapply step_bind; [apply step_get |]. intros c Hc. cbn beta.
  eapply step_weaken; [apply step_when | | auto].
  2:{ instantiate (1 := s). now destruct (negb _). }
  eapply step_bind with (s1 := s) (R := any).
  - destruct (isMegagroup c) eqn:Hmg; [| eapply step_any; apply step_ret].
    destruct s as [mg [v |]].
    + eapply step_bind; [apply step_info |]. intros i Hi. cbn beta.
      eapply step_weaken; [apply step_when | | auto].
      2:{ instantiate (1 := (mg, Some v)). now destruct (negb _). }
      eapply step_bind; [eapply step_count; reflexivity |]. intros m _.
      apply step_modify_info. now intros [].
    + exfalso. unfold shape in Hc. inversion Hc; subst. apply Hs; [exact Hmg | reflexivity].
  - intros _ _. eapply step_bind; [apply step_modify; now intros [] |].
    intros _ _. apply step_emit.
Qed.

Lemma set_count_step s (cond : Channel -> bool) f flags :
  (forall c, shape (f c) = shape c) ->
  step s (bind get (fun c => when (cond c)
            (bind (modify f) (fun _ => emit (peerUpdatedDelayed flags))))) any s.
Proof.
  intros Hf. eapply step_bind; [apply step_get |]. intros c Hc. cbn beta.
  eapply step_weaken; [apply step_when | | auto].
  2:{ instantiate (1 := s). now destruct (cond c). }
  eapply step_bind; [apply step_modify; exact Hf |]. intros _ _. apply step_emit.
Qed.

Lemma setAdminsCount_step s n : step s (setAdminsCount n) any s.
Proof. apply set_count_step. now intros []. Qed.

Lemma setRestrictedCount_step s n : step s (setRestrictedCount n) any s.
Proof. apply set_count_step. now intros []. Qed.

Lemma setKickedCount_step s n : step s (setKickedCount n) any s.
Proof. apply set_count_step. now intros []. Qed.

Lemma updateFullForced_step s : step s updateFullForced any s.
Proof. intros c Hc. now eexists tt, c, _. Qed.


(** ** Containers *)

Lemma contains_listed {V} user (m : QMap.t V) :
  contains user m = true <-> listed user m.
Proof.
  unfold contains, listed. destruct (QMap.find user m); split; congruence.
Qed.

Lemma contains_false {V} user (m : QMap.t V) :
  contains user m = false <-> QMap.find user m = None.
Proof. unfold contains. destruct (QMap.find user m); split; congruence. Qed.

Lemma remove_absent {V} user (m : QMap.t V) :
  QMap.find user m = None -> remove user m = m.
Proof.
  unfold remove. induction m as [| [k v] m IH]; cbn; [reflexivity |].
  destruct (user =? k) eqn:E; [discriminate |].
  intros H. cbn. now rewrite IH.
Qed.

(** ** [applyEditAdmin] and [applyEditBanned] on the lists *)

Ltac simpl_info :=
  unfold lists_of, set_lastParticipants, set_lastAdmins, set_lastRestricted, set_bots,
    set_botStatus, set_lastParticipantsCount;
  cbn [lists_of set_lastParticipants set_lastAdmins set_lastRestricted set_bots
       set_botStatus set_lastParticipantsCount lastParticipants lastAdmins
       lastRestricted bots botStatus].

Ltac info_eq Hi :=
  unfold lists_of in Hi; cbn in Hi; injection Hi as -> -> -> ->; simpl_info.

Ltac simpl_lists :=
  cbn [participants admins restricted botset negb andb fst snd option_map].

Ltac leaf :=
  first
    [ apply step_get | apply step_emit | apply step_ret | apply updateFullForced_step
    | apply setMembersCount_step; unfold has_info; cbn; congruence
    | apply setAdminsCount_step | apply setRestrictedCount_step
    | apply setKickedCount_step
    | eapply step_count; reflexivity
    | apply step_info
    | eapply step_modify_info;
      let Hi := fresh in intros [? ? ? ? ? ? ?] Hi; info_eq Hi; reflexivity ].

Ltac read_info :=
  let Hi := fresh "Hi" in intros [? ? ? ? ? ? ?] Hi; info_eq Hi.

Lemma counts_after_edit_admin s user_botInfo old new :
  has_info s ->
  step s
    (if negb (old =? 0) && (new =? 0) then
       bind adminsCount (fun n =>
       bind (when (1 <? n) (setAdminsCount (int32 (n - 1)))) (fun _ =>
       bind get (fun c =>
       bind membersCount (fun n =>
       when (negb (isMegagroup c) && user_botInfo && (1 <? n))
         (setMembersCount (int32 (n - 1)))))))
     else if (old =? 0) && negb (new =? 0) then
       bind adminsCount (fun n =>
       bind (setAdminsCount (int32 (n + 1))) (fun _ => updateFullForced))
     else ret tt) any s.
Proof.
  intros Hs.
  destruct (negb (old =? 0) && (new =? 0)).
  - eapply step_bind; [leaf |]. intros n _.
    eapply step_bind with (s1 := s) (R := any).
    { destruct (1 <? n); cbv beta iota delta [when]; [leaf | eapply step_any; leaf]. }
    intros _ _. eapply step_bind; [leaf |]. intros c _.
    eapply step_bind; [leaf |]. intros m _.
    destruct (_ && _); cbv beta iota delta [when]; [| eapply step_any; leaf].
    now apply setMembersCount_step.
  - destruct (_ && _); [| eapply step_any; leaf].
    eapply step_bind; [leaf |]. intros n _.
    eapply step_bind; [leaf |]. intros _ _. leaf.
Qed.

Lemma applyEditAdmin_step user bot old new s :
  has_info s ->
  step s (applyEditAdmin user bot old new) any
    (fst s, option_map (admin_lists user bot new) (snd s)).
Proof.
  intros Hs. unfold ChannelData.applyEditAdmin.
  eapply step_bind; [apply step_get |]. intros c Hc. cbn beta.
  eapply step_bind with
    (s1 := (fst s, option_map (admin_lists user bot new) (snd s))) (R := any).
  2:{ intros _ _. eapply step_bind with (R := any); [| intros _ _; leaf].
      apply counts_after_edit_admin.
      unfold has_info in *. cbn [fst snd]. intros Hmg. specialize (Hs Hmg).
      destruct (snd s); [discriminate | contradiction]. }
  destruct s as [mg [[p a r b] |]]; unfold shape in Hc.
  - destruct (mgInfo c) as [i0 |]; [| discriminate]. cbn [fst snd option_map].
    eapply step_bind; [apply step_info |]. read_info.
    (* the last participants and the bots *)
    eapply step_bind with
      (s1 := (mg, Some (mkLists
                (participants (admin_lists user bot new (mkLists p a r b)))
                a r (botset (admin_lists user bot new (mkLists p a r b))))))
      (R := any).
    { unfold admin_lists. simpl_lists.
      destruct (list_contains user p) eqn:Hp; cbn [negb andb]; cbv beta iota delta [when].
      - eapply step_any; leaf.
      - eapply step_bind; [leaf |]. intros _ _.
        eapply step_bind; [leaf |]. intros n _.
        eapply step_bind; [leaf |]. intros _ _.
        eapply step_bind; [leaf |]. read_info.
        destruct (bot && negb (contains user b)) eqn:Hb; cbv beta iota delta [when].
        + eapply step_bind; [leaf |]. intros _ _.
          eapply step_bind; [leaf |]. intros i _.
          destruct (negb (botStatus i =? 0) && (botStatus i <? 2));
            cbv beta iota delta [when]; [leaf | eapply step_any; leaf].
        + eapply step_any; leaf. }
    intros _ _.
    (* the restricted users *)
    eapply step_bind; [apply step_info |]. read_info.
    eapply step_bind with
      (s1 := (mg, Some (mkLists
                (participants (admin_lists user bot new (mkLists p a r b)))
                a (remove user r)
                (botset (admin_lists user bot new (mkLists p a r b))))))
      (R := any).
    { destruct (contains user r) eqn:Hr; cbv beta iota delta [when].
      - eapply step_bind; [leaf |]. intros _ _.
        eapply step_bind; [leaf |]. intros n _.
        destruct (0 <? n); cbv beta iota delta [when]; [leaf | eapply step_any; leaf].
      - apply contains_false in Hr. rewrite (remove_absent _ _ Hr).
        eapply step_any; leaf. }
    intros _ _.
    (* the last admins *)
    eapply step_bind; [apply step_info |]. read_info. cbn zeta.
    unfold admin_lists at 3. simpl_lists.
    destruct (new =? 0) eqn:Hnew; cbn [negb].
    + destruct (QMap.find user a) eqn:Ha.
      * eapply step_bind; [leaf |]. intros _ _.
        eapply step_bind; [leaf |]. intros n _.
        destruct (0 <? n); cbv beta iota delta [when]; [leaf | eapply step_any; leaf].
      * rewrite (remove_absent _ _ Ha). eapply step_any; leaf.
    + destruct (QMap.find user a) eqn:Ha.
      * leaf.
      * eapply step_bind; [leaf |]. intros _ _.
        eapply step_bind; [leaf |]. intros n _. leaf.
  - destruct (mgInfo c); [discriminate |]. eapply step_any; leaf.
Qed.

Lemma applyEditBanned_mgInfo_step user new mg v :
  step (mg, Some v) (applyEditBanned_mgInfo user new) any
    (mg, Some (banned_lists f_view_messages user new v)).
Proof.
  destruct v as [p a r b]. unfold ChannelData.applyEditBanned_mgInfo.
  eapply step_bind; [apply step_info |]. read_info.
  (* the last admins *)
  eapply step_bind with (s1 := (mg, Some (mkLists p (remove user a) r b))) (R := any).
  { destruct (contains user a) eqn:Ha.
    - eapply step_bind; [leaf |]. intros _ _.
      eapply step_bind; [leaf |]. intros n _.
      destruct (1 <? n); [| eapply step_any; leaf].
      eapply step_bind; [leaf |]. intros _ _. eapply step_any; leaf.
    - apply contains_false in Ha. rewrite (remove_absent _ _ Ha).
      eapply step_any; leaf. }
  intros flags _.
  eapply step_bind; [apply step_info |]. read_info. cbn zeta.
  unfold banned_lists. simpl_lists.
  destruct (isRestricted new) eqn:Hres.
  - (* restricted *)
    assert (Hk : isKicked new = false).
    { unfold ChannelData.isRestricted in Hres. now destruct (isKicked new). }
    rewrite Hk. cbn [andb].
    destruct (QMap.find user r) eqn:Hr.
    + eapply step_bind; [leaf |]. intros _ _. eapply step_any; leaf.
    + eapply step_bind; [leaf |]. intros _ _.
      eapply step_bind; [leaf |]. intros n _.
      eapply step_bind; [leaf |]. intros _ _. eapply step_any; leaf.
  - eapply step_bind with
      (s1 := (mg, Some (mkLists p (remove user a) (remove user r) b))) (R := any).
    { destruct (QMap.find user r) eqn:Hr.
      - eapply step_bind; [leaf |]. intros _ _.
        eapply step_bind; [leaf |]. intros n _.
        destruct (0 <? n); cbv beta iota delta [when]; [leaf | eapply step_any; leaf].
      - rewrite (remove_absent _ _ Hr). eapply step_any; leaf. }
    intros _ _.
    destruct (isKicked new) eqn:Hk; cbn [andb]; [| eapply step_any; leaf].
    (* kicked *)
    eapply step_bind; [apply step_info |]. read_info. cbn zeta.
    eapply step_bind with
      (s1 := (mg, Some (mkLists
                (if 0 <=? indexOf user p
                 then removeAt (Z.to_nat (indexOf user p)) p else p)
                (remove user a) (remove user r) b)))
      (R := any).
    { destruct (0 <=? indexOf user p); cbv beta iota delta [when];
        [leaf | eapply step_any; leaf]. }
    intros _ _.
    eapply step_bind; [leaf |]. intros n _.
    eapply step_bind with
      (s1 := (mg, Some (mkLists
                (if 0 <=? indexOf user p
                 then removeAt (Z.to_nat (indexOf user p)) p else p)
                (remove user a) (remove user r) b)))
      (R := any).
    { destruct (1 <? n); leaf. }
    intros _ _.
    eapply step_bind; [leaf |]. intros k _.
    eapply step_bind; [leaf |]. intros _ _.
    eapply step_bind; [apply step_info |]. read_info.
    eapply step_bind with
      (s1 := (mg, Some (mkLists
                (if 0 <=? indexOf user p
                 then removeAt (Z.to_nat (indexOf user p)) p else p)
                (remove user a) (remove user r) (remove user b))))
      (R := any).
    { destruct (contains user b) eqn:Hb; cbv beta iota delta [when].
      - eapply step_bind; [leaf |]. intros _ _.
        eapply step_bind; [leaf |]. intros i _.
        destruct (QMap.isEmpty (bots i) && (0 <? botStatus i));
          cbv beta iota delta [when]; [leaf | eapply step_any; leaf].
      - apply contains_false in Hb. rewrite (remove_absent _ _ Hb).
        eapply step_any; leaf. }
    intros _ _.
    eapply step_bind; [leaf |]. intros _ _. eapply step_any; leaf.
Qed.

Lemma applyEditBanned_step user old new s :
  has_info s ->
  step s (applyEditBanned user old new) any
    (fst s, option_map (banned_lists f_view_messages user new) (snd s)).
Proof.
  intros Hs. unfold ChannelData.applyEditBanned.
  eapply step_bind; [apply step_get |]. intros c Hc. cbn beta.
  eapply step_bind with (R := any); [| intros flags _; leaf].
  destruct s as [mg [v |]]; unfold shape in Hc; cbn [fst snd option_map].
  - destruct (mgInfo c); [| discriminate]. apply applyEditBanned_mgInfo_step.
  - destruct (mgInfo c); [discriminate |]. eapply step_any; leaf.
Qed.

Lemma setAdminRights_shape rights c :
  has_info (shape c) ->
  exists c' l,
    setAdminRights rights c = Some (tt, c', l) /\
    (shape c' = shape c \/
     exists has creator,
       shape c' = (fst (shape c),
                   option_map (admin_rights_lists self rights has creator)
                     (snd (shape c)))).
Proof.
  intros Hs. unfold ChannelData.setAdminRights, bind at 1, get.
  destruct (rights =? _adminRights c); [now exists c, []; split; [| left] |].
  unfold bind at 1, modify. unfold bind at 1.
  set (c0 := set_adminRights rights c).
  assert (Hc0 : shape c0 = shape c) by now destruct c.
  match goal with
  | |- context [match ?m c0 with Some _ => _ | None => _ end] =>
      assert (Hstep : step (shape c) m any
                (fst (shape c),
                 if isMegagroup c0 then
                   option_map (admin_rights_lists self rights (hasAdminRights c0)
                                 (amCreator c0)) (snd (shape c))
                 else snd (shape c)))
  end.
  { eapply step_bind with (R := any); [| intros _ _; leaf].
    assert (Hmg : isMegagroup c0 = fst (shape c)) by now destruct c.
    rewrite Hmg. destruct (shape c) as [mg ov]. cbn [fst snd] in *.
    destruct mg; cbv beta iota delta [when]; [| eapply step_any; leaf].
    destruct ov as [[p a r b] |]; [| exfalso; now apply Hs].
    unfold admin_rights_lists. simpl_lists.
    destruct (hasAdminRights c0); cbv beta iota; [| leaf].
    destruct (amCreator c0); cbv beta iota delta [when negb].
    - eapply step_bind; [leaf |]. intros _ _. leaf.
    - eapply step_bind; [leaf |]. intros _ _. leaf. }
  destruct (Hstep c0 Hc0) as ([] & c' & l & E & _ & Hc'). rewrite E.
  exists c', ([] ++ [] ++ l). split; [reflexivity |].
  rewrite Hc'. destruct (isMegagroup c0).
  - right. now eexists _, _.
  - left. now destruct (shape c).
Qed.

Lemma setRestrictedRights_shape rights c :
  has_info (shape c) ->
  exists c' l,
    setRestrictedRights rights c = Some (tt, c', l) /\
    (shape c' = shape c \/
     exists has creator,
       shape c' = (fst (shape c),
                   option_map (restricted_rights_lists self rights has creator)
                     (snd (shape c)))).
Proof.
  intros Hs. unfold ChannelData.setRestrictedRights, bind at 1, get.
  destruct (_ && _); [now exists c, []; split; [| left] |].
  unfold bind at 1, modify. unfold bind at 1. unfold bind at 1.
  set (c0 := set_restrictions _ _).
  assert (Hc0 : shape c0 = shape c) by now destruct c.
  match goal with
  | |- context [match ?m c0 with Some _ => _ | None => _ end] =>
      assert (Hstep : step (shape c) m any
                (fst (shape c),
                 if isMegagroup c0 then
                   option_map (restricted_rights_lists self rights (hasRestrictions c0)
                                 (amCreator c0)) (snd (shape c))
                 else snd (shape c)))
  end.
  { eapply step_bind with (R := any); [| intros _ _; leaf].
    assert (Hmg : isMegagroup c0 = fst (shape c)) by now destruct c.
    rewrite Hmg. destruct (shape c) as [mg ov]. cbn [fst snd] in *.
    destruct mg; cbv beta iota delta [when]; [| eapply step_any; leaf].
    destruct ov as [[p a r b] |]; [| exfalso; now apply Hs].
    unfold restricted_rights_lists. simpl_lists.
    destruct (hasRestrictions c0); cbv beta iota; [| leaf].
    destruct (amCreator c0); cbv beta iota delta [when negb].
    - eapply step_bind; [leaf |]. intros _ _. leaf.
    - eapply step_bind; [leaf |]. intros _ _. leaf. }
  destruct (Hstep c0 Hc0) as ([] & c' & l & E & _ & Hc'). rewrite E.
  exists c', ([] ++ [] ++ [] ++ l). split; [reflexivity |].
  rewrite Hc'. destruct (isMegagroup c0).
  - right. now eexists _, _.
  - left. now destruct (shape c).
Qed.

(** ** The lists stay consistent *)

Lemma find_remove_same {V} user (m : QMap.t V) : QMap.find user (remove user m) = None.
Proof.
  unfold remove. induction m as [| [k v] m IH]; cbn; [reflexivity |].
  destruct (user =? k) eqn:E; cbn; [exact IH |]. now rewrite E.
Qed.

Lemma find_remove_other {V} user (m : QMap.t V) user' :
  user' <> user -> QMap.find user' (remove user m) = QMap.find user' m.
Proof.
  intros Hne. unfold remove. induction m as [| [k v] m IH]; cbn; [reflexivity |].
  destruct (user =? k) eqn:E; cbn.
  - apply Z.eqb_eq in E. subst k.
    assert ((user' =? user) = false) as -> by now apply Z.eqb_neq.
    exact IH.
  - now rewrite IH.
Qed.

Lemma listed_remove {V} user (m : QMap.t V) user' :
  listed user' (remove user m) <-> user' <> user /\ listed user' m.
Proof.
  unfold listed. split.
  - intros H. destruct (Z.eq_dec user' user) as [-> | Hne].
    + now rewrite find_remove_same in H.
    + now rewrite find_remove_other in H.
  - intros [Hne H]. now rewrite find_remove_other.
Qed.

Lemma listed_insert {V} user (v : V) m user' :
  listed user' (QMap.insert user v m) <-> user' = user \/ listed user' m.
Proof.
  unfold listed. destruct (Z.eq_dec user' user) as [-> | Hne].
  - rewrite find_insert_same. split; [now left | discriminate].
  - rewrite find_insert_other by exact Hne. tauto.
Qed.

Lemma remove_sorted {V} user (m : QMap.t V) : QMap.sorted m -> QMap.sorted (remove user m).
Proof.
  unfold QMap.sorted, QMap.keys, remove.
  induction m as [| [k v] m IH]; cbn; intros Hs; [constructor |].
  inversion Hs as [| ? ? Hs' Hall]; subst.
  destruct (user =? k); cbn; [now apply IH |].
  constructor; [now apply IH |].
  rewrite Forall_forall in *. intros x Hx. apply Hall.
  apply in_map_iff in Hx. destruct Hx as (e & <- & He).
  apply filter_In in He. apply in_map. tauto.
Qed.

Lemma list_contains_In user l : list_contains user l = true <-> In user l.
Proof.
  unfold list_contains. rewrite existsb_exists. split.
  - intros (x & Hx & E). apply Z.eqb_eq in E. now subst.
  - intros H. exists user. split; [exact H | apply Z.eqb_refl].
Qed.

Lemma indexOf_lower user l : -1 <= indexOf user l.
Proof.
  induction l as [| x l IH]; cbn; [lia |].
  destruct (x =? user); [lia |]. destruct (indexOf user l <? 0) eqn:E; lia.
Qed.

Lemma indexOf_absent user l : indexOf user l < 0 <-> ~ In user l.
Proof.
  induction l as [| x l IH]; cbn; [intuition lia |].
  destruct (Z.eqb_spec x user) as [-> | Hne].
  - intuition lia.
  - pose proof (indexOf_lower user l).
    destruct (indexOf user l <? 0) eqn:E.
    + apply Z.ltb_lt in E. intuition lia.
    + apply Z.ltb_ge in E. intuition lia.
Qed.

Lemma removeAt_indexOf_cons user x l :
  x <> user -> 0 <= indexOf user (x :: l) ->
  0 <= indexOf user l /\
  removeAt (Z.to_nat (indexOf user (x :: l))) (x :: l) =
  x :: removeAt (Z.to_nat (indexOf user l)) l.
Proof.
  intros Hne. cbn [indexOf]. apply Z.eqb_neq in Hne. rewrite Hne. cbv zeta.
  destruct (indexOf user l <? 0) eqn:E; [lia |]. apply Z.ltb_ge in E.
  intros _. split; [exact E |].
  replace (Z.to_nat (indexOf user l + 1)) with (S (Z.to_nat (indexOf user l))) by lia.
  reflexivity.
Qed.

Lemma removeAt_indexOf_In user l x :
  0 <= indexOf user l ->
  In x (removeAt (Z.to_nat (indexOf user l)) l) -> In x l.
Proof.
  induction l as [| y l IH]; [now cbn |].
  destruct (Z.eq_dec y user) as [-> | Hne].
  - cbn. rewrite Z.eqb_refl. cbn. tauto.
  - intros H0. destruct (removeAt_indexOf_cons user y l Hne H0) as [H0' ->].
    cbn. intros [-> | H]; [now left | right; now apply IH].
Qed.

Lemma removeAt_indexOf_other user l x :
  0 <= indexOf user l -> x <> user -> In x l ->
  In x (removeAt (Z.to_nat (indexOf user l)) l).
Proof.
  induction l as [| y l IH]; [now cbn |].
  destruct (Z.eq_dec y user) as [-> | Hne].
  - cbn. rewrite Z.eqb_refl. cbn. intros _ Hx [-> | H]; [contradiction | exact H].
  - intros H0 Hx. destruct (removeAt_indexOf_cons user y l Hne H0) as [H0' ->].
    cbn. intros [-> | H]; [now left | right; now apply IH].
Qed.

Lemma removeAt_indexOf_NoDup user l :
  0 <= indexOf user l -> NoDup l ->
  NoDup (removeAt (Z.to_nat (indexOf user l)) l) /\
  ~ In user (removeAt (Z.to_nat (indexOf user l)) l).
Proof.
  induction l as [| y l IH]; [cbn; lia |].
  intros H0 Hnd. inversion Hnd as [| ? ? Hy Hnd']; subst.
  destruct (Z.eq_dec y user) as [-> | Hne].
  - cbn. rewrite Z.eqb_refl. cbn. tauto.
  - destruct (removeAt_indexOf_cons user y l Hne H0) as [H0' ->].
    destruct (IH H0' Hnd') as [IH1 IH2]. split.
    + constructor; [| exact IH1]. intros H. apply Hy.
      now apply (removeAt_indexOf_In user).
    + cbn. intros [-> | H]; [now apply Hne | now apply IH2].
Qed.

Lemma admin_lists_consistent user bot new v :
  consistent v -> consistent (admin_lists user bot new v).
Proof.
  intros [Hp Ha Hr Hb Har Hbp]. destruct v as [p a r b]. cbn in *.
  unfold admin_lists. simpl_lists.
  constructor; simpl_lists.
  - destruct (list_contains user p) eqn:E; cbn [negb]; [exact Hp |].
    constructor; [| exact Hp]. intros H. apply list_contains_In in H. congruence.
  - destruct (new =? 0); [now apply remove_sorted | now apply insert_sorted].
  - now apply remove_sorted.
  - destruct (_ && _); [now apply insert_sorted | exact Hb].
  - intros x Hx Hxr. apply listed_remove in Hxr. destruct Hxr as [Hne Hxr].
    apply (Har x); [| exact Hxr].
    destruct (new =? 0).
    + now apply listed_remove in Hx.
    + apply listed_insert in Hx. tauto.
  - intros x Hx.
    assert (Hin : In x p -> In x (if negb (list_contains user p) then user :: p else p))
      by (destruct (negb _); cbn; tauto).
    destruct (negb (list_contains user p)) eqn:E; cbn [andb] in Hx.
    + destruct (bot && negb (contains user b)).
      * apply listed_insert in Hx. destruct Hx as [-> | Hx]; [now left |].
        right. now apply Hbp.
      * right. now apply Hbp.
    + now apply Hbp.
Qed.

Lemma banned_lists_consistent user new v :
  consistent v -> consistent (banned_lists f_view_messages user new v).
Proof.
  intros [Hp Ha Hr Hb Har Hbp]. destruct v as [p a r b]. cbn in *.
  unfold banned_lists. simpl_lists.
  assert (Hres : isRestricted new = true -> isKicked new = false).
  { unfold ChannelData.isRestricted. now destruct (isKicked new). }
  constructor; simpl_lists.
  - destruct (isKicked new && (0 <=? indexOf user p)) eqn:E; [| exact Hp].
    apply andb_prop in E. destruct E as [_ E]. apply Z.leb_le in E.
    now apply removeAt_indexOf_NoDup.
  - now apply remove_sorted.
  - destruct (isRestricted new); [now apply insert_sorted | now apply remove_sorted].
  - destruct (isKicked new); [now apply remove_sorted | exact Hb].
  - intros x Hx. apply listed_remove in Hx. destruct Hx as [Hne Hx].
    specialize (Har x Hx). intros Hxr. apply Har.
    destruct (isRestricted new).
    + apply listed_insert in Hxr. tauto.
    + now apply listed_remove in Hxr.
  - intros x Hx. destruct (isKicked new); cbn [andb]; [| now apply Hbp].
    apply listed_remove in Hx. destruct Hx as [Hne Hx]. specialize (Hbp x Hx).
    destruct (0 <=? indexOf user p) eqn:E; [| exact Hbp].
    apply Z.leb_le in E. now apply removeAt_indexOf_other.
Qed.

Lemma admin_rights_lists_consistent rights has creator v :
  consistent v -> consistent (admin_rights_lists self rights has creator v).
Proof.
  intros [Hp Ha Hr Hb Har Hbp]. destruct v as [p a r b]. cbn in *.
  unfold admin_rights_lists. destruct has; constructor; simpl_lists;
    try assumption.
  - destruct creator; [exact Ha | now apply insert_sorted].
  - now apply remove_sorted.
  - intros x Hx Hxr. apply listed_remove in Hxr. destruct Hxr as [Hne Hxr].
    apply (Har x); [| exact Hxr].
    destruct creator; [exact Hx |]. apply listed_insert in Hx. tauto.
  - now apply remove_sorted.
  - intros x Hx. apply listed_remove in Hx. now apply Har.
Qed.

Lemma restricted_rights_lists_consistent rights has creator v :
  consistent v -> consistent (restricted_rights_lists self rights has creator v).
Proof.
  intros [Hp Ha Hr Hb Har Hbp]. destruct v as [p a r b]. cbn in *.
  unfold restricted_rights_lists. destruct has; constructor; simpl_lists;
    try assumption.
  - now apply remove_sorted.
  - destruct creator; [exact Hr | now apply insert_sorted].
  - intros x Hx Hxr. apply listed_remove in Hx. destruct Hx as [Hne Hx].
    apply (Har x Hx).
    destruct creator; [exact Hxr |]. apply listed_insert in Hxr. tauto.
  - now apply remove_sorted.
  - intros x Hx Hxr. apply listed_remove in Hxr. now apply (Har x).
Qed.

Lemma well_formed_shape c :
  well_formed c <->
  has_info (shape c) /\ forall v, snd (shape c) = Some v -> consistent v.
Proof.
  unfold well_formed, has_info, shape. cbn [fst snd].
  destruct (mgInfo c) as [i |]; cbn [option_map]; split; intros [H1 H2]; split.
  - intros _. discriminate.
  - intros v E. injection E as <-. now apply H2.
  - intros _. discriminate.
  - intros i' E. injection E as <-. now apply H2.
  - intros Hmg. exfalso. now apply H1.
  - intros v E. discriminate.
  - intros Hmg. exfalso. now apply H1.
  - intros i' E. discriminate.
Qed.

Lemma well_formed_after c c' (f : Lists -> Lists) :
  well_formed c ->
  shape c' = (fst (shape c), option_map f (snd (shape c))) ->
  (forall v, consistent v -> consistent (f v)) ->
  well_formed c'.
Proof.
  rewrite !well_formed_shape. intros [H1 H2] E Hf. rewrite E. cbn [fst snd].
  unfold has_info in *. cbn [fst snd]. split.
  - intros Hmg. specialize (H1 Hmg). now destruct (snd (shape c)).
  - intros v Hv. destruct (snd (shape c)) as [v0 |]; [| discriminate].
    injection Hv as <-. now apply Hf, H2.
Qed.

Lemma info_after c c' (f : Lists -> Lists) i' :
  shape c' = (fst (shape c), option_map f (snd (shape c))) ->
  mgInfo c' = Some i' ->
  exists i, mgInfo c = Some i /\ lists_of i' = f (lists_of i).
Proof.
  unfold shape. cbn [fst snd]. intros E Hi'. rewrite Hi' in E.
  destruct (mgInfo c) as [i |]; [| discriminate].
  exists i. split; [reflexivity |]. cbn in E. congruence.
Qed.

(** ** The four operations *)

Lemma applyEditAdmin_after user user_botInfo oldRights newRights c :
  well_formed c ->
  exists c' l,
    applyEditAdmin user user_botInfo oldRights newRights c = Some (tt, c', l) /\
    well_formed c' /\
    shape c' = (fst (shape c),
                option_map (admin_lists user user_botInfo newRights) (snd (shape c))).
Proof.
  intros Hwf. pose proof Hwf as Hwf'. apply well_formed_shape in Hwf'.
  destruct Hwf' as [Hs _].
  destruct (applyEditAdmin_step user user_botInfo oldRights newRights _ Hs c eq_refl)
    as ([] & c' & l & E & _ & Hc').
  exists c', l. split; [exact E |]. split; [| exact Hc'].
  eapply well_formed_after; [exact Hwf | exact Hc' |].
  intros v. apply admin_lists_consistent.
Qed.

Lemma applyEditBanned_after user oldRights newRights c :
  well_formed c ->
  exists c' l,
    applyEditBanned user oldRights newRights c = Some (tt, c', l) /\
    well_formed c' /\
    shape c' = (fst (shape c),
                option_map (banned_lists f_view_messages user newRights)
                  (snd (shape c))).
Proof.
  intros Hwf. pose proof Hwf as Hwf'. apply well_formed_shape in Hwf'.
  destruct Hwf' as [Hs _].
  destruct (applyEditBanned_step user oldRights newRights _ Hs c eq_refl)
    as ([] & c' & l & E & _ & Hc').
  exists c', l. split; [exact E |]. split; [| exact Hc'].
  eapply well_formed_after; [exact Hwf | exact Hc' |].
  intros v. apply banned_lists_consistent.
Qed.

Lemma shape_no_info c c' (f : Lists -> Lists) :
  shape c' = (fst (shape c), option_map f (snd (shape c))) ->
  isMegagroup c' = isMegagroup c /\ (mgInfo c = None -> mgInfo c' = None).
Proof.
  unfold shape. cbn [fst snd]. intros E. split; [congruence |].
  intros Hnone. rewrite Hnone in E. cbn in E.
  destruct (mgInfo c'); [discriminate | reflexivity].
Qed.

(** X15.  [applyEditAdmin] on a megagroup whose lists are consistent never
    reads [mgInfo] through a null pointer and leaves the lists
    consistent.  Afterwards the user is a last participant and is not
    restricted, and is a last admin, with the new rights and [canEdit]
    set, exactly when the new rights are not empty.  The same holds for a
    channel that is no megagroup, which has no lists before or after. *)
Theorem applyEditAdmin_lists user user_botInfo oldRights newRights c :
  well_formed c ->
  exists c' l,
    applyEditAdmin user user_botInfo oldRights newRights c = Some (tt, c', l) /\
    well_formed c' /\
    isMegagroup c' = isMegagroup c /\
    (mgInfo c = None -> mgInfo c' = None) /\
    forall i', mgInfo c' = Some i' ->
      In user (lastParticipants i') /\
      QMap.find user (lastRestricted i') = None /\
      QMap.find user (lastAdmins i') =
        (if newRights =? 0 then None else Some (mkAdmin newRights true)).
Proof.
  intros Hwf.
  destruct (applyEditAdmin_after user user_botInfo oldRights newRights c Hwf)
    as (c' & l & E & Hwf' & Hc').
  exists c', l. split; [exact E |]. split; [exact Hwf' |].
  destruct (shape_no_info _ _ _ Hc') as [Hmg Hnone].
  split; [exact Hmg |]. split; [exact Hnone |].
  intros i' Hi'. destruct (info_after _ _ _ _ Hc' Hi') as (i & Hi & Hl).
  destruct i' as [P A R B ? ? ?], i as [p a r b ? ? ?].
  unfold lists_of, admin_lists in Hl.
  cbn [lastParticipants lastAdmins lastRestricted bots participants admins restricted
       botset] in Hl.
  injection Hl as -> -> -> ->.
  cbn [lastParticipants lastRestricted lastAdmins]. repeat split.
  - destruct (list_contains user p) eqn:Ep; cbn [negb]; [| now left].
    now apply list_contains_In.
  - apply find_remove_same.
  - destruct (newRights =? 0); [apply find_remove_same | apply find_insert_same].
Qed.

(** X16.  [applyEditBanned] on a megagroup whose lists are consistent never
    reads [mgInfo] through a null pointer and leaves the lists
    consistent.  Afterwards the user is no last admin; it is restricted,
    with the new rights, exactly when the new rights are not empty and do
    not take away the right to view messages; and when they do take it
    away, the user is no last participant and no bot of the group any
    more. *)
Theorem applyEditBanned_lists user oldRights newRights c :
  well_formed c ->
  exists c' l,
    applyEditBanned user oldRights newRights c = Some (tt, c', l) /\
    well_formed c' /\
    isMegagroup c' = isMegagroup c /\
    (mgInfo c = None -> mgInfo c' = None) /\
    forall i', mgInfo c' = Some i' ->
      QMap.find user (lastAdmins i') = None /\
      QMap.find user (lastRestricted i') =
        (if isRestricted newRights then Some newRights else None) /\
      (isKicked newRights = true ->
       ~ In user (lastParticipants i') /\ QMap.find user (bots i') = None).
Proof.
  intros Hwf.
  destruct (applyEditBanned_after user oldRights newRights c Hwf)
    as (c' & l & E & Hwf' & Hc').
  exists c', l. split; [exact E |]. split; [exact Hwf' |].
  destruct (shape_no_info _ _ _ Hc') as [Hmg Hnone].
  split; [exact Hmg |]. split; [exact Hnone |].
  intros i' Hi'. destruct (info_after _ _ _ _ Hc' Hi') as (i & Hi & Hl).
  destruct Hwf as [_ Hcons]. specialize (Hcons i Hi).
  destruct Hcons as [Hnd _ _ _ _ _].
  destruct i' as [P A R B ? ? ?], i as [p a r b ? ? ?].
  unfold lists_of, banned_lists in Hl.
  cbn [lastParticipants lastAdmins lastRestricted bots participants admins restricted
       botset] in Hl.
  injection Hl as -> -> -> ->.
  cbn [lastParticipants lastRestricted lastAdmins bots]. cbn in Hnd. repeat split.
  - apply find_remove_same.
  - destruct (isRestricted newRights); [apply find_insert_same | apply find_remove_same].
  - rewrite H. cbn [andb]. destruct (0 <=? indexOf user p) eqn:E0.
    + apply Z.leb_le in E0. now apply removeAt_indexOf_NoDup.
    + apply Z.leb_gt in E0. now apply indexOf_absent.
  - rewrite H. apply find_remove_same.
Qed.

(** X17.  Every sequence of [applyEditAdmin], [applyEditBanned],
    [setAdminRights] and [setRestrictedRights] runs to its end from a
    channel that has its [mgInfo] if it is a megagroup and whose lists
    are consistent, and ends in such a channel: no user is listed twice
    among the last participants, nobody is both a last admin and
    restricted, and every listed bot is a last participant. *)
Theorem run_well_formed ops c :
  well_formed c ->
  exists c' l, run ops c = Some (tt, c', l) /\ well_formed c'.
Proof.
  revert c. induction ops as [| op ops IH]; intros c Hwf.
  - now exists c, [].
  - assert (Hop : exists c1 l1, perform op c = Some (tt, c1, l1) /\ well_formed c1).
    { pose proof Hwf as Hwf'. apply well_formed_shape in Hwf'.
      destruct Hwf' as [Hs _]. destruct op as [u b o n | u o n | r | r]; cbn.
      - destruct (applyEditAdmin_after u b o n c Hwf) as (c1 & l1 & E & H1 & _).
        now exists c1, l1.
      - destruct (applyEditBanned_after u o n c Hwf) as (c1 & l1 & E & H1 & _).
        now exists c1, l1.
      - destruct (setAdminRights_shape r c Hs) as (c1 & l1 & E & H1).
        exists c1, l1. split; [exact E |].
        destruct H1 as [H1 | (has & cr & H1)].
        + apply well_formed_shape. rewrite H1. now apply well_formed_shape.
        + eapply well_formed_after; [exact Hwf | exact H1 |].
          intros v. apply admin_rights_lists_consistent.
      - destruct (setRestrictedRights_shape r c Hs) as (c1 & l1 & E & H1).
        exists c1, l1. split; [exact E |].
        destruct H1 as [H1 | (has & cr & H1)].
        + apply well_formed_shape. rewrite H1. now apply well_formed_shape.
        + eapply well_formed_after; [exact Hwf | exact H1 |].
          intros v. apply restricted_rights_lists_consistent. }
    destruct Hop as (c1 & l1 & E1 & Hwf1).
    destruct (IH c1 Hwf1) as (c' & l & E & Hwf').
    exists c', (l1 ++ l). split; [| exact Hwf'].
    cbn [ChannelData.run]. unfold bind. now rewrite E1, E.
Qed.

End ChannelFacts.

(** * EmptyUserpic *)

Section FillStringFacts.
Import EmptyUserpic.

Variable Emoji_Find : list Z -> option Z.
Variable isHighSurrogate isLowSurrogate isLetterOrNumber chIsDiac : Z -> bool.
Variable toUpper : list Z -> list Z.

Local Abbreviation scan :=
  (scan Emoji_Find isHighSurrogate isLowSurrogate isLetterOrNumber chIsDiac).
Local Abbreviation emoji_inside := (emoji_inside Emoji_Find).
Local Abbreviation plain := (plain Emoji_Find isHighSurrogate chIsDiac).
Local Abbreviation initial := (initial isLetterOrNumber).
Local Abbreviation initials := (initials isLetterOrNumber).
Local Abbreviation fillString :=
  (fillString Emoji_Find isHighSurrogate isLowSurrogate isLetterOrNumber chIsDiac toUpper).

Lemma push_letter_ok letter st :
  letterFound st = false -> level_ok st -> level_ok (push_letter letter st).
Proof.
  intros Hf (Hl & Hlen & Hlev). unfold level_ok, push_letter. cbn. repeat split.
  - apply Forall_app. split; [exact Hl |]. constructor; [| constructor].
    symmetry. now apply Hlev.
  - rewrite !length_app. cbn. lia.
  - discriminate.
Qed.

Lemma separator_ok ch st : level_ok st -> level_ok (separator ch st).
Proof.
  intros (Hl & Hlen & Hlev). unfold level_ok, separator.
  destruct (ch =? space); [cbn; auto |].
  destruct (letterFound st && (ch =? hyphen)); [cbn | auto].
  repeat split; auto. discriminate.
Qed.

Lemma emoji_inside_skipn k s : emoji_inside s -> emoji_inside (skipn k s).
Proof.
  intros H n len. rewrite skipn_skipn. apply H.
Qed.

Lemma emoji_inside_tail ch rest : emoji_inside (ch :: rest) -> emoji_inside rest.
Proof. apply (emoji_inside_skipn 1). Qed.

Lemma scan_ok fuel s st :
  emoji_inside s -> (length s <= fuel)%nat -> level_ok st ->
  exists st', scan fuel s st = Some st' /\ level_ok st' /\
              exists more, letters st' = letters st ++ more.
Proof.
  revert s st. induction fuel as [| fuel IH]; intros s st Hemoji Hlen Hok.
  - destruct s; [| cbn in Hlen; lia]. exists st. cbn. repeat split; try apply Hok.
    exists []. now rewrite app_nil_r.
  - destruct s as [| ch rest].
    { exists st. cbn. repeat split; try apply Hok. exists []. now rewrite app_nil_r. }
    cbn [EmptyUserpic.scan]. cbn [length] in Hlen.
    pose proof (emoji_inside_tail _ _ Hemoji) as Hrest.
    assert (Hpush : forall letter s', emoji_inside s' -> (length s' <= fuel)%nat ->
              letterFound st = false ->
              exists st', scan fuel s' (push_letter letter st) = Some st' /\
                          level_ok st' /\ exists more, letters st' = letters st ++ more).
    { intros letter s' He' Hs' Hf.
      destruct (IH s' (push_letter letter st) He' Hs' (push_letter_ok letter st Hf Hok))
        as (st' & E & Hok' & more & Hmore).
      exists st'. repeat split; try apply Hok'; [exact E |].
      exists ([letter] ++ more). rewrite Hmore. cbn. now rewrite <- app_assoc. }
    destruct (Emoji_Find (ch :: rest)) as [emojiLength |] eqn:He.
    + pose proof (Hemoji 0%nat _ He) as Hin. cbn [skipn] in Hin.
      assert ((1 <=? emojiLength) && (emojiLength <=? Z.of_nat (length (ch :: rest)))
              = true)
        as -> by (apply andb_true_intro; split; [apply Z.leb_le | apply Z.leb_le]; lia).
      apply IH; [now apply emoji_inside_skipn | | exact Hok].
      rewrite length_skipn. cbn [length] in *. lia.
    + destruct (isHighSurrogate ch).
      * destruct rest as [| ch' rest'].
        -- apply IH; [exact Hrest | cbn; lia | exact Hok].
        -- destruct (isLowSurrogate ch');
             (apply IH; [| cbn in *; lia | exact Hok]);
             [now apply (emoji_inside_tail ch') | exact Hrest].
      * destruct (negb (letterFound st) && isLetterOrNumber ch) eqn:Hletter.
        -- apply andb_prop in Hletter. destruct Hletter as [Hf _].
           apply negb_true_iff in Hf.
           destruct rest as [| ch' rest'].
           ++ apply Hpush; [exact Hrest | cbn; lia | exact Hf].
           ++ destruct (chIsDiac ch'); (apply Hpush; [| cbn in *; lia | exact Hf]);
                [now apply (emoji_inside_tail ch') | exact Hrest].
        -- destruct (IH rest (separator ch st)) as (st' & E & Hok' & more & Hmore).
           ++ exact Hrest.
           ++ lia.
           ++ now apply separator_ok.
           ++ exists st'. repeat split; try apply Hok'; [exact E |].
              exists more. rewrite Hmore. unfold separator.
              destruct (ch =? space); [reflexivity |].
              now destruct (letterFound st && (ch =? hyphen)).
Qed.

Lemma best_level0 levels i bestIndex :
  Forall (eq 0) levels -> (i <= length levels)%nat ->
  best levels i bestIndex 0 = bestIndex.
Proof.
  intros Hl. revert bestIndex. induction i as [| i IH]; intros bestIndex Hi; [reflexivity |].
  cbn [best]. destruct i as [| i']; [reflexivity |].
  assert ((nth (S i') levels 0 <? 0) = false) as ->.
  { apply Z.ltb_ge. rewrite Forall_forall in Hl.
    rewrite <- (Hl (nth (S i') levels 0)); [lia |]. apply nth_In. lia. }
  apply IH. lia.
Qed.

Lemma best_last levels n :
  Forall (eq 0) levels -> length levels = S (S n) ->
  best levels (length levels) 0 2 = S n.
Proof.
  intros Hl Hlen. rewrite Hlen.
  change (best levels (S (S n)) 0 2)
    with (if nth (S n) levels 0 <? 2
          then best levels (S n) (S n) (nth (S n) levels 0)
          else best levels (S n) 0 2).
  assert (H0 : nth (S n) levels 0 = 0).
  { rewrite Forall_forall in Hl. symmetry. apply Hl. apply nth_In. lia. }
  rewrite H0. cbn [Z.ltb Z.compare]. apply best_level0; [exact Hl | lia].
Qed.

Lemma chosen_first_and_last st :
  Forall (eq 0) (levels st) -> length (levels st) = length (letters st) ->
  chosen st = first_and_last (letters st).
Proof.
  intros Hl Hlen. unfold chosen, first_and_last.
  destruct (letters st) as [| front others] eqn:El; [reflexivity |].
  destruct others as [| second others]; [reflexivity |].
  rewrite <- Hlen.
  rewrite (best_last (levels st) (length others)) by (try exact Hl; cbn in Hlen; lia).
  cbn [Nat.ltb Nat.leb]. f_equal.
  cbn [nth]. clear. revert second.
  induction others as [| x others IH]; intros second; [reflexivity |].
  cbn [length nth]. rewrite (IH x). reflexivity.
Qed.

(** X18.  Of the letters that [fillString] records, the first and the last are
    taken: [fillString] has a result for every name in which every emoji
    found lies inside the name; no letter is ever recorded at level 1, so
    a hyphen never starts a word; and the text is the upper case of the
    first recorded letter, followed by the last one when more than one is
    recorded. *)
Theorem fillString_first_and_last name :
  emoji_inside name ->
  exists st,
    scan (length name) name (mkScan [] [] 0 false) = Some st /\
    Forall (eq 0) (levels st) /\
    fillString name =
      Some (toUpper (match letters st with
                     | [] => []
                     | [front] => front
                     | front :: others => front ++ last others []
                     end)).
Proof.
  intros Hemoji.
  destruct (scan_ok (length name) name (mkScan [] [] 0 false) Hemoji) as
    (st & E & (Hl & Hlen & _) & _).
  { lia. }
  { repeat split; cbn; auto. }
  exists st. split; [exact E |]. split; [exact Hl |].
  unfold EmptyUserpic.fillString. rewrite E.
  now rewrite chosen_first_and_last.
Qed.

Lemma words_cons s : exists word others, words s = word :: others.
Proof.
  induction s as [| ch rest (word & others & IH)]; cbn; [now eexists _, _ |].
  destruct (ch =? space); [now eexists _, _ |]. rewrite IH. now eexists _, _.
Qed.

Lemma plain_tail ch rest : plain (ch :: rest) -> plain rest.
Proof.
  intros [He Hf]. split.
  - intros n. apply (He (S n)).
  - now inversion Hf.
Qed.

Lemma scan_plain fuel s st :
  isLetterOrNumber space = false ->
  plain s -> (length s <= fuel)%nat ->
  exists st',
    scan fuel s st = Some st' /\
    letters st' =
      letters st ++
      (if letterFound st then flat_map initial (tl (words s))
       else flat_map initial (words s)).
Proof.
  intros Hspace. revert s st.
  induction fuel as [| fuel IH]; intros s st Hplain Hlen.
  - destruct s; [| cbn in Hlen; lia]. exists st. cbn. split; [reflexivity |].
    destruct (letterFound st); now rewrite app_nil_r.
  - destruct s as [| ch rest].
    { exists st. cbn. split; [reflexivity |].
      destruct (letterFound st); now rewrite app_nil_r. }
    cbn [EmptyUserpic.scan]. cbn [length] in Hlen.
    pose proof (plain_tail _ _ Hplain) as Hrest.
    destruct Hplain as [He Hf]. rewrite (He 0%nat : Emoji_Find (ch :: rest) = None).
    inversion Hf as [| ? ? [Hhigh Hdiac] Hf']; subst. rewrite Hhigh.
    destruct (words_cons rest) as (word & others & Hw).
    cbn [EmptyUserpic.words]. rewrite Hw.
    destruct (negb (letterFound st) && isLetterOrNumber ch) eqn:Hletter.
    + (* the first letter or number of a word *)
      apply andb_prop in Hletter. destruct Hletter as [Hfound Hch].
      apply negb_true_iff in Hfound. rewrite Hfound.
      assert (Hsp : (ch =? space) = false).
      { destruct (Z.eqb_spec ch space) as [-> |]; [congruence | reflexivity]. }
      rewrite Hsp.
      assert (Hrec : exists st',
                scan fuel rest (push_letter [ch] st) = Some st' /\
                letters st' =
                  letters st ++ flat_map initial ((ch :: word) :: others)).
      { destruct (IH rest (push_letter [ch] st) Hrest ltac:(lia)) as (st' & E & Hl).
        exists st'. split; [exact E |]. rewrite Hl. cbn [letters push_letter letterFound].
        rewrite Hw. cbn [tl flat_map]. rewrite <- app_assoc. f_equal.
        unfold EmptyUserpic.initial at 2. cbn [find]. now rewrite Hch. }
      destruct rest as [| ch' rest']; [exact Hrec |].
      inversion Hf' as [| ? ? [_ Hdiac'] _]; subst. rewrite Hdiac'. exact Hrec.
    + (* any other unit *)
      destruct (IH rest (separator ch st) Hrest ltac:(lia)) as (st' & E & Hl).
      exists st'. split; [exact E |]. rewrite Hl. unfold separator.
      destruct (ch =? space) eqn:Hsp.
      * cbn [letters letterFound tl flat_map]. rewrite Hw.
        unfold EmptyUserpic.initial at 2 4. cbn [find app].
        now destruct (letterFound st).
      * destruct (letterFound st) eqn:Hfound; cbn [andb negb] in *.
        -- destruct (ch =? hyphen); cbn [letters letterFound]; rewrite ?Hfound, Hw;
             reflexivity.
        -- rewrite Hfound, Hw. cbn [flat_map]. f_equal. f_equal.
           unfold EmptyUserpic.initial. cbn [find]. now rewrite Hletter.
Qed.

(** X19.  For a name of plain letters, without emoji, surrogates and
    diacritics, the text of the empty userpic is the upper case of the
    initial of the first word that has one, followed by the initial of
    the last word that has one when that is another word.  Words are
    separated by spaces only, and the initial of a word is its first
    letter or number. *)
Theorem fillString_initials name :
  isLetterOrNumber space = false ->
  plain name ->
  fillString name =
    Some (toUpper (match initials name with
                   | [] => []
                   | [front] => front
                   | front :: others => front ++ last others []
                   end)).
Proof.
  intros Hspace Hplain.
  assert (Hemoji : emoji_inside name).
  { intros n len E. destruct Hplain as [He _]. rewrite He in E. discriminate. }
  destruct (scan_ok (length name) name (mkScan [] [] 0 false) Hemoji) as
    (st & E & (Hlev & Hlen & _) & _).
  { lia. }
  { repeat split; cbn; auto. }
  destruct (scan_plain (length name) name (mkScan [] [] 0 false) Hspace Hplain)
    as (st' & E' & Hl); [lia |].
  rewrite E in E'. injection E' as <-.
  unfold EmptyUserpic.fillString. rewrite E.
  rewrite chosen_first_and_last by assumption. rewrite Hl. reflexivity.
Qed.

End FillStringFacts.

(** * The scenarios of the peers, run *)

Lemma madeAction_moves_forward_witness :
  0 <= 30 /\ in_int32 (1000 + 1) /\ in_int32 (1000 + 30) /\
  in_int32 (-500) /\ in_int32 (- -500) /\
  UserData.onlineTime unit unit
    (fst (UserData.madeAction unit unit 30 1000
            (UserData.mkUser unit unit None (-500) false))) = 1030 /\
  UserData.onlineTill unit unit
    (fst (UserData.madeAction unit unit 30 1000
            (UserData.mkUser unit unit None (-500) false))) <= 0.
Proof.
  assert (H0 : 0 <= 30) by lia.
  assert (H1 : in_int32 (1000 + 1)) by (unfold in_int32, INT32_MIN, INT32_MAX; lia).
  assert (H2 : in_int32 (1000 + 30)) by (unfold in_int32, INT32_MIN, INT32_MAX; lia).
  assert (H3 : in_int32 (-500)) by (unfold in_int32, INT32_MIN, INT32_MAX; lia).
  assert (H4 : in_int32 (- -500)) by (unfold in_int32, INT32_MIN, INT32_MAX; lia).
  destruct (madeAction_moves_forward unit unit 30 1000
              (UserData.mkUser unit unit None (-500) false) H0 H1 H2 H3 H4)
    as [Hneg _].
  repeat (split; [assumption |]). split; [reflexivity |].
  apply Hneg. discriminate.
Defined.

Lemma madeAction_ignores_earlier_action_witness :
  0 < 30 /\ in_int32 (1000 + 1) /\ in_int32 (1000 + 30) /\
  in_int32 (-500) /\ in_int32 (- -500) /\ 900 <= 1000 /\
  snd (UserData.madeAction unit unit 30 900
         (fst (UserData.madeAction unit unit 30 1000
                 (UserData.mkUser unit unit None (-500) false)))) = [].
Proof.
  assert (H0 : 0 < 30) by lia.
  assert (H1 : in_int32 (1000 + 1)) by (unfold in_int32, INT32_MIN, INT32_MAX; lia).
  assert (H2 : in_int32 (1000 + 30)) by (unfold in_int32, INT32_MIN, INT32_MAX; lia).
  assert (H3 : in_int32 (-500)) by (unfold in_int32, INT32_MIN, INT32_MAX; lia).
  assert (H4 : in_int32 (- -500)) by (unfold in_int32, INT32_MIN, INT32_MAX; lia).
  assert (H5 : 900 <= 1000) by lia.
  pose proof (madeAction_ignores_earlier_action unit unit 30 1000 900
                (UserData.mkUser unit unit None (-500) false) H0 H1 H2 H3 H4 H5) as H.
  repeat (split; [assumption |]). now rewrite H.
Defined.

Lemma updateFull_throttled_witness :
  1000 <> 0 /\ in_int64 (1000 + 5000) /\
  PeerData.updateFull 3000 (PeerData.fullUpdated 1000 (PeerData.mkPeer 0 None)) = [] /\
  PeerData.updateFull 7000 (PeerData.fullUpdated 1000 (PeerData.mkPeer 0 None)) =
  [PeerData.RequestFullPeer].
Proof.
  assert (H0 : 1000 <> 0) by discriminate.
  assert (H1 : in_int64 (1000 + 5000)) by (unfold in_int64; lia).
  destruct (updateFull_throttled 1000 3000 (PeerData.mkPeer 0 None) H0 H1)
    as [Hquiet _].
  destruct (updateFull_throttled 1000 7000 (PeerData.mkPeer 0 None) H0 H1)
    as [_ [Hasks _]].
  split; [exact H0 |]. split; [exact H1 |].
  split; [apply Hquiet; lia | apply Hasks; lia].
Defined.

Lemma paintUserpic_direction_independent_witness :
  in_int32 10 /\
  PeerData.paintUserpic (list Z) unit true None (Some [74; 83]) PeerData.Circled 10 20 40 =
  PeerData.paintUserpic (list Z) unit false None (Some [74; 83]) PeerData.Circled 10 20 40.
Proof.
  assert (H : in_int32 10) by (unfold in_int32, INT32_MIN, INT32_MAX; lia).
  split; [exact H |].
  exact (paintUserpic_direction_independent None (Some [74; 83]) PeerData.Circled
           10 20 40 H).
Defined.

Lemma well_formed_small_group : ChannelData.well_formed ChannelData.small_group.
Proof.
  split; [intros _; discriminate |].
  intros i E. injection E as <-. constructor; cbn.
  - constructor; [intros [H | []]; discriminate |].
    constructor; [intros [] | constructor].
  - constructor.
  - repeat constructor.
  - constructor.
  - intros user H. exfalso. now apply H.
  - intros user H. exfalso. now apply H.
Defined.

(** The restricted user 7 is made an admin. *)
Lemma applyEditAdmin_lists_witness :
  ChannelData.well_formed ChannelData.small_group /\
  exists c' l i',
    ChannelData.applyEditAdmin 1 7 false 0 3 ChannelData.small_group = Some (tt, c', l) /\
    ChannelData.well_formed c' /\
    ChannelData.mgInfo c' = Some i' /\
    QMap.find 7 (ChannelData.lastRestricted i') = None /\
    QMap.find 7 (ChannelData.lastAdmins i') = Some (ChannelData.mkAdmin 3 true).
Proof.
  split; [exact well_formed_small_group |].
  destruct (applyEditAdmin_lists 1 7 false 0 3 ChannelData.small_group
              well_formed_small_group) as (c' & l & E & Hwf & _ & _ & Hi).
  destruct (ChannelData.mgInfo c') as [i' |] eqn:Ei.
  - exists c', l, i'. destruct (Hi i' eq_refl) as (_ & Hr & Ha).
    split; [exact E |]. split; [exact Hwf |]. split; [exact Ei |].
    split; [exact Hr | exact Ha].
  - exfalso. vm_compute in E. injection E as <- _. discriminate Ei.
Defined.

(** The participant 1 is kicked. *)
Lemma applyEditBanned_lists_witness :
  ChannelData.well_formed ChannelData.small_group /\
  exists c' l i',
    ChannelData.applyEditBanned 1 1 1 (ChannelData.mkBannedRights 0 0)
      (ChannelData.mkBannedRights 1 0) ChannelData.small_group = Some (tt, c', l) /\
    ChannelData.well_formed c' /\
    ChannelData.mgInfo c' = Some i' /\
    ~ In 1 (ChannelData.lastParticipants i').
Proof.
  split; [exact well_formed_small_group |].
  destruct (applyEditBanned_lists 1 1 1 (ChannelData.mkBannedRights 0 0)
              (ChannelData.mkBannedRights 1 0) ChannelData.small_group
              well_formed_small_group) as (c' & l & E & Hwf & _ & _ & Hi).
  destruct (ChannelData.mgInfo c') as [i' |] eqn:Ei.
  - exists c', l, i'. destruct (Hi i' eq_refl) as (_ & _ & Hk).
    split; [exact E |]. split; [exact Hwf |]. split; [exact Ei |].
    now apply Hk.
  - exfalso. vm_compute in E. injection E as <- _. discriminate Ei.
Defined.

(** The participant 1 is kicked, the restricted user 7 is made an admin,
    and the rights and the restrictions of the user 9 itself change. *)
Lemma run_well_formed_witness :
  ChannelData.well_formed ChannelData.small_group /\
  exists c' l,
    ChannelData.run 1 1 9 ChannelData.has_rights ChannelData.has_restrictions
      [ChannelData.EditBanned 1 (ChannelData.mkBannedRights 0 0)
         (ChannelData.mkBannedRights 1 0);
       ChannelData.EditAdmin 7 false 0 3;
       ChannelData.AdminRights 5;
       ChannelData.RestrictedRights (ChannelData.mkBannedRights 2 100)]
      ChannelData.small_group = Some (tt, c', l) /\
    ChannelData.well_formed c'.
Proof.
  split; [exact well_formed_small_group |].
  apply run_well_formed. exact well_formed_small_group.
Defined.

Lemma emoji_inside_pair_emoji name :
  EmptyUserpic.emoji_inside EmptyUserpic.pair_emoji name.
Proof.
  intros n len. unfold EmptyUserpic.pair_emoji.
  destruct (skipn n name) as [| ch [| ch' rest]]; try discriminate.
  destruct (ch =? 55357); [| discriminate].
  intros E. injection E as <-. cbn [length]. lia.
Defined.

(** [ann-marie], an emoji, [lee]: the letters are A and L. *)
Lemma fillString_first_and_last_witness :
  EmptyUserpic.emoji_inside EmptyUserpic.pair_emoji EmptyUserpic.ann_marie_lee /\
  EmptyUserpic.fillString EmptyUserpic.pair_emoji EmptyUserpic.never EmptyUserpic.never
    EmptyUserpic.ascii_letterOrNumber EmptyUserpic.never EmptyUserpic.ascii_toUpper
    EmptyUserpic.ann_marie_lee = Some [65; 76].
Proof.
  split; [apply emoji_inside_pair_emoji |].
  destruct (fillString_first_and_last EmptyUserpic.pair_emoji EmptyUserpic.never
              EmptyUserpic.never EmptyUserpic.ascii_letterOrNumber EmptyUserpic.never
              EmptyUserpic.ascii_toUpper EmptyUserpic.ann_marie_lee
              (emoji_inside_pair_emoji _)) as (st & E & _ & H).
  vm_compute in E. injection E as <-. exact H.
Defined.

(** [jean-paul sartre]: the letters are J and S. *)
Lemma fillString_initials_witness :
  EmptyUserpic.ascii_letterOrNumber EmptyUserpic.space = false /\
  EmptyUserpic.plain EmptyUserpic.no_emoji EmptyUserpic.never EmptyUserpic.never
    EmptyUserpic.jean_paul_sartre /\
  EmptyUserpic.fillString EmptyUserpic.no_emoji EmptyUserpic.never EmptyUserpic.never
    EmptyUserpic.ascii_letterOrNumber EmptyUserpic.never EmptyUserpic.ascii_toUpper
    EmptyUserpic.jean_paul_sartre = Some [74; 83].
Proof.
  assert (Hplain : EmptyUserpic.plain EmptyUserpic.no_emoji EmptyUserpic.never
                     EmptyUserpic.never EmptyUserpic.jean_paul_sartre).
  { split; [reflexivity | repeat constructor]. }
  split; [reflexivity |]. split; [exact Hplain |].
  exact (fillString_initials EmptyUserpic.no_emoji EmptyUserpic.never EmptyUserpic.never
           EmptyUserpic.ascii_letterOrNumber EmptyUserpic.never
           EmptyUserpic.ascii_toUpper EmptyUserpic.jean_paul_sartre eq_refl Hplain).
Defined.
